(** * test-server: the recording proxy, its canonical request form and its redactor

    A shallow embedding of the record mode of test-server:
    - [GoStrings]: the few functions of Go's [strings] and [strconv] packages the
      program calls, over Rocq strings read as byte strings;
    - [Redact]: the secret redactor (package [internal/redact]);
    - [Http]: the requests, responses and response writers of [net/http];
    - [Store]: the recorded data and the interface of package [internal/store];
    - [Recording]: the recording proxy (package [internal/record]), with the
      upstream server, the WebSocket peers and the file system as explicit
      inputs and explicit state;
    - [SHA256] and [StoreSpec]: the canonical serialisation of a recorded
      request, its inverse and its fingerprint.

    The properties follow the definitions. *)

From Stdlib Require Import ZArith Lia Ascii String DecimalString DecimalN.
From stdpp Require Import base gmap strings list sorting.

Local Open Scope Z_scope.

(** ** Results of fallible Go calls: a value or an [error] with its message *)

Inductive result (A : Type) : Type :=
| Ok (a : A)
| Err (msg : string).
Arguments Ok {A} a.
Arguments Err {A} msg.

(** ** Go's byte strings *)

Module GoStrings.

(** [strings.CutPrefix]: the rest of [s] after the prefix [p], if [s] starts
    with [p]. *)
Fixpoint strip_prefix (p s : string) : option string :=
  match p with
  | EmptyString => Some s
  | String a p' =>
      match s with
      | EmptyString => None
      | String b s' => if decide (a = b) then strip_prefix p' s' else None
      end
  end.

Definition has_prefix (p s : string) : bool :=
  match strip_prefix p s with Some _ => true | None => false end.

(** [strings.Contains s sub]. *)
Fixpoint occurs (sub s : string) : bool :=
  has_prefix sub s ||
  match s with
  | EmptyString => false
  | String _ s' => occurs sub s'
  end.

(** The bytes of a string, for statements about single characters. *)
Fixpoint chars (s : string) : list ascii :=
  match s with
  | EmptyString => []
  | String c s' => c :: chars s'
  end.

(** [strings.ReplaceAll s old new] for a non-empty [old]: the occurrences of
    [old] are found from left to right, each search starting after the previous
    occurrence.  [skip] counts the bytes of a matched occurrence still to be
    dropped. *)
Fixpoint replace_go (old new : string) (skip : nat) (s : string) : string :=
  match s with
  | EmptyString => EmptyString
  | String c s' =>
      match skip with
      | S k => replace_go old new k s'
      | O =>
          if has_prefix old s
          then new +:+ replace_go old new (Nat.pred (String.length old)) s'
          else String c (replace_go old new 0 s')
      end
  end.

Definition ReplaceAll (s old new : string) : string := replace_go old new 0 s.

(** [strings.Cut s sep] for a non-empty [sep]: the text before and after the
    first occurrence of [sep]. *)
Fixpoint Cut (s sep : string) : option (string * string) :=
  match strip_prefix sep s with
  | Some rest => Some (EmptyString, rest)
  | None =>
      match s with
      | EmptyString => None
      | String c s' =>
          match Cut s' sep with
          | Some (before, after) => Some (String c before, after)
          | None => None
          end
      end
  end.

(** The newline byte. *)
Definition LF : string := String "010"%char EmptyString.

(** The double quote. *)
Definition dquote : string := String "034"%char EmptyString.

(** [strconv.Itoa], also what [fmt]'s [%d] prints. *)
Definition Itoa (z : Z) : string := NilZero.string_of_int (Z.to_int z).

Definition int_min : Z := - 2 ^ 63.
Definition int_max : Z := 2 ^ 63 - 1.

(** [strconv.Atoi]: an optional sign, then one or more decimal digits, the
    value within the range of [int]. *)
Definition Atoi (s : string) : option Z :=
  let '(neg, ds) :=
    match s with
    | String "-"%char t => (true, t)
    | String "+"%char t => (false, t)
    | _ => (false, s)
    end in
  match ds with
  | EmptyString => None
  | _ =>
      match NilEmpty.uint_of_string ds with
      | Some d =>
          let v := Z.of_N (N.of_uint d) in
          let v := if neg then - v else v in
          if decide (int_min <= v <= int_max) then Some v else None
      | None => None
      end
  end.

(** The last byte of a string. *)
Fixpoint lastByte (s : string) : option ascii :=
  match s with
  | EmptyString => None
  | String c EmptyString => Some c
  | String _ s' => lastByte s'
  end.

End GoStrings.

Import GoStrings.

(** ** The redactor (package [internal/redact]) *)

Module Redact.

(** The token written in place of a secret. *)
Definition REDACTED : string := "REDACTED".

(** Modelled from the spec: the type [redact.Redact] and its constructor
    [NewRedact]; the source of package [redact] is missing.  A redactor is
    built from the ordered list of secrets. *)
Record Redact : Type := NewRedact { secrets : list string }.

(** Modelled from the spec: [Redact.String], the spec's [redact_string]
    ([String] is taken by the constructor of strings).  The secrets are applied
    in list order, each on the value the previous ones rewrote; an empty secret
    is ignored; matching is literal and case-sensitive. *)
Definition redact_secret (acc secret : string) : string :=
  if decide (secret = EmptyString) then acc else ReplaceAll acc secret REDACTED.

Definition redact_string (r : Redact) (s : string) : string :=
  fold_left redact_secret (secrets r) s.

(** Modelled from the spec: [Redact.Bytes], the same on a byte buffer; the
    result is a new buffer. *)
Definition redact_bytes (r : Redact) (b : string) : string :=
  fold_left redact_secret (secrets r) b.

(** The other reading of "every occurrence of any secret", the one the case
    "Redact multiple secrets" of the store's test needs: one pass from left to
    right, replacing at each position the first non-empty secret, in list
    order, that the text starts with there. *)
Fixpoint firstMatch (secrets : list string) (s : string) : option string :=
  match secrets with
  | [] => None
  | secret :: rest =>
      if negb (bool_decide (secret = EmptyString)) && has_prefix secret s
      then Some secret
      else firstMatch rest s
  end.

Fixpoint scan_go (secrets : list string) (skip : nat) (s : string) : string :=
  match s with
  | EmptyString => EmptyString
  | String c s' =>
      match skip with
      | S k => scan_go secrets k s'
      | O =>
          match firstMatch secrets s with
          | Some secret => REDACTED +:+ scan_go secrets (Nat.pred (String.length secret)) s'
          | None => String c (scan_go secrets 0 s')
          end
      end
  end.

Definition scan_string (r : Redact) (s : string) : string := scan_go (secrets r) 0 s.

(** Go's [http.Header]: a map from header names to the list of their values. *)
Abbreviation Header := (gmap string (list string)).

(** Modelled from the spec: [Redact.Headers] rewrites every header value and
    leaves the names alone. *)
Definition redact_headers (r : Redact) (h : Header) : Header :=
  (fun values : list string => redact_string r <$> values) <$> h.

(** A decoded JSON value, Go's [any] as [encoding/json] produces it.  An object
    is kept as the list of its members. *)
#[local] Unset Elimination Schemes.
Inductive Any : Type :=
| ANull
| ABool (b : bool)
| ANumber (float64_bits : Z)
| AString (s : string)
| AArray (elems : list Any)
| AObject (members : list (string * Any)).
#[local] Set Elimination Schemes.

(** Modelled from the spec: [Redact.Map] rewrites every string leaf, through
    nested objects and arrays, and keeps the other leaves. *)
Fixpoint redact_any (r : Redact) (v : Any) : Any :=
  match v with
  | AString s => AString (redact_string r s)
  | AArray elems => AArray (map (redact_any r) elems)
  | AObject members =>
      AObject (map (fun kv => match kv with (k, x) => (k, redact_any r x) end) members)
  | _ => v
  end.

Definition redact_map (r : Redact) (m : list (string * Any)) : list (string * Any) :=
  map (fun kv => match kv with (k, x) => (k, redact_any r x) end) m.

(** No non-empty secret has a byte in common with the token. *)
Definition token_free (r : Redact) : Prop :=
  Forall (fun s => Forall (fun c => c ∉ chars REDACTED) (chars s)) (secrets r).

#[global] Instance token_free_dec (r : Redact) : Decision (token_free r).
Proof. unfold token_free. apply _. Defined.

End Redact.

Import Redact.

(** ** Configuration (package [internal/config]) *)

(** One entry of [response_header_replacements]. *)
Record HeaderReplacement : Type := {
  Header_ : string;
  Regex : string;
  Replace : string
}.

(** The fields of [config.EndpointConfig] the recording proxy reads. *)
Record EndpointConfig : Type := {
  SourcePort : Z;
  TargetHost : string;
  TargetPort : Z;
  TargetType : string;
  Health : string;
  RedactRequestHeaders : list string;
  ResponseHeaderReplacements : list HeaderReplacement
}.

(** ** Go's [net/http], as far as the proxy uses it *)

Module Http.

(** [Header.Get] for a name in canonical form: the first value, or the empty
    string. *)
Definition Get (h : Header) (name : string) : string :=
  match h !! name with
  | Some (v :: _) => v
  | _ => EmptyString
  end.

(** [Header.Add] on the map itself, without canonicalising the name. *)
Definition Add (h : Header) (name value : string) : Header :=
  <[name := default [] (h !! name) ++ [value]]> h.

(** The headers whose names satisfy [keep], as a loop over the map that copies
    or deletes by name builds them. *)
Definition selectNames (keep : string -> bool) (h : Header) : Header :=
  list_to_map (filter (fun kv : string * list string => keep kv.1 = true) (map_to_list h)).

(** [Header.Set]. *)
Definition Set_ (h : Header) (name value : string) : Header := <[name := [value]]> h.

(** An [http.Request].  [Scheme] and [Host] are those of its URL, empty for
    a request the server received in origin form.  [Body] is what reading the
    body to its end gives: the bytes, or the read error. *)
Record Request : Type := {
  Method : string;
  Scheme : string;
  Host : string;
  Path : string;
  RawQuery : string;
  ReqHeader : Header;
  Body : result string
}.

(** [URL.String], for a URL without user, fragment or escaping. *)
Definition URLString (req : Request) : string :=
  (if decide (Scheme req = EmptyString) then EmptyString
   else Scheme req +:+ "://" +:+ Host req) +:+
  Path req +:+
  (if decide (RawQuery req = EmptyString) then EmptyString else "?" +:+ RawQuery req).

(** The request the proxy sends upstream. *)
Record ClientRequest : Type := {
  CMethod : string;
  CURL : string;
  CHeader : Header;
  CBody : string
}.

(** The upstream's [http.Response]; [RBody] is what reading its body gives. *)
Record Response : Type := {
  RStatusCode : Z;
  RHeader : Header;
  RBody : result string
}.

(** An [http.ResponseWriter]: the header map, the status line and headers once
    sent, the body bytes written, and whether the connection was hijacked by
    a WebSocket upgrade. *)
Record ResponseWriter : Type := {
  WHeader : Header;
  Sent : option (Z * Header);
  Written : string;
  Hijacked : bool
}.

Definition newResponseWriter : ResponseWriter :=
  {| WHeader := ∅; Sent := None; Written := EmptyString; Hijacked := false |}.

Definition StatusOK : Z := 200.
Definition StatusInternalServerError : Z := 500.

(** [WriteHeader]: the first call sends the status line and the headers; a
    later call, or a call on a hijacked connection, is ignored. *)
Definition WriteHeader (w : ResponseWriter) (code : Z) : ResponseWriter :=
  if Hijacked w then w else
  match Sent w with
  | Some _ => w
  | None => {| WHeader := WHeader w; Sent := Some (code, WHeader w);
               Written := Written w; Hijacked := false |}
  end.

(** [Write]: sends status 200 first if no status was sent yet. *)
Definition Write (w : ResponseWriter) (b : string) : ResponseWriter :=
  if Hijacked w then w else
  let w := WriteHeader w StatusOK in
  {| WHeader := WHeader w; Sent := Sent w; Written := Written w +:+ b; Hijacked := false |}.

Definition withHeader (w : ResponseWriter) (h : Header) : ResponseWriter :=
  {| WHeader := h; Sent := Sent w; Written := Written w; Hijacked := Hijacked w |}.

(** [http.Error]: sets the plain-text headers, writes the status and then the
    message and a newline. *)
Definition Error (w : ResponseWriter) (error : string) (code : Z) : ResponseWriter :=
  let h := Set_ (Set_ (WHeader w) "Content-Type" "text/plain; charset=utf-8")
                "X-Content-Type-Options" "nosniff" in
  let w := withHeader w h in
  let w := WriteHeader w code in
  Write w (error +:+ LF).

(** What the client reads as status once the handler has returned: the status
    sent, or 200 when the handler wrote nothing. *)
Definition clientStatus (w : ResponseWriter) : Z :=
  match Sent w with
  | Some (code, _) => code
  | None => StatusOK
  end.

End Http.

(** ** The recorded data (package [internal/store]) *)

Module Store.

(** The chain's first link: 64 zeros. *)
Definition HeadSHA : string :=
  "0000000000000000000000000000000000000000000000000000000000000000".

(** [store.RecordedRequest], with the fields the proxy and the tests name. *)
Record RecordedRequest : Type := {
  Request : string;
  Headers : Header;
  RawBody : string;
  BodySegments : list (list (string * Any));
  PreviousRequest : string;
  ServerAddress : string;
  Port : Z;
  Protocol : string
}.

Definition setPreviousRequest (q : RecordedRequest) (prev : string) : RecordedRequest :=
  {| Request := Request q; Headers := Headers q; RawBody := RawBody q;
     BodySegments := BodySegments q; PreviousRequest := prev;
     ServerAddress := ServerAddress q; Port := Port q; Protocol := Protocol q |}.

Definition setHeaders (q : RecordedRequest) (h : Header) : RecordedRequest :=
  {| Request := Request q; Headers := h; RawBody := RawBody q;
     BodySegments := BodySegments q; PreviousRequest := PreviousRequest q;
     ServerAddress := ServerAddress q; Port := Port q; Protocol := Protocol q |}.

Definition setRequest (q : RecordedRequest) (line : string) : RecordedRequest :=
  {| Request := line; Headers := Headers q; RawBody := RawBody q;
     BodySegments := BodySegments q; PreviousRequest := PreviousRequest q;
     ServerAddress := ServerAddress q; Port := Port q; Protocol := Protocol q |}.

Definition setBodySegments (q : RecordedRequest) (segs : list (list (string * Any)))
  : RecordedRequest :=
  {| Request := Request q; Headers := Headers q; RawBody := RawBody q;
     BodySegments := segs; PreviousRequest := PreviousRequest q;
     ServerAddress := ServerAddress q; Port := Port q; Protocol := Protocol q |}.

(** [store.RecordedResponse]. *)
Record RecordedResponse : Type := {
  StatusCode : Z;
  RespHeader : Header;
  RespBody : string
}.

(** [store.RecordInteraction]. *)
Record RecordInteraction : Type := {
  IRequest : RecordedRequest;
  ShaSum : string;
  IResponse : RecordedResponse
}.

(** [store.RecordFile]: a struct, held by value in the proxy's map. *)
Record RecordFile : Type := {
  RecordID : string;
  Interactions : list RecordInteraction
}.

(** The functions of package [store] the proxy calls.  The source of the
    package is missing (its tests are there); the proxy is modelled over any
    implementation of them. *)
Class StoreAPI : Type := {
  NewRecordedRequest : Http.Request -> string -> EndpointConfig -> result RecordedRequest;
  RedactHeaders : RecordedRequest -> list string -> RecordedRequest;
  GetRecordingFileName : RecordedRequest -> result string;
  ComputeSum : RecordedRequest -> string;
  NewRecordedResponse : Http.Response -> string -> result RecordedResponse
}.

End Store.

(** ** The recording proxy (package [internal/record]) *)

Module Recording.

Import Http Store.

(** Go's [regexp] package, as far as [replaceRegex] uses it: [Compile] gives no
    expression for a pattern that is not valid syntax. *)
Class RegexpAPI : Type := {
  Regexp : Type;
  Compile : string -> option Regexp;
  ReplaceAllString : Regexp -> string -> string -> string
}.

(** A call that returns or panics. *)
Inductive outcome (A : Type) : Type :=
| Done (a : A)
| Panic (msg : string).
Arguments Done {A} a.
Arguments Panic {A} msg.

(** A file of the recording directory: the indented JSON encoding of a record
    file written in full, the bytes of a WebSocket log, or a file that was
    opened with [O_TRUNC] and not written in full. *)
Inductive File : Type :=
| JSONFile (rf : RecordFile)
| LogFile (bytes : string)
| TruncatedFile.

Abbreviation Disk := (gmap string File).

(** [filepath.Join] of a directory and a file name. *)
Definition Join (dir name : string) : string := dir +:+ "/" +:+ name.

(** One message on a WebSocket connection as a pump sees it: its type, its
    bytes, and the error of forwarding it to the peer, if any. *)
Record Frame : Type := {
  msgType : Z;
  payload : string;
  writeError : option string
}.

(** What a pump reads from its source connection: the messages in order, then
    the read error that ends it ([unexpectedClose] is the answer of
    [websocket.IsUnexpectedCloseError]). *)
Record Reads : Type := {
  frames : list Frame;
  unexpectedClose : bool
}.

(** The world outside the handler during one request: the upstream server, the
    file system calls and the two WebSocket connections. *)
Record Env : Type := {
  NewRequestError : string -> string -> option string;
  Do : ClientRequest -> result Response;
  OpenFileError : string -> option string;
  MarshalIndentError : RecordFile -> option string;
  WriteStringError : option string;
  DialError : string -> Header -> option string;
  UpgradeError : option (Z * string);
  CreateError : string -> option string;
  clientReads : Reads;
  upstreamReads : Reads;
  arrival : list bool;
  LogWriteError : nat -> option string
}.

Record RecordingHTTPSProxy : Type := {
  prevRequestSHA : string;
  seenFiles : gmap string RecordFile;
  config : EndpointConfig;
  recordingDir : string;
  redactor : Redact
}.

Definition NewRecordingHTTPSProxy (cfg : EndpointConfig) (recordingDir : string)
    (redactor : Redact) : RecordingHTTPSProxy :=
  {| prevRequestSHA := HeadSHA;
     seenFiles := ∅;
     config := cfg;
     recordingDir := recordingDir;
     redactor := redactor |}.

Definition setPrevRequestSHA (r : RecordingHTTPSProxy) (sha : string) : RecordingHTTPSProxy :=
  {| prevRequestSHA := sha; seenFiles := seenFiles r; config := config r;
     recordingDir := recordingDir r; redactor := redactor r |}.

Definition setSeenFiles (r : RecordingHTTPSProxy) (m : gmap string RecordFile)
  : RecordingHTTPSProxy :=
  {| prevRequestSHA := prevRequestSHA r; seenFiles := m; config := config r;
     recordingDir := recordingDir r; redactor := redactor r |}.

Definition ResetChain (r : RecordingHTTPSProxy) : RecordingHTTPSProxy :=
  setPrevRequestSHA r HeadSHA.

(** What one call of the handler leaves behind: the proxy's fields, the
    recording directory, the response writer, the lines printed, and the panic
    if the handler did not return. *)
Record Outcome : Type := {
  proxy : RecordingHTTPSProxy;
  disk : Disk;
  writer : ResponseWriter;
  stdout : list string;
  panicked : option string
}.

Section Proxy.

Context `{StoreAPI} `{RegexpAPI}.

Definition redactRequest (r : RecordingHTTPSProxy) (req : Http.Request) : result RecordedRequest :=
  match NewRecordedRequest req (prevRequestSHA r) (config r) with
  | Err err => Err err
  | Ok recordedRequest =>
      (* Redact headers by key *)
      let q := RedactHeaders recordedRequest (RedactRequestHeaders (config r)) in
      (* Redacts secrets from header values *)
      let q := setHeaders q (redact_headers (redactor r) (Headers q)) in
      let q := setRequest q (redact_string (redactor r) (Request q)) in
      let redactedBodySegments := map (redact_map (redactor r)) (BodySegments q) in
      Ok (setBodySegments q redactedBodySegments)
  end.

Definition replaceRegex (s regex replacement : string) : outcome string :=
  match Compile regex with
  | None => Panic ("regexp: Compile(" +:+ regex +:+ ")")
  | Some re => Done (ReplaceAllString re s replacement)
  end.

(** The loop over the values of one header. *)
Fixpoint replaceValues (values : list string) (regex replacement : string)
  : outcome (list string) :=
  match values with
  | [] => Done []
  | value :: rest =>
      match replaceRegex value regex replacement with
      | Panic msg => Panic msg
      | Done value' =>
          match replaceValues rest regex replacement with
          | Panic msg => Panic msg
          | Done rest' => Done (value' :: rest')
          end
      end
  end.

(** applyResponseHeaderReplacements applies the header replacements defined in
    the EndpointConfig to the headers, in place. *)
Fixpoint applyReplacements (replacements : list HeaderReplacement) (headers : Header)
  : outcome Header :=
  match replacements with
  | [] => Done headers
  | replacement :: rest =>
      match headers !! Header_ replacement with
      | Some values =>
          match replaceValues values (Regex replacement) (Replace replacement) with
          | Panic msg => Panic msg
          | Done values' => applyReplacements rest (<[Header_ replacement := values']> headers)
          end
      | None => applyReplacements rest headers
      end
  end.

Definition applyResponseHeaderReplacements (r : RecordingHTTPSProxy) (headers : Header)
  : outcome Header :=
  applyReplacements (ResponseHeaderReplacements (config r)) headers.

(** The URL of the upstream request. *)
Definition proxyURL (r : RecordingHTTPSProxy) (req : Http.Request) : string :=
  let url := "https://" +:+ TargetHost (config r) +:+ ":" +:+ Itoa (TargetPort (config r))
             +:+ Path req in
  if decide (RawQuery req <> EmptyString) then url +:+ "?" +:+ RawQuery req else url.

(** Copies every value of every header of [src] into [dst]. *)
Definition addHeaders (dst src : Header) : Header :=
  map_fold (fun name values acc => fold_left (fun acc value => Add acc name value) values acc)
           dst src.

Definition proxyRequest (r : RecordingHTTPSProxy) (w : ResponseWriter) (req : Http.Request)
    (env : Env) : ResponseWriter * outcome (result (Response * string)) :=
  let url := proxyURL r req in
  match Body req with
  | Err err => (w, Done (Err err))
  | Ok bodyBytes =>
      match NewRequestError env (Method req) url with
      | Some err => (w, Done (Err err))
      | None =>
          let proxyReq := {| CMethod := Method req; CURL := url;
                             CHeader := addHeaders ∅ (ReqHeader req); CBody := bodyBytes |} in
          match Do env proxyReq with
          | Err err => (w, Done (Err err))
          | Ok resp =>
              match applyResponseHeaderReplacements r (RHeader resp) with
              | Panic msg => (w, Panic msg)
              | Done header =>
                  let resp := {| RStatusCode := RStatusCode resp; RHeader := header;
                                 RBody := RBody resp |} in
                  let w := withHeader w (addHeaders (WHeader w) header) in
                  let w := WriteHeader w (RStatusCode resp) in
                  match RBody resp with
                  | Err err => (w, Done (Err err))
                  | Ok respBodyBytes =>
                      (* Send original (compressed) body to client *)
                      (Write w respBodyBytes, Done (Ok (resp, respBodyBytes)))
                  end
              end
          end
      end
  end.

Definition recordResponse (r : RecordingHTTPSProxy) (fs : Disk) (recReq : RecordedRequest)
    (resp : Response) (fileName shaSum body : string) (env : Env)
  : RecordingHTTPSProxy * Disk * result unit :=
  match NewRecordedResponse resp body with
  | Err err => (r, fs, Err err)
  | Ok recordedResponse =>
      (* the map holds the struct by value: recordFile is a copy of the entry *)
      let '(r, recordFile) :=
        match seenFiles r !! fileName with
        | Some recordFile => (r, recordFile)
        | None =>
            let entry := {| RecordID := fileName; Interactions := [] |} in
            (setSeenFiles r (<[fileName := entry]> (seenFiles r)), entry)
        end in
      let recordInteraction :=
        {| IRequest := recReq; ShaSum := shaSum; IResponse := recordedResponse |} in
      let recordFile :=
        {| RecordID := RecordID recordFile;
           Interactions := Interactions recordFile ++ [recordInteraction] |} in
      let recordPath := Join (recordingDir r) (fileName +:+ ".json") in
      (* Default to overwriting the file. *)
      match OpenFileError env recordPath with
      | Some err => (r, fs, Err err)
      | None =>
          let fs := <[recordPath := TruncatedFile]> fs in
          match MarshalIndentError env recordFile with
          | Some err => (r, fs, Err err)
          | None =>
              match WriteStringError env with
              | Some err => (r, fs, Err err)
              | None => (r, <[recordPath := JSONFile recordFile]> fs, Ok tt)
              end
          end
      end
  end.

(** The URL the upstream WebSocket is dialled at. *)
Definition websocketURL (r : RecordingHTTPSProxy) (req : Http.Request) : string :=
  let url := "wss://" +:+ TargetHost (config r) +:+ ":" +:+ Itoa (TargetPort (config r))
             +:+ Path req in
  if decide (RawQuery req <> EmptyString) then url +:+ "?" +:+ RawQuery req else url.

Definition excludedHeaders : list string :=
  ["Sec-Websocket-Version"; "Sec-Websocket-Key"; "Sec-Websocket-Extensions";
   "Connection"; "Upgrade"; "Test-Name"].

Definition upgradeConnectionToWebsocket (r : RecordingHTTPSProxy) (w : ResponseWriter)
    (req : Http.Request) (env : Env) : ResponseWriter * result unit :=
  let url := websocketURL r req in
  let dialHeaders :=
    selectNames (fun k => negb (bool_decide (k ∈ excludedHeaders))) (ReqHeader req) in
  match DialError env url dialHeaders with
  | Some err => (w, Err err)
  | None =>
      match UpgradeError env with
      | Some (status, reason) => (Error w reason status, Err reason)
      | None =>
          ({| WHeader := WHeader w; Sent := Sent w; Written := Written w; Hijacked := true |},
           Ok tt)
      end
  end.

(** What one pump does over its connection: the records it sends to the log
    writer, the messages it forwards to the peer, the lines it prints and the
    value it sends on [quit]. *)
Record PumpTrace : Type := {
  toLog : list string;
  toPeer : list (Z * string);
  printed : list string;
  quit : Z
}.

(** The body of the pump's loop for one message read: the record for the log
    and the bytes handed to [dst.WriteMessage]. *)
Definition pumpMessage (r : RecordingHTTPSProxy) (prepend buf : string) : string * string :=
  let buf := buf +:+ LF in
  let redactedBuf := redact_bytes (redactor r) buf in
  let prefix := prepend +:+ Itoa (Z.of_nat (String.length redactedBuf)) +:+ " " in
  (prefix +:+ redactedBuf, buf).

Fixpoint pumpFrames (r : RecordingHTTPSProxy) (prepend : string) (fs : list Frame)
    (unexpected : bool) : PumpTrace :=
  match fs with
  | [] =>
      if unexpected
      then {| toLog := []; toPeer := []; printed := []; quit := 0 |}
      else {| toLog := []; toPeer := [];
              printed := ["Error reading from websocket" +:+ LF]; quit := 1 |}
  | f :: rest =>
      let '(record, buf) := pumpMessage r prepend (payload f) in
      match writeError f with
      | Some err =>
          {| toLog := [record]; toPeer := [];
             printed := ["Error writing to websocket: " +:+ err +:+ LF]; quit := 1 |}
      | None =>
          let t := pumpFrames r prepend rest unexpected in
          {| toLog := record :: toLog t; toPeer := (msgType f, buf) :: toPeer t;
             printed := printed t; quit := quit t |}
      end
  end.

Definition pumpWebsocket (r : RecordingHTTPSProxy) (src : Reads) (prepend : string)
  : PumpTrace :=
  pumpFrames r prepend (frames src) (unexpectedClose src).

(** The order in which the records of the two pumps reach the log writer:
    [true] takes the next record of the first pump. *)
Fixpoint interleave (order : list bool) (a b : list string) : list string :=
  match order, a, b with
  | true :: order', x :: a', _ => x :: interleave order' a' b
  | false :: order', _, y :: b' => y :: interleave order' a b'
  | _ :: order', [], _ => b
  | _ :: order', _, [] => a
  | [], _, _ => a ++ b
  end.

(** The log writer's loop: appends each record to the file; a failed write
    panics. *)
Fixpoint writeRecords (env : Env) (n : nat) (records : list string) (written : string)
  : string * option string :=
  match records with
  | [] => (written, None)
  | buf :: rest =>
      match LogWriteError env n with
      | Some err =>
          (written, Some ("Error writing to websocket recording file: " +:+ err +:+ LF))
      | None => writeRecords env (S n) rest (written +:+ buf)
      end
  end.

Definition proxyWebsocket (r : RecordingHTTPSProxy) (fs : Disk) (w : ResponseWriter)
    (out : list string) (req : Http.Request) (fileName : string) (env : Env) : Outcome :=
  match upgradeConnectionToWebsocket r w req env with
  | (w, Err err) =>
      {| proxy := r; disk := fs;
         writer := Error w ("Error proxying websocket: " +:+ err) StatusInternalServerError;
         stdout := out; panicked := None |}
  | (w, Ok _) =>
      let client := pumpWebsocket r (clientReads env) ">" in
      let upstream := pumpWebsocket r (upstreamReads env) "<" in
      let recordPath := Join (recordingDir r) (fileName +:+ ".websocket.log") in
      match CreateError env recordPath with
      | Some err =>
          {| proxy := r; disk := fs;
             writer := Error w ("Error proxying websocket: " +:+ err) StatusInternalServerError;
             stdout := out ++ ["Error creating websocket recording file: " +:+ err +:+ LF];
             panicked := None |}
      | None =>
          let records := interleave (arrival env) (toLog client) (toLog upstream) in
          let '(written, failure) := writeRecords env 0 records EmptyString in
          {| proxy := r; disk := <[recordPath := LogFile written]> fs; writer := w;
             stdout := out ++ printed client ++ printed upstream;
             panicked := failure |}
      end
  end.

Definition handleRequest (r : RecordingHTTPSProxy) (fs : Disk) (w : ResponseWriter)
    (req : Http.Request) (env : Env) : Outcome :=
  if decide (Path req = Health (config r)) then
    {| proxy := r; disk := fs; writer := WriteHeader w StatusOK; stdout := [];
       panicked := None |}
  else
  let out := ["Recording request: " +:+ Method req +:+ " " +:+ URLString req +:+ LF] in
  match redactRequest r req with
  | Err err =>
      {| proxy := r; disk := fs;
         writer := Error w ("Error recording request: " +:+ err) StatusInternalServerError;
         stdout := out ++ ["Error recording request: " +:+ err +:+ LF]; panicked := None |}
  | Ok recReq =>
  match GetRecordingFileName recReq with
  | Err err =>
      {| proxy := r; disk := fs;
         writer := Error w ("Invalid recording file name: " +:+ err) StatusInternalServerError;
         stdout := out ++ ["Invalid recording file name: " +:+ err +:+ LF]; panicked := None |}
  | Ok fileName =>
  let recReq :=
    match seenFiles r !! fileName with
    | Some _ => recReq
    | None =>
        (* Reset to HeadSHA when first time seen a request from the given file. *)
        setPreviousRequest recReq HeadSHA
    end in
  if decide (Get (ReqHeader req) "Upgrade" = "websocket") then
    proxyWebsocket r fs w (out ++ ["Upgrading connection to websocket..." +:+ LF]) req fileName env
  else
  match proxyRequest r w req env with
  | (w, Panic msg) =>
      {| proxy := r; disk := fs; writer := w; stdout := out; panicked := Some msg |}
  | (w, Done (Err err)) =>
      {| proxy := r; disk := fs;
         writer := Error w ("Error proxying request: " +:+ err) StatusInternalServerError;
         stdout := out ++ ["Error proxying request: " +:+ err +:+ LF]; panicked := None |}
  | (w, Done (Ok (resp, respBody))) =>
  let shaSum := ComputeSum recReq in
  match recordResponse r fs recReq resp fileName shaSum respBody env with
  | (r, fs, Err err) =>
      {| proxy := r; disk := fs;
         writer := Error w ("Error recording response: " +:+ err) StatusInternalServerError;
         stdout := out ++ ["Error recording response: " +:+ err +:+ LF]; panicked := None |}
  | (r, fs, Ok _) =>
      let r := if decide (fileName <> shaSum) then setPrevRequestSHA r shaSum else r in
      {| proxy := r; disk := fs; writer := w; stdout := out; panicked := None |}
  end end end end.

(** The request as the handler fingerprints it: its previous request is reset
    when the file name was not seen. *)
Definition chained (r : RecordingHTTPSProxy) (fileName : string) (q : RecordedRequest)
  : RecordedRequest :=
  match seenFiles r !! fileName with
  | Some _ => q
  | None => setPreviousRequest q HeadSHA
  end.

(** The entry of the map the interaction is appended to: a copy of the one
    seen, or the empty one made for a new name. *)
Definition entryOf (r : RecordingHTTPSProxy) (fileName : string) : RecordFile :=
  default {| RecordID := fileName; Interactions := [] |} (seenFiles r !! fileName).

(** The proxy after a recording: the file name is in its map, with an entry
    that holds no interaction when the name is new. *)
Definition withEntry (r : RecordingHTTPSProxy) (fileName : string) : RecordingHTTPSProxy :=
  match seenFiles r !! fileName with
  | Some _ => r
  | None => setSeenFiles r (<[fileName := {| RecordID := fileName; Interactions := [] |}]>
                               (seenFiles r))
  end.

(** Every entry of the proxy's map holds no interaction. *)
Definition entriesEmpty (r : RecordingHTTPSProxy) : Prop :=
  forall name rf, seenFiles r !! name = Some rf -> Interactions rf = [].

(** Every JSON artifact on disk holds exactly one interaction. *)
Definition singleInteraction (fs : Disk) : Prop :=
  forall path rf, fs !! path = Some (JSONFile rf) -> length (Interactions rf) = 1%nat.

(** The proxy serving the requests of a run one after the other, each with a
    fresh response writer. *)
Fixpoint serve (r : RecordingHTTPSProxy) (fs : Disk) (reqs : list (Http.Request * Env))
  : RecordingHTTPSProxy * Disk :=
  match reqs with
  | [] => (r, fs)
  | (req, env) :: rest =>
      let o := handleRequest r fs newResponseWriter req env in
      serve (proxy o) (disk o) rest
  end.

End Proxy.

End Recording.

(** ** SHA-256 (Go's [crypto/sha256]), on 32-bit words held in [Z] *)

Module SHA256.

Definition w32 (x : Z) : Z := Z.land x 4294967295.

Definition add32 (x y : Z) : Z := w32 (x + y).

Definition rotr (n x : Z) : Z := Z.lor (Z.shiftr x n) (w32 (Z.shiftl x (32 - n))).

Definition Ch (x y z : Z) : Z := Z.lxor (Z.land x y) (Z.land (Z.lxor x 4294967295) z).
Definition Maj (x y z : Z) : Z := Z.lxor (Z.lxor (Z.land x y) (Z.land x z)) (Z.land y z).
Definition Sigma0 (x : Z) : Z := Z.lxor (Z.lxor (rotr 2 x) (rotr 13 x)) (rotr 22 x).
Definition Sigma1 (x : Z) : Z := Z.lxor (Z.lxor (rotr 6 x) (rotr 11 x)) (rotr 25 x).
Definition sigma0 (x : Z) : Z := Z.lxor (Z.lxor (rotr 7 x) (rotr 18 x)) (Z.shiftr x 3).
Definition sigma1 (x : Z) : Z := Z.lxor (Z.lxor (rotr 17 x) (rotr 19 x)) (Z.shiftr x 10).

(** The first primes, by trial division. *)
Definition isPrime (n : Z) : bool :=
  forallb (fun d => negb (n mod d =? 0)) (seqZ 2 (n - 2)).

Definition primes (count : nat) : list Z := take count (filter (fun n => isPrime n) (seqZ 2 310)).

(** The integer cube root, one bit after the other from bit [bits - 1] down. *)
Fixpoint cubeRoot (bits : nat) (n root : Z) : Z :=
  match bits with
  | O => root
  | S b =>
      let candidate := root + 2 ^ Z.of_nat b in
      cubeRoot b n (if candidate * candidate * candidate <=? n then candidate else root)
  end.

(** The round constants: the first 32 bits of the fractional parts of the cube
    roots of the first 64 primes. *)
Definition K : list Z :=
  Eval vm_compute in (fun p => w32 (cubeRoot 40 (p * 2 ^ 96) 0)) <$> primes 64.

(** The initial hash value: the first 32 bits of the fractional parts of the
    square roots of the first 8 primes. *)
Definition H0 : list Z :=
  Eval vm_compute in (fun p => w32 (Z.sqrt (p * 2 ^ 64))) <$> primes 8.

Definition bytes (s : string) : list Z := (fun c => Z.of_N (N_of_ascii c)) <$> chars s.

(** The message followed by the byte 0x80, zeros up to 56 modulo 64, and its
    length in bits as 8 big-endian bytes. *)
Definition padding (len : Z) : list Z :=
  let zeros := (55 - len) mod 64 in
  let bits := 8 * len in
  128 :: replicate (Z.to_nat zeros) 0
      ++ ((fun i => Z.land (Z.shiftr bits (8 * (7 - Z.of_nat i))) 255) <$> seq 0 8).

Fixpoint words (n : nat) (bs : list Z) : list Z :=
  match n, bs with
  | S n', b0 :: b1 :: b2 :: b3 :: rest =>
      (Z.shiftl b0 24 + Z.shiftl b1 16 + Z.shiftl b2 8 + b3) :: words n' rest
  | _, _ => []
  end.

(** The message schedule, latest word first. *)
Fixpoint schedule (n : nat) (w : list Z) : list Z :=
  match n with
  | O => w
  | S n' =>
      let at_ i := nth i w 0 in
      schedule n'
        (add32 (add32 (sigma1 (at_ 1%nat)) (at_ 6%nat)) (add32 (sigma0 (at_ 14%nat)) (at_ 15%nat))
         :: w)
  end.

Definition round (st : list Z) (kw : Z * Z) : list Z :=
  match st with
  | [a; b; c; d; e; f; g; h] =>
      let t1 := add32 (add32 (add32 h (Sigma1 e)) (add32 (Ch e f g) kw.1)) kw.2 in
      let t2 := add32 (Sigma0 a) (Maj a b c) in
      [add32 t1 t2; a; b; c; add32 d t1; e; f; g]
  | _ => st
  end.

Definition compress (st : list Z) (block : list Z) : list Z :=
  let w := rev (schedule 48 (rev (words 16 block))) in
  zip_with add32 st (fold_left round (zip K w) st).

Fixpoint blocks (n : nat) (st : list Z) (bs : list Z) : list Z :=
  match n with
  | O => st
  | S n' => blocks n' (compress st (take 64 bs)) (drop 64 bs)
  end.

Definition digest (s : string) : list Z :=
  let msg := bytes s in
  let padded := msg ++ padding (Z.of_nat (length msg)) in
  blocks (length padded / 64) H0 padded.

Definition hexDigit (n : Z) : ascii :=
  nth (Z.to_nat n) (chars "0123456789abcdef") "0"%char.

Fixpoint hexWord (digits : nat) (x : Z) (acc : string) : string :=
  match digits with
  | O => acc
  | S d => hexWord d (Z.shiftr x 4) (String (hexDigit (Z.land x 15)) acc)
  end.

(** [hex.EncodeToString] of the digest. *)
Definition Sum256Hex (s : string) : string :=
  fold_right (fun x acc => hexWord 8 x acc) EmptyString (digest s).

End SHA256.

(** ** The canonical form and the fingerprint (package [internal/store]) *)

Module StoreSpec.

Import Http Store.

(** [strings.Split s "\n"]. *)
Fixpoint lines (s : string) : list string :=
  match s with
  | EmptyString => [EmptyString]
  | String c s' =>
      if decide (c = "010"%char) then EmptyString :: lines s'
      else match lines s' with
           | l :: ls => String c l :: ls
           | [] => [String c EmptyString]
           end
  end.

(** [strings.Join ls "\n"]. *)
Fixpoint unlines (ls : list string) : string :=
  match ls with
  | [] => EmptyString
  | [l] => l
  | l :: ls' => l +:+ LF +:+ unlines ls'
  end.

(** The hard separator: exactly 80 asterisks. *)
Definition separator : string :=
  "********************************************************************************".

(** The header names in ascending byte order. *)
Definition sortedNames (h : Header) : list string :=
  merge_sort String.le (fst <$> map_to_list h).

(** One pair per header value: names ascending, the values of a name in their
    order. *)
Definition headerPairs (h : Header) : list (string * string) :=
  name ← sortedNames h; (fun value => (name, value)) <$> default [] (h !! name).

Definition headerLine (p : string * string) : string := p.1 +:+ ": " +:+ p.2.

(** Modelled from the spec: [RecordedRequest.Serialize], whose source is
    missing; its test is [TestRecordedRequest_Serialize].
    The previous fingerprint, the three prefixed fields, the separator line,
    the request line, one line per header value, two newlines, the raw body. *)
Definition Serialize (q : RecordedRequest) : string :=
  PreviousRequest q +:+ LF +:+
  "Server Address: " +:+ ServerAddress q +:+ LF +:+
  "Port: " +:+ Itoa (Port q) +:+ LF +:+
  "Protocol: " +:+ Protocol q +:+ LF +:+
  separator +:+ LF +:+
  Request q +:+ LF +:+
  fold_right (fun p acc => headerLine p +:+ LF +:+ acc) (LF +:+ LF +:+ RawBody q)
             (headerPairs (Headers q)).

(** The lines before and after the first line that is the separator. *)
Fixpoint splitAtSeparator (ls : list string) : option (list string * list string) :=
  match ls with
  | [] => None
  | l :: ls' =>
      if decide (l = separator) then Some ([], ls')
      else match splitAtSeparator ls' with
           | Some (pre, post) => Some (l :: pre, post)
           | None => None
           end
  end.

(** The fields of the preamble, recognised by their prefixes. *)
Fixpoint parseFields (ls : list string) (q : RecordedRequest) : result RecordedRequest :=
  match ls with
  | [] => Ok q
  | l :: ls' =>
      match strip_prefix "Server Address: " l with
      | Some address =>
          parseFields ls'
            {| Request := Request q; Headers := Headers q; RawBody := RawBody q;
               BodySegments := BodySegments q; PreviousRequest := PreviousRequest q;
               ServerAddress := address; Port := Port q; Protocol := Protocol q |}
      | None =>
      match strip_prefix "Port: " l with
      | Some text =>
          match Atoi text with
          | Some port =>
              parseFields ls'
                {| Request := Request q; Headers := Headers q; RawBody := RawBody q;
                   BodySegments := BodySegments q; PreviousRequest := PreviousRequest q;
                   ServerAddress := ServerAddress q; Port := port; Protocol := Protocol q |}
          | None => Err ("invalid port: " +:+ text)
          end
      | None =>
      match strip_prefix "Protocol: " l with
      | Some protocol =>
          parseFields ls'
            {| Request := Request q; Headers := Headers q; RawBody := RawBody q;
               BodySegments := BodySegments q; PreviousRequest := PreviousRequest q;
               ServerAddress := ServerAddress q; Port := Port q; Protocol := protocol |}
      | None => parseFields ls' q
      end end end
  end.

(** The header lines up to the first blank line, and the lines from the blank
    line on. *)
Fixpoint splitAtBlank (ls : list string) : list string * list string :=
  match ls with
  | [] => ([], [])
  | l :: ls' =>
      if decide (l = EmptyString) then ([], ls)
      else let '(hs, rest) := splitAtBlank ls' in (l :: hs, rest)
  end.

Definition addHeaderLine (h : Header) (l : string) : Header :=
  match Cut l ": " with
  | Some (name, value) => <[name := default [] (h !! name) ++ [value]]> h
  | None => h
  end.

(** Modelled from the spec: [store.Deserialize], whose source is missing;
    its test is [TestRecordedRequest_Deserialize].  Splits on
    the first separator line, reads the preamble by its prefixes, reads header
    lines until a blank line; what follows the two newlines is the body. *)
Definition Deserialize (data : string) : result RecordedRequest :=
  match splitAtSeparator (lines data) with
  | None => Err "invalid serialized form: separator missing"
  | Some (pre, post) =>
      let q := {| Request := hd EmptyString post; Headers := ∅; RawBody := EmptyString;
                  BodySegments := []; PreviousRequest := hd EmptyString pre;
                  ServerAddress := EmptyString; Port := 0; Protocol := EmptyString |} in
      match parseFields (tl pre) q with
      | Err err => Err err
      | Ok q =>
          let '(hs, rest) := splitAtBlank (tl post) in
          Ok {| Request := Request q; Headers := fold_left addHeaderLine hs ∅;
                RawBody := unlines (drop 2 rest);
                BodySegments := []; PreviousRequest := PreviousRequest q;
                ServerAddress := ServerAddress q; Port := Port q; Protocol := Protocol q |}
      end
  end.

(** A string that fits on one line. *)
Definition oneLine (s : string) : Prop := "010"%char ∉ chars s.

(** A serialized request as the spec describes a well-formed one: the
    separator line, before it the previous request and the fields with their
    prefixes, the port in base 10, after it the request line and header lines
    up to a blank line, then the body. *)
Definition wellFormed (x : string) : Prop :=
  exists (prev address port protocol line : string) (headers : list (string * string))
         (body : string),
    Forall oneLine [prev; address; port; protocol; line] /\
    Forall (fun p => oneLine p.1 /\ oneLine p.2) headers /\
    is_Some (Atoi port) /\
    x = prev +:+ LF +:+
        "Server Address: " +:+ address +:+ LF +:+
        "Port: " +:+ port +:+ LF +:+
        "Protocol: " +:+ protocol +:+ LF +:+
        separator +:+ LF +:+
        line +:+ LF +:+
        fold_right (fun p acc => headerLine p +:+ LF +:+ acc) (LF +:+ LF +:+ body) headers.

(** A recorded request in the form [Serialize] keeps apart: every field on
    its own line, the previous request not the separator, the port an [int],
    header names without colon, every header with a value. *)
Definition canonical (q : RecordedRequest) : Prop :=
  Forall oneLine [PreviousRequest q; ServerAddress q; Protocol q; Request q] /\
  PreviousRequest q <> separator /\
  int_min <= Port q <= int_max /\
  Forall (fun kv : string * list string =>
            oneLine kv.1 /\ (":"%char ∉ chars kv.1) /\ kv.2 <> [] /\ Forall oneLine kv.2)
         (map_to_list (Headers q)).

#[global] Instance canonical_dec (q : RecordedRequest) : Decision (canonical q).
Proof. unfold canonical, oneLine. apply _. Defined.

(** Modelled from the spec: [RecordedRequest.ComputeSum], the hex SHA-256 of
    the canonical form. *)
Definition ComputeSum (q : RecordedRequest) : string := SHA256.Sum256Hex (Serialize q).

(** Modelled from the spec: [RecordedRequest.GetRecordingFileName], the
    fingerprint computed with the previous request forced to [HeadSHA]. *)
Definition GetRecordingFileName (q : RecordedRequest) : result string :=
  Ok (ComputeSum (setPreviousRequest q HeadSHA)).

(** [encoding/json]'s decoder, which the segmentation of a body calls. *)
Class JSONAPI : Type := { Unmarshal : string -> option Any }.

(** Modelled from the spec: one body segment decoded as a JSON object, else as
    a JSON array under the key [_array], else kept as text under [_text]. *)
Definition decodeSegment `{JSONAPI} (segment : string) : list (string * Any) :=
  match Unmarshal segment with
  | Some (AObject members) => members
  | Some (AArray elems) => [("_array", AArray elems)]
  | _ => [("_text", AString segment)]
  end.

(** Modelled from the spec: [store.NewRecordedRequest].  Fails when the body
    cannot be read. *)
Definition NewRecordedRequest `{JSONAPI} (req : Http.Request) (prevRequestSHA : string)
    (cfg : EndpointConfig) : result RecordedRequest :=
  match Body req with
  | Err err => Err err
  | Ok body =>
      Ok {| Request := Method req +:+ " " +:+ URLString req +:+ " HTTP/1.1";
            Headers := ReqHeader req;
            RawBody := body;
            BodySegments :=
              decodeSegment <$> filter (fun l => l <> EmptyString)
                                       (if decide (body = EmptyString) then [] else lines body);
            PreviousRequest := prevRequestSHA;
            ServerAddress := TargetHost cfg;
            Port := TargetPort cfg;
            Protocol := TargetType cfg |}
  end.

Definition lowerAscii (c : ascii) : ascii :=
  let n := N_of_ascii c in
  if decide (65 <= n <= 90)%N then ascii_of_N (n + 32) else c.

Fixpoint toLower (s : string) : string :=
  match s with
  | EmptyString => EmptyString
  | String c s' => String (lowerAscii c) (toLower s')
  end.

(** Modelled from the spec: [RecordedRequest.RedactHeaders] removes the named
    headers, whatever the case of the names; its test is
    [TestRecordedRequest_RedactHeaders]. *)
Definition RedactHeaders (q : RecordedRequest) (names : list string) : RecordedRequest :=
  setHeaders q (selectNames (fun name => negb (bool_decide (toLower name ∈ toLower <$> names)))
                            (Headers q)).

(** Modelled from the spec: [store.NewRecordedResponse], the status, the
    headers after the rewrite and the raw body. *)
Definition NewRecordedResponse (resp : Http.Response) (body : string) : result RecordedResponse :=
  Ok {| StatusCode := RStatusCode resp; RespHeader := RHeader resp; RespBody := body |}.

#[export] Instance storeAPI `{JSONAPI} : StoreAPI := {|
  Store.NewRecordedRequest := NewRecordedRequest;
  Store.RedactHeaders := RedactHeaders;
  Store.GetRecordingFileName := GetRecordingFileName;
  Store.ComputeSum := ComputeSum;
  Store.NewRecordedResponse := NewRecordedResponse
|}.

End StoreSpec.

(** ** Stand-ins for the libraries, for closed examples *)

Module Examples.

(** A decoder that accepts nothing: every segment is kept as text. *)
Definition textOnly : StoreSpec.JSONAPI := {| StoreSpec.Unmarshal := fun _ => None |}.

(** Patterns without metacharacters, matched literally; a pattern with an
    unclosed parenthesis is not valid syntax. *)
Definition literalRegexp : Recording.RegexpAPI := {|
  Recording.Regexp := string;
  Recording.Compile := fun pattern =>
    if occurs "(" pattern then None else Some pattern;
  Recording.ReplaceAllString := fun re src repl =>
    if decide (re = EmptyString) then src else ReplaceAll src re repl
|}.

(** The requests and texts of the store's tests. *)
Definition request (line : string) (h : Header) (body prev : string) : Store.RecordedRequest :=
  {| Store.Request := line; Store.Headers := h; Store.RawBody := body;
     Store.BodySegments := []; Store.PreviousRequest := prev;
     Store.ServerAddress := EmptyString; Store.Port := 0; Store.Protocol := EmptyString |}.

(** The body of the tests: an object with one member, in JSON. *)
Definition keyValue : string :=
  "{" +:+ dquote +:+ "key" +:+ dquote +:+ ": " +:+ dquote +:+ "value" +:+ dquote +:+ "}".

Definition sha1to32 : string :=
  "0102030405060708090a0b0c0d0e0f101112131415161718191a1b1c1d1e1f20".

Definition validInput (port : string) : string :=
  StoreSpec.unlines [sha1to32; "Server Address: example.com"; "Port: " +:+ port; "Protocol: http";
           StoreSpec.separator; "GET / HTTP/1.1"; "Accept: application/xml";
           "Content-Type: application/json"; EmptyString; EmptyString; keyValue].

(** An endpoint in front of [example.com], with one header rewrite. *)
Definition endpoint (targetType : string) (replacements : list HeaderReplacement)
  : EndpointConfig :=
  {| SourcePort := 8080; TargetHost := "example.com"; TargetPort := 443;
     TargetType := targetType; Health := "/healthz";
     RedactRequestHeaders := ["Authorization"];
     ResponseHeaderReplacements := replacements |}.

(** The same endpoint with other header names to drop from the recording. *)
Definition dropping (names : list string) (cfg : EndpointConfig) : EndpointConfig :=
  {| SourcePort := SourcePort cfg; TargetHost := TargetHost cfg; TargetPort := TargetPort cfg;
     TargetType := TargetType cfg; Health := Health cfg;
     RedactRequestHeaders := names;
     ResponseHeaderReplacements := ResponseHeaderReplacements cfg |}.

Definition cookieRewrite (regex : string) : HeaderReplacement :=
  {| Header_ := "Set-Cookie"; Regex := regex; Replace := "sessionid=X" |}.

(** A proxy as [Record] starts it. *)
Definition freshProxy (cfg : EndpointConfig) : Recording.RecordingHTTPSProxy :=
  Recording.NewRecordingHTTPSProxy cfg "recordings" (NewRedact ["secret"]).

Definition get (path : string) (h : Header) : Http.Request :=
  {| Http.Method := "GET"; Http.Scheme := EmptyString; Http.Host := EmptyString;
     Http.Path := path; Http.RawQuery := EmptyString;
     Http.ReqHeader := h; Http.Body := Ok EmptyString |}.

Definition okResponse (h : Header) : Http.Response :=
  {| Http.RStatusCode := 200; Http.RHeader := h; Http.RBody := Ok "{ok}" |}.

Definition noFrames : Recording.Reads :=
  {| Recording.frames := []; Recording.unexpectedClose := true |}.

(** A world in which the upstream answers every request with [resp], and the
    file system calls fail as [openError] and [writeError] say. *)
Definition world (resp : result Http.Response) (openError writeError : option string)
  : Recording.Env :=
  {| Recording.NewRequestError := fun _ _ => None;
     Recording.Do := fun _ => resp;
     Recording.OpenFileError := fun _ => openError;
     Recording.MarshalIndentError := fun _ => None;
     Recording.WriteStringError := writeError;
     Recording.DialError := fun _ _ => None;
     Recording.UpgradeError := None;
     Recording.CreateError := fun _ => None;
     Recording.clientReads := noFrames;
     Recording.upstreamReads := noFrames;
     Recording.arrival := [];
     Recording.LogWriteError := fun _ => None |}.

(** A WebSocket session: the client sends one text frame, the upstream echoes
    it, and both sides close. *)
Definition textFrame (bytes : string) : Recording.Frame :=
  {| Recording.msgType := 1; Recording.payload := bytes; Recording.writeError := None |}.

Definition echoSession (bytes : string) : Recording.Env :=
  {| Recording.NewRequestError := fun _ _ => None;
     Recording.Do := fun _ => Err "unused";
     Recording.OpenFileError := fun _ => None;
     Recording.MarshalIndentError := fun _ => None;
     Recording.WriteStringError := None;
     Recording.DialError := fun _ _ => None;
     Recording.UpgradeError := None;
     Recording.CreateError := fun _ => None;
     Recording.clientReads :=
       {| Recording.frames := [textFrame bytes]; Recording.unexpectedClose := true |};
     Recording.upstreamReads :=
       {| Recording.frames := [textFrame bytes]; Recording.unexpectedClose := true |};
     Recording.arrival := [true; false];
     Recording.LogWriteError := fun _ => None |}.

Definition upgradeHeader : Header := {[ "Upgrade" := ["websocket"] ]}.

End Examples.

(** * Properties *)

(** ** Go strings: checks against the library's documented behaviour *)

Example Itoa_15 : Itoa 15 = "15".
Proof. reflexivity. Qed.

Example Itoa_0 : Itoa 0 = "0".
Proof. reflexivity. Qed.

Example Itoa_neg : Itoa (-42) = "-42".
Proof. reflexivity. Qed.

Example Atoi_8080 : Atoi "8080" = Some 8080.
Proof. reflexivity. Qed.

Example Atoi_leading : Atoi "007" = Some 7.
Proof. reflexivity. Qed.

Example Atoi_invalid : Atoi "invalid" = None.
Proof. reflexivity. Qed.

Example ReplaceAll_ex : ReplaceAll "GET /path/abc?token=abc" "abc" "REDACTED" = "GET /path/REDACTED?token=REDACTED".
Proof. reflexivity. Qed.

Example ReplaceAll_overlap : ReplaceAll "aaa" "aa" "b" = "ba".
Proof. reflexivity. Qed.

Example redact_request_line :
  redact_string (NewRedact ["abc"; "123"]) "GET /path/abc?token=123 HTTP/1.1"
  = "GET /path/REDACTED?token=REDACTED HTTP/1.1".
Proof. reflexivity. Qed.

Example redact_empty_secret :
  redact_string (NewRedact [EmptyString; "abc"]) "GET /path/abc HTTP/1.1" = "GET /path/REDACTED HTTP/1.1".
Proof. reflexivity. Qed.

Example redact_headers_ex :
  redact_headers (NewRedact ["secret_token_123"])
    {[ "Authorization" := ["Bearer secret_token_123"] ]}
  = {[ "Authorization" := ["Bearer REDACTED"] ]}.
Proof. vm_compute. reflexivity. Qed.

(** TestRecordedRequest_Redact, "Redact multiple secrets": the request line,
    the header and the body.  On the body the two readings differ: applied in
    list order, [123] is replaced inside [password123] before [password123] is
    looked for; the test expects what the single pass gives. *)
Example redact_multiple_secrets :
  let r := NewRedact ["abc"; "123"; "key_value_xyz"; "password123"] in
  redact_string r "GET /path/abc?token=123 HTTP/1.1"
    = "GET /path/REDACTED?token=REDACTED HTTP/1.1" /\
  redact_headers r {[ "X-Api-Key" := ["key_value_xyz"] ]} = {[ "X-Api-Key" := ["REDACTED"] ]} /\
  redact_bytes r "user=test&password=password123" = "user=test&password=passwordREDACTED" /\
  scan_string r "GET /path/abc?token=123 HTTP/1.1"
    = "GET /path/REDACTED?token=REDACTED HTTP/1.1" /\
  scan_string r "user=test&password=password123" = "user=test&password=REDACTED".
Proof. cbv zeta. repeat apply conj; vm_compute; reflexivity. Qed.

Example redact_twice_differs :
  redact_string (NewRedact ["E"]) "E" = "REDACTED" /\
  redact_string (NewRedact ["E"]) "REDACTED" = "RREDACTEDDACTREDACTEDD".
Proof. split; reflexivity. Qed.

(** ** Go strings: prefixes, occurrences and replacement *)

Section StringFacts.

Lemma str_app_nil_l (s : string) : EmptyString +:+ s = s.
Proof. reflexivity. Qed.

Lemma str_app_cons (c : ascii) (s t : string) : String c s +:+ t = String c (s +:+ t).
Proof. reflexivity. Qed.

Lemma str_app_empty_r (s : string) : s +:+ EmptyString = s.
Proof. induction s as [|c s IH]; [reflexivity | now rewrite str_app_cons, IH]. Qed.

Lemma str_app_assoc (a b c : string) : (a +:+ b) +:+ c = a +:+ (b +:+ c).
Proof. induction a as [|x a IH]; [reflexivity | now rewrite !str_app_cons, IH]. Qed.

Lemma str_length_app (a b : string) :
  String.length (a +:+ b) = (String.length a + String.length b)%nat.
Proof. induction a as [|x a IH]; [reflexivity | rewrite str_app_cons; simpl; now rewrite IH]. Qed.

Lemma chars_app (a b : string) : chars (a +:+ b) = chars a ++ chars b.
Proof. induction a as [|x a IH]; [reflexivity | rewrite str_app_cons; simpl; now rewrite IH]. Qed.

Lemma strip_prefix_app (p r : string) : strip_prefix p (p +:+ r) = Some r.
Proof.
  induction p as [|a p IH]; [reflexivity|].
  rewrite str_app_cons. simpl. destruct (decide (a = a)); [exact IH | congruence].
Qed.

Lemma strip_prefix_Some (p s r : string) : strip_prefix p s = Some r -> s = p +:+ r.
Proof.
  revert s; induction p as [|a p IH]; intros s H; simpl in *.
  - injection H as ->. reflexivity.
  - destruct s as [|b s]; [discriminate|].
    destruct (decide (a = b)) as [->|]; [|discriminate].
    rewrite str_app_cons. f_equal. now apply IH.
Qed.

Lemma has_prefix_true (p s : string) :
  has_prefix p s = true <-> exists r, s = p +:+ r.
Proof.
  unfold has_prefix. split.
  - destruct (strip_prefix p s) as [r|] eqn:E; [|discriminate].
    intros _. exists r. now apply strip_prefix_Some.
  - intros [r ->]. now rewrite strip_prefix_app.
Qed.

Lemma has_prefix_cons (a b : ascii) (p s : string) :
  has_prefix (String a p) (String b s) = true <-> a = b /\ has_prefix p s = true.
Proof.
  unfold has_prefix; simpl. destruct (decide (a = b)); split; intros H;
    try tauto; try discriminate.
Qed.

Lemma has_prefix_empty (s : string) : has_prefix EmptyString s = true.
Proof. reflexivity. Qed.

Lemma occurs_cons (t : string) (c : ascii) (s : string) :
  occurs t (String c s) = has_prefix t (String c s) || occurs t s.
Proof. reflexivity. Qed.

Lemma occurs_false_cons (t : string) (c : ascii) (s : string) :
  occurs t (String c s) = false -> has_prefix t (String c s) = false /\ occurs t s = false.
Proof. rewrite occurs_cons. now apply orb_false_elim. Qed.

Lemma occurs_false_app (t a s : string) : occurs t (a +:+ s) = false -> occurs t s = false.
Proof.
  induction a as [|c a IH]; [tauto|].
  rewrite str_app_cons. intros H. apply occurs_false_cons in H as [_ H]. now apply IH.
Qed.

Variables old new : string.
Hypothesis old_nonempty : old <> EmptyString.

Lemma replace_go_skip (p r : string) :
  replace_go old new (String.length p) (p +:+ r) = replace_go old new 0 r.
Proof. induction p as [|a p IH]; [reflexivity | rewrite str_app_cons; exact IH]. Qed.

Lemma ReplaceAll_empty : ReplaceAll EmptyString old new = EmptyString.
Proof. reflexivity. Qed.

Lemma ReplaceAll_match (rest : string) :
  ReplaceAll (old +:+ rest) old new = new +:+ ReplaceAll rest old new.
Proof.
  unfold ReplaceAll. destruct old as [|a o] eqn:E; [congruence|].
  rewrite str_app_cons. cbn [replace_go].
  replace (has_prefix (String a o) (String a (o +:+ rest))) with true.
  - cbn [String.length Nat.pred]. rewrite <- E. now rewrite replace_go_skip.
  - symmetry. apply has_prefix_true. now exists rest.
Qed.

Lemma ReplaceAll_skip (c : ascii) (s : string) :
  has_prefix old (String c s) = false ->
  ReplaceAll (String c s) old new = String c (ReplaceAll s old new).
Proof. unfold ReplaceAll. cbn [replace_go]. now intros ->. Qed.

(** Induction along the scan of [ReplaceAll]. *)
Lemma ReplaceAll_ind (P : string -> Prop) :
  P EmptyString ->
  (forall rest, P rest -> P (old +:+ rest)) ->
  (forall c s, has_prefix old (String c s) = false -> P s -> P (String c s)) ->
  forall s, P s.
Proof.
  intros H0 Hm Hs s.
  remember (String.length s) as n eqn:Hn.
  revert s Hn. induction n as [n IH] using lt_wf_ind. intros s Hn.
  destruct s as [|c s]; [exact H0|].
  destruct (has_prefix old (String c s)) eqn:E.
  - apply has_prefix_true in E as [rest E]. rewrite E. apply Hm.
    apply (IH (String.length rest)); [|reflexivity].
    subst n. rewrite E. destruct old as [|a o]; [congruence|].
    rewrite str_app_cons. simpl. rewrite str_length_app. lia.
  - apply Hs; [exact E|]. apply (IH (String.length s)); [|reflexivity].
    subst n. simpl. lia.
Qed.

(** A string in which [old] does not occur is left as it is. *)
Lemma ReplaceAll_absent (s : string) : occurs old s = false -> ReplaceAll s old new = s.
Proof.
  induction s as [|c s IH]; [reflexivity|].
  intros H. apply occurs_false_cons in H as [Hp Ho].
  rewrite ReplaceAll_skip by exact Hp. now rewrite IH.
Qed.

Hypothesis new_nonempty : new <> EmptyString.

(** A string without a byte of [new] that starts the rewritten text started
    the original text. *)
Lemma has_prefix_ReplaceAll (t s : string) :
  (forall c, In c (chars t) -> ~ In c (chars new)) ->
  has_prefix t (ReplaceAll s old new) = true -> has_prefix t s = true.
Proof.
  revert t. induction s as [| rest IH | c s Hp IH] using ReplaceAll_ind; intros t Ht.
  - rewrite ReplaceAll_empty. tauto.
  - rewrite ReplaceAll_match. destruct t as [|a t]; [reflexivity|].
    destruct new as [|n nw] eqn:E; [congruence|]. rewrite str_app_cons.
    intros H. apply has_prefix_cons in H as [-> _].
    exfalso. apply (Ht n); simpl; auto.
  - rewrite ReplaceAll_skip by exact Hp. destruct t as [|a t]; [reflexivity|].
    intros H. apply has_prefix_cons in H as [-> H].
    apply has_prefix_cons. split; [reflexivity|]. apply IH; [|exact H].
    intros x Hx. apply Ht. simpl; auto.
Qed.

Lemma occurs_app_token (a : ascii) (t tok y : string) :
  ~ In a (chars tok) -> occurs (String a t) (tok +:+ y) = occurs (String a t) y.
Proof.
  induction tok as [|n nw IH]; [reflexivity|].
  intros Hn. rewrite str_app_cons, occurs_cons. simpl in Hn. rewrite IH by tauto.
  replace (has_prefix (String a t) (String n (nw +:+ y))) with false; [reflexivity|].
  symmetry. apply not_true_is_false. intros H. apply has_prefix_cons in H as [-> _]. tauto.
Qed.

(** Replacement creates no occurrence of a string that shares no byte with
    [new]. *)
Lemma occurs_ReplaceAll_other (t s : string) :
  t <> EmptyString ->
  (forall c, In c (chars t) -> ~ In c (chars new)) ->
  occurs t s = false -> occurs t (ReplaceAll s old new) = false.
Proof.
  intros Hne Ht. induction s as [| rest IH | c s Hp IH] using ReplaceAll_ind; intros H.
  - exact H.
  - rewrite ReplaceAll_match. destruct t as [|a t]; [congruence|].
    rewrite occurs_app_token by (apply Ht; simpl; auto).
    apply IH. eapply occurs_false_app, H.
  - rewrite ReplaceAll_skip by exact Hp.
    apply occurs_false_cons in H as [H1 H2].
    rewrite occurs_cons. apply orb_false_intro; [|now apply IH].
    apply not_true_is_false. intros E.
    rewrite <- (ReplaceAll_skip c s Hp) in E.
    apply has_prefix_ReplaceAll in E; [congruence | exact Ht].
Qed.

(** After replacement [old] no longer occurs, when it shares no byte with
    [new]. *)
Lemma occurs_ReplaceAll_self (s : string) :
  (forall c, In c (chars old) -> ~ In c (chars new)) ->
  occurs old (ReplaceAll s old new) = false.
Proof.
  intros Ht. induction s as [| rest IH | c s Hp IH] using ReplaceAll_ind.
  - rewrite ReplaceAll_empty. simpl. unfold has_prefix.
    destruct old; [congruence | reflexivity].
  - rewrite ReplaceAll_match. destruct old as [|a o] eqn:E; [congruence|].
    rewrite occurs_app_token by (apply Ht; simpl; auto). exact IH.
  - rewrite ReplaceAll_skip by exact Hp.
    rewrite occurs_cons. apply orb_false_intro; [|exact IH].
    apply not_true_is_false. intros E.
    rewrite <- (ReplaceAll_skip c s Hp) in E.
    apply has_prefix_ReplaceAll in E; [congruence | exact Ht].
Qed.

End StringFacts.

(** ** The redactor *)

Section RedactFacts.

Variable r : Redact.

Lemma REDACTED_nonempty : REDACTED <> EmptyString.
Proof. discriminate. Qed.

Lemma redact_string_snoc (S : list string) (secret x : string) :
  fold_left redact_secret (S ++ [secret]) x = redact_secret (fold_left redact_secret S x) secret.
Proof. now rewrite fold_left_app. Qed.

(** One step of redaction keeps a clean value clean. *)
Lemma redact_secret_keeps (t secret acc : string) :
  t <> EmptyString ->
  (forall c, In c (chars t) -> ~ In c (chars REDACTED)) ->
  occurs t acc = false -> occurs t (redact_secret acc secret) = false.
Proof.
  intros Hne Ht H. unfold redact_secret.
  destruct (decide (secret = EmptyString)) as [|Hs]; [exact H|].
  apply occurs_ReplaceAll_other; auto using REDACTED_nonempty.
Qed.

(** One step of redaction removes its secret. *)
Lemma redact_secret_removes (secret acc : string) :
  secret <> EmptyString ->
  (forall c, In c (chars secret) -> ~ In c (chars REDACTED)) ->
  occurs secret (redact_secret acc secret) = false.
Proof.
  intros Hne Ht. unfold redact_secret.
  destruct (decide (secret = EmptyString)) as [|Hs]; [contradiction|].
  apply occurs_ReplaceAll_self; auto using REDACTED_nonempty.
Qed.

(** After redaction no non-empty secret is left, when no secret shares a byte
    with the token. *)
Lemma redact_fold_clean (S : list string) (x t : string) :
  (forall s c, In s S -> In c (chars s) -> ~ In c (chars REDACTED)) ->
  In t S -> t <> EmptyString -> occurs t (fold_left redact_secret S x) = false.
Proof.
  induction S as [|secret S IH] using rev_ind; intros HS Hin Hne; [destruct Hin|].
  rewrite redact_string_snoc. apply in_app_or in Hin as [Hin|[<-|[]]].
  - apply redact_secret_keeps; [exact Hne| |].
    + intros c. apply HS, in_or_app. now left.
    + apply IH; [|exact Hin|exact Hne]. intros s c Hs. apply HS, in_or_app. now left.
  - apply redact_secret_removes; [exact Hne|].
    intros c. apply HS, in_or_app. right. now left.
Qed.

(** A value without any non-empty secret is a fixed point of redaction. *)
Lemma redact_fold_fixed (S : list string) (y : string) :
  (forall t, In t S -> t <> EmptyString -> occurs t y = false) ->
  fold_left redact_secret S y = y.
Proof.
  induction S as [|secret S IH]; intros H; [reflexivity|].
  simpl. assert (E : redact_secret y secret = y).
  { unfold redact_secret. destruct (decide (secret = EmptyString)) as [|Hs]; [reflexivity|].
    apply ReplaceAll_absent. apply H; [now left | exact Hs]. }
  rewrite E. apply IH. intros t Ht. apply H. now right.
Qed.

Lemma token_free_In (s : string) (c : ascii) :
  token_free r -> In s (secrets r) -> In c (chars s) -> ~ In c (chars REDACTED).
Proof.
  unfold token_free. rewrite Forall_forall. intros Hr Hs Hc.
  apply list_elem_of_In, Hr in Hs. rewrite Forall_forall in Hs.
  rewrite <- list_elem_of_In. now apply Hs, list_elem_of_In.
Qed.

Lemma redact_string_clean (x t : string) :
  token_free r -> In t (secrets r) -> t <> EmptyString -> occurs t (redact_string r x) = false.
Proof. intros Hr. apply redact_fold_clean. intros s c. now apply token_free_In. Qed.

Lemma redact_string_idem (x : string) :
  token_free r -> redact_string r (redact_string r x) = redact_string r x.
Proof.
  intros Hr. apply redact_fold_fixed. intros t Ht Hne. now apply redact_string_clean.
Qed.

(** Induction on decoded JSON values, through arrays and objects. *)
Lemma Any_nested_ind (P : Any -> Prop) :
  P ANull -> (forall b, P (ABool b)) -> (forall n, P (ANumber n)) -> (forall s, P (AString s)) ->
  (forall elems, Forall P elems -> P (AArray elems)) ->
  (forall members, Forall (fun kv => P (snd kv)) members -> P (AObject members)) ->
  forall v, P v.
Proof.
  intros Hnull Hbool Hnum Hstr Harr Hobj.
  fix IH 1. intros [| b | n | s | elems | members].
  - exact Hnull.
  - apply Hbool.
  - apply Hnum.
  - apply Hstr.
  - apply Harr. induction elems as [|e elems IHe]; constructor; [apply IH | exact IHe].
  - apply Hobj. induction members as [|[k e] members IHm]; constructor; [apply IH | exact IHm].
Qed.

Lemma redact_any_idem (v : Any) :
  token_free r -> redact_any r (redact_any r v) = redact_any r v.
Proof.
  intros Hr. induction v as [| b | n | s | elems IH | members IH] using Any_nested_ind;
    try reflexivity.
  - simpl. now rewrite redact_string_idem.
  - simpl. f_equal. induction IH as [|e elems He _ IHe]; [reflexivity|].
    simpl. now rewrite He, IHe.
  - simpl. f_equal. induction IH as [|[k e] members He _ IHm]; [reflexivity|].
    simpl in *. now rewrite He, IHm.
Qed.

Lemma redact_map_idem (m : list (string * Any)) :
  token_free r -> redact_map r (redact_map r m) = redact_map r m.
Proof.
  intros Hr. unfold redact_map. induction m as [|[k v] m IH]; [reflexivity|].
  simpl. now rewrite redact_any_idem, IH.
Qed.

Lemma redact_headers_idem (h : Header) :
  token_free r -> redact_headers r (redact_headers r h) = redact_headers r h.
Proof.
  intros Hr. unfold redact_headers. rewrite <- map_fmap_compose.
  apply map_fmap_ext. intros k values _. simpl.
  rewrite <- list_fmap_compose. apply list_fmap_ext. intros i x _. simpl.
  now apply redact_string_idem.
Qed.

End RedactFacts.

(** The single pass over the text, the other reading of the redactor. *)

Section ScanFacts.

Variable S : list string.

Lemma firstMatch_Some (s t : string) :
  firstMatch S s = Some t -> In t S /\ t <> EmptyString /\ has_prefix t s = true.
Proof.
  induction S as [|secret rest IH]; [discriminate|]. cbn [firstMatch].
  destruct (negb (bool_decide (secret = EmptyString)) && has_prefix secret s) eqn:E.
  - intros [= <-]. apply andb_prop in E as [Hne Hp].
    apply negb_true_iff, bool_decide_eq_false in Hne. repeat split; [now left|assumption..].
  - intros H. destruct (IH H) as (? & ? & ?). repeat split; [now right|assumption..].
Qed.

Lemma firstMatch_None (s t : string) :
  firstMatch S s = None -> In t S -> t <> EmptyString -> has_prefix t s = false.
Proof.
  induction S as [|secret rest IH]; [intros _ []|]. cbn [firstMatch].
  destruct (negb (bool_decide (secret = EmptyString)) && has_prefix secret s) eqn:E;
    [discriminate|].
  intros H [<-|Hin] Hne; [|now apply IH].
  apply andb_false_iff in E as [E|E]; [|exact E].
  apply negb_false_iff, bool_decide_eq_true in E. contradiction.
Qed.

Lemma scan_go_skip (p r : string) :
  scan_go S (String.length p) (p +:+ r) = scan_go S 0 r.
Proof. induction p as [|a p IH]; [reflexivity | rewrite str_app_cons; exact IH]. Qed.

Lemma scan_match (s t : string) :
  firstMatch S s = Some t ->
  exists rest, s = t +:+ rest /\ scan_go S 0 s = REDACTED +:+ scan_go S 0 rest.
Proof.
  intros Hm. destruct (firstMatch_Some s t Hm) as (_ & Hne & Hp).
  apply has_prefix_true in Hp as [rest ->]. exists rest. split; [reflexivity|].
  destruct t as [|a t]; [contradiction|]. rewrite str_app_cons in *.
  cbn [scan_go]. rewrite Hm. cbn [String.length Nat.pred]. now rewrite scan_go_skip.
Qed.

Lemma scan_skip (c : ascii) (s : string) :
  firstMatch S (String c s) = None ->
  scan_go S 0 (String c s) = String c (scan_go S 0 s).
Proof. intros Hm. cbn [scan_go]. now rewrite Hm. Qed.

(** Induction along the pass. *)
Lemma scan_ind (P : string -> Prop) :
  P EmptyString ->
  (forall t rest, firstMatch S (t +:+ rest) = Some t -> P rest -> P (t +:+ rest)) ->
  (forall c s, firstMatch S (String c s) = None -> P s -> P (String c s)) ->
  forall s, P s.
Proof.
  intros H0 Hm Hs s. remember (String.length s) as n eqn:Hn.
  revert s Hn. induction n as [n IH] using lt_wf_ind. intros s Hn.
  destruct s as [|c s]; [exact H0|].
  destruct (firstMatch S (String c s)) as [t|] eqn:E.
  - destruct (firstMatch_Some _ _ E) as (_ & Hne & Hp).
    apply has_prefix_true in Hp as [rest Hrest]. rewrite Hrest in *. apply Hm; [exact E|].
    apply (IH (String.length rest)); [|reflexivity].
    subst n. destruct t as [|a t]; [contradiction|].
    rewrite str_app_cons. cbn [String.length]. rewrite str_length_app. lia.
  - apply Hs; [exact E|]. apply (IH (String.length s)); [|reflexivity]. subst n. simpl. lia.
Qed.

Hypothesis S_token_free :
  forall t c, In t S -> In c (chars t) -> ~ In c (chars REDACTED).

Lemma has_prefix_scan (t s : string) :
  (forall c, In c (chars t) -> ~ In c (chars REDACTED)) ->
  has_prefix t (scan_go S 0 s) = true -> has_prefix t s = true.
Proof.
  revert t. induction s as [| m rest Hm IH | c s Hm IH] using scan_ind; intros t Ht.
  - tauto.
  - destruct (scan_match _ _ Hm) as (rest' & Hrest & ->). destruct t as [|a t]; [reflexivity|].
    unfold REDACTED. rewrite str_app_cons. intros H. apply has_prefix_cons in H as [-> _].
    exfalso. apply (Ht "R"%char); simpl; auto.
  - rewrite scan_skip by exact Hm. destruct t as [|a t]; [reflexivity|].
    intros H. apply has_prefix_cons in H as [-> H]. apply has_prefix_cons.
    split; [reflexivity|]. apply IH; [|exact H]. intros x Hx. apply Ht. simpl; auto.
Qed.

(** After the pass no non-empty secret is left. *)
Lemma occurs_scan (t s : string) :
  In t S -> t <> EmptyString -> occurs t (scan_go S 0 s) = false.
Proof.
  intros Hin Hne. induction s as [| m rest Hm IH | c s Hm IH] using scan_ind.
  - cbn. unfold has_prefix. destruct t; [contradiction|reflexivity].
  - destruct (scan_match _ _ Hm) as (rest' & Hrest & ->).
    apply (inj (String.append m)) in Hrest as <-.
    destruct t as [|a t]; [contradiction|].
    rewrite occurs_app_token; [exact IH|]. apply (S_token_free (String a t)); simpl; auto.
  - rewrite scan_skip by exact Hm. rewrite occurs_cons. apply orb_false_intro; [|exact IH].
    apply not_true_is_false. intros E. rewrite <- (scan_skip c s Hm) in E.
    apply has_prefix_scan in E; [|intros x; now apply S_token_free].
    now rewrite (firstMatch_None _ t Hm Hin Hne) in E.
Qed.

End ScanFacts.

(** A text without any non-empty secret is left as it is by the pass. *)
Lemma scan_fixed (S : list string) (y : string) :
  (forall t, In t S -> t <> EmptyString -> occurs t y = false) -> scan_go S 0 y = y.
Proof.
  intros Hy. induction y as [|c y IH]; [reflexivity|].
  assert (Hm : firstMatch S (String c y) = None).
  { destruct (firstMatch S (String c y)) as [t|] eqn:E; [|reflexivity].
    destruct (firstMatch_Some S _ _ E) as (Hin & Hne & Hp).
    specialize (Hy t Hin Hne). rewrite occurs_cons, Hp in Hy. discriminate. }
  rewrite scan_skip by exact Hm. rewrite IH; [reflexivity|].
  intros t Hin Hne. specialize (Hy t Hin Hne). now apply occurs_false_cons in Hy.
Qed.

(** Under the other reading too, redaction is idempotent when no secret
    shares a byte with the token. *)
Lemma scan_string_idem (r : Redact) (x : string) :
  token_free r -> scan_string r (scan_string r x) = scan_string r x.
Proof.
  intros Hr. unfold scan_string. apply scan_fixed. intros t Hin Hne.
  apply occurs_scan; [|exact Hin|exact Hne]. intros s c. now apply token_free_In.
Qed.

Example scan_twice_differs :
  scan_string (NewRedact ["E"]) (scan_string (NewRedact ["E"]) "E")
  <> scan_string (NewRedact ["E"]) "E".
Proof. vm_compute. discriminate. Qed.

(** C8, as stated, fails: with the secret [E] the token written by the first
    pass contains the secret again, and a second pass rewrites it. *)
Lemma redact_twice_changes :
  redact_string (NewRedact ["E"]) (redact_string (NewRedact ["E"]) "E")
  <> redact_string (NewRedact ["E"]) "E".
Proof. vm_compute. discriminate. Qed.

(** C8 (amended): for every secret list in which no non-empty secret shares a
    byte with the token REDACTED, redaction is idempotent on strings, byte
    buffers, header maps and string-to-any maps: redacting a redacted value
    gives the redacted value. *)
Theorem redact_idempotent (r : Redact) (Hr : token_free r) :
  (forall s, redact_string r (redact_string r s) = redact_string r s) /\
  (forall b, redact_bytes r (redact_bytes r b) = redact_bytes r b) /\
  (forall h, redact_headers r (redact_headers r h) = redact_headers r h) /\
  (forall m, redact_map r (redact_map r m) = redact_map r m).
Proof.
  repeat split; intros.
  - now apply redact_string_idem.
  - now apply (redact_string_idem r).
  - now apply redact_headers_idem.
  - now apply redact_map_idem.
Qed.

Lemma redact_idempotent_witness :
  let r := NewRedact ["secret"; EmptyString; "abc"] in
  token_free r /\
  redact_string r (redact_string r "hello-secret abc") = redact_string r "hello-secret abc".
Proof.
  intros r. assert (Hr : token_free r) by (apply (bool_decide_unpack (token_free r)); vm_compute; exact I).
  split; [exact Hr | apply (redact_idempotent r Hr)].
Defined.

(** ** SHA-256: the standard test vectors *)

Example sha256_empty :
  SHA256.Sum256Hex EmptyString = "e3b0c44298fc1c149afbf4c8996fb92427ae41e4649b934ca495991b7852b855".
Proof. vm_compute. reflexivity. Qed.

Example sha256_abc :
  SHA256.Sum256Hex "abc" = "ba7816bf8f01cfea414140de5dae2223b00361a396177a9cb410ff61f20015ad".
Proof. vm_compute. reflexivity. Qed.

Example sha256_two_blocks :
  SHA256.Sum256Hex "abcdbcdecdefdefgefghfghighijhijkijkljklmklmnlmnomnopnopq"
  = "248d6a61d20638b8e5c026930c3e6039a33ce45964ff2167f6ecedd419db06c1".
Proof. vm_compute. reflexivity. Qed.

(** ** The canonical form: the cases of the store's tests *)

Module StoreTests.

Import Store StoreSpec Examples.

(** TestRecordedRequest_Serialize, "Empty request". *)
Example Serialize_empty_request :
  Serialize (request EmptyString ∅ EmptyString HeadSHA)
  = unlines [HeadSHA; "Server Address: "; "Port: 0"; "Protocol: "; separator; EmptyString; EmptyString; EmptyString; EmptyString].
Proof. vm_compute. reflexivity. Qed.

(** TestRecordedRequest_Serialize, "Request with headers". *)
Example Serialize_request_with_headers :
  Serialize (request "GET / HTTP/1.1"
               {[ "Content-Type" := ["application/json"]; "Accept" := ["application/xml"] ]}
               EmptyString HeadSHA)
  = unlines [HeadSHA; "Server Address: "; "Port: 0"; "Protocol: "; separator;
             "GET / HTTP/1.1"; "Accept: application/xml"; "Content-Type: application/json";
             EmptyString; EmptyString; EmptyString].
Proof. vm_compute. reflexivity. Qed.

(** TestRecordedRequest_Serialize, "Request with body". *)
Example Serialize_request_with_body :
  Serialize (request "POST /data HTTP/1.1" ∅ keyValue HeadSHA)
  = unlines [HeadSHA; "Server Address: "; "Port: 0"; "Protocol: "; separator;
             "POST /data HTTP/1.1"; EmptyString; EmptyString; keyValue].
Proof. vm_compute. reflexivity. Qed.

(** TestRecordedRequest_Serialize, "Request with previous request SHA256 sum". *)
Example Serialize_request_with_previous :
  Serialize (request "GET / HTTP/1.1" ∅ EmptyString sha1to32)
  = unlines [sha1to32; "Server Address: "; "Port: 0"; "Protocol: "; separator;
             "GET / HTTP/1.1"; EmptyString; EmptyString; EmptyString].
Proof. vm_compute. reflexivity. Qed.

(** TestRecordedRequest_Deserialize, "Valid serialized request". *)
Example Deserialize_valid :
  Deserialize (validInput "8080")
  = Ok {| Request := "GET / HTTP/1.1";
          Headers := {[ "Accept" := ["application/xml"];
                        "Content-Type" := ["application/json"] ]};
          RawBody := keyValue; BodySegments := [];
          PreviousRequest := sha1to32; ServerAddress := "example.com"; Port := 8080;
          Protocol := "http" |}.
Proof. vm_compute. reflexivity. Qed.

(** TestRecordedRequest_Deserialize, "missing separator" and "Empty input". *)
Example Deserialize_missing_separator :
  Deserialize (unlines ["GET / HTTP/1.1"; "Accept: application/xml"])
  = Err "invalid serialized form: separator missing"
  /\ Deserialize EmptyString = Err "invalid serialized form: separator missing".
Proof. split; vm_compute; reflexivity. Qed.

(** TestRecordedRequest_Deserialize, "invalid port". *)
Example Deserialize_invalid_port :
  Deserialize (validInput "invalid") = Err "invalid port: invalid".
Proof. vm_compute. reflexivity. Qed.

(** TestRecordedRequest_RedactHeaders: a single header, several, one that is
    not there, all of them. *)
Example RedactHeaders_cases :
  let h := {[ "Accept" := ["application/xml"]; "Content-Type" := ["application/json"];
              "Authorization" := ["Bearer token"] ]} in
  Headers (RedactHeaders (request "GET / HTTP/1.1" h EmptyString HeadSHA) ["Content-Type"])
    = {[ "Accept" := ["application/xml"]; "Authorization" := ["Bearer token"] ]} /\
  Headers (RedactHeaders (request "GET / HTTP/1.1" h EmptyString HeadSHA)
             ["Content-Type"; "Authorization"])
    = {[ "Accept" := ["application/xml"] ]} /\
  Headers (RedactHeaders (request "GET / HTTP/1.1" h EmptyString HeadSHA) ["Non-Existent"]) = h /\
  Headers (RedactHeaders (request "GET / HTTP/1.1" h EmptyString HeadSHA)
             ["Accept"; "Content-Type"; "Authorization"])
    = ∅.
Proof. cbv zeta. repeat apply conj; vm_compute; reflexivity. Qed.

(** TestNewRecordedRequest: with a body, without one, with a body that cannot
    be read. *)
Example NewRecordedRequest_cases :
  let cfg := endpoint "https" [] in
  let post body :=
    {| Http.Method := "POST"; Http.Scheme := "http"; Http.Host := "example.com";
       Http.Path := "/test"; Http.RawQuery := EmptyString;
       Http.ReqHeader := {[ "Content-Type" := ["application/json"] ]}; Http.Body := body |} in
  (exists q, @NewRecordedRequest textOnly (post (Ok "test body")) HeadSHA cfg = Ok q /\
     Request q = "POST http://example.com/test HTTP/1.1" /\
     Headers q = {[ "Content-Type" := ["application/json"] ]} /\
     RawBody q = "test body" /\ PreviousRequest q = HeadSHA /\
     ServerAddress q = "example.com" /\ Port q = 443 /\ Protocol q = "https") /\
  (exists q, @NewRecordedRequest textOnly (post (Ok EmptyString)) HeadSHA cfg = Ok q /\
     RawBody q = EmptyString /\ BodySegments q = []) /\
  @NewRecordedRequest textOnly (post (Err "simulated error")) HeadSHA cfg
    = Err "simulated error".
Proof.
  cbv zeta. split; [|split];
    [eexists; repeat apply conj; vm_compute; reflexivity.. | vm_compute; reflexivity].
Qed.

End StoreTests.

(** ** The recording proxy *)

Import Http Store Recording.

(** *** The health path *)

(** C6: a request whose path is the endpoint's health path is answered with
    status 200 and an empty body; nothing is written to any file, and the
    proxy's fields, [prevRequestSHA] and [seenFiles] among them, are left as
    they were. *)
Theorem health_request_records_nothing `{StoreAPI} `{RegexpAPI}
    (r : RecordingHTTPSProxy) (fs : Disk) (req : Http.Request) (env : Env) :
  Path req = Health (config r) ->
  let o := handleRequest r fs newResponseWriter req env in
  clientStatus (writer o) = 200 /\ Written (writer o) = EmptyString /\
  disk o = fs /\
  prevRequestSHA (proxy o) = prevRequestSHA r /\ seenFiles (proxy o) = seenFiles r /\
  panicked o = None.
Proof.
  intros Hpath. unfold handleRequest.
  destruct (decide (Path req = Health (config r))) as [_|Hne]; [|contradiction].
  simpl. repeat split; reflexivity.
Qed.

Lemma health_request_records_nothing_witness :
  let r := Examples.freshProxy (Examples.endpoint "https" []) in
  let req := Examples.get "/healthz" ∅ in
  let env := Examples.world (Ok (Examples.okResponse ∅)) None None in
  let o := @handleRequest (@StoreSpec.storeAPI Examples.textOnly) Examples.literalRegexp
             r ∅ newResponseWriter req env in
  Path req = Health (config r) /\
  clientStatus (writer o) = 200 /\ Written (writer o) = EmptyString /\ disk o = ∅.
Proof.
  intros r req env o.
  pose proof (@health_request_records_nothing
                (@StoreSpec.storeAPI Examples.textOnly) Examples.literalRegexp
                r ∅ req env eq_refl) as (Hs & Hw & Hd & _).
  repeat split; assumption.
Defined.

(** *** The upstream URL *)

(** C4, as stated, fails: for an endpoint whose [target_type] is [http] the
    upstream URL does not start with [http://], and the WebSocket URL does not
    start with [ws://]. *)
Lemma upstream_scheme_ignores_target_type :
  let r := Examples.freshProxy (Examples.endpoint "http" []) in
  let req := Examples.get "/x" ∅ in
  TargetType (config r) = "http" /\
  has_prefix (TargetType (config r) +:+ "://") (proxyURL r req) = false /\
  has_prefix "ws://" (websocketURL r req) = false.
Proof. cbv zeta. repeat apply conj; vm_compute; reflexivity. Qed.

(** C4 (amended): for every proxied request the upstream URL has the scheme
    [https] for a plain HTTP request and [wss] for a WebSocket upgrade, whatever
    the endpoint's [target_type]; the host and port are [target_host] and
    [target_port], the path is the request's, and the request's query follows a
    question mark when it is not empty. *)
Theorem upstream_url (r : RecordingHTTPSProxy) (req : Http.Request) :
  let hostPort := TargetHost (config r) +:+ ":" +:+ Itoa (TargetPort (config r)) in
  let query := if decide (RawQuery req = EmptyString) then EmptyString
               else "?" +:+ RawQuery req in
  proxyURL r req = "https://" +:+ hostPort +:+ Path req +:+ query /\
  websocketURL r req = "wss://" +:+ hostPort +:+ Path req +:+ query.
Proof.
  unfold proxyURL, websocketURL. cbv zeta.
  destruct (decide (RawQuery req = EmptyString)) as [E|E];
    destruct (decide (RawQuery req <> EmptyString)) as [E'|E']; try contradiction.
  - rewrite !str_app_assoc, !str_app_empty_r. split; reflexivity.
  - rewrite !str_app_assoc. split; reflexivity.
Qed.

Example upstream_url_with_query :
  proxyURL (Examples.freshProxy (Examples.endpoint "http" []))
    {| Method := "GET"; Scheme := EmptyString; Host := EmptyString; Path := "/path/abc";
       RawQuery := "token=123"; ReqHeader := ∅;
       Body := Ok EmptyString |}
  = "https://example.com:443/path/abc?token=123".
Proof. vm_compute. reflexivity. Qed.

(** *** The WebSocket pumps *)

(** C5, as stated, fails: with the secret [secret] the record logged for the
    frame [hello-secret] counts the 15 bytes of the redacted frame and its
    newline, not 13. *)
Lemma pump_logs_redacted_length :
  let r := Examples.freshProxy (Examples.endpoint "https" []) in
  secrets (redactor r) = ["secret"] /\
  fst (pumpMessage r ">" "hello-secret") <> ">13 hello-REDACTED" +:+ LF.
Proof. cbv zeta. split; [vm_compute; reflexivity | vm_compute; discriminate]. Qed.

(** The messages of a pump none of which fails to be forwarded. *)
Lemma pumpFrames_all_forwarded (r : RecordingHTTPSProxy) (prepend : string)
    (fs : list Frame) (unexpected : bool) :
  Forall (fun f => writeError f = None) fs ->
  toLog (pumpFrames r prepend fs unexpected)
    = (fun f => fst (pumpMessage r prepend (payload f))) <$> fs /\
  toPeer (pumpFrames r prepend fs unexpected)
    = (fun f => (msgType f, snd (pumpMessage r prepend (payload f)))) <$> fs.
Proof.
  induction 1 as [|f fs Hf _ [IH1 IH2]].
  - simpl. destruct unexpected; split; reflexivity.
  - cbn [pumpFrames]. destruct (pumpMessage r prepend (payload f)) as [record buf] eqn:E.
    rewrite Hf, !fmap_cons. cbn beta. rewrite E. cbn [toLog toPeer fst snd].
    rewrite IH1, IH2. split; reflexivity.
Qed.

(** What a pump hands to its peer: the bytes as read, with the newline the
    pump appended for the log. *)
Lemma pumpMessage_forwarded (r : RecordingHTTPSProxy) (prepend buf : string) :
  snd (pumpMessage r prepend buf) = buf +:+ LF.
Proof. reflexivity. Qed.

(** The log writer, when no write fails, appends the records in their order
    of arrival. *)
Lemma writeRecords_all_written (env : Env) (records : list string) (n : nat)
    (written : string) :
  (forall i, LogWriteError env i = None) ->
  writeRecords env n records written
    = (written +:+ fold_right String.append EmptyString records, None).
Proof.
  intros Hw. revert n written. induction records as [|buf rest IH]; intros n written.
  - simpl. now rewrite str_app_empty_r.
  - cbn [writeRecords fold_right]. rewrite Hw, IH. now rewrite str_app_assoc.
Qed.

(** C5 (amended): for every message a pump reads, the record it sends to the
    log is the direction mark, the decimal byte length of the redacted bytes
    (message and appended newline, after redaction), a space, and the redacted
    bytes; the bytes handed to the peer are not redacted and start with the
    message as read.  In the log of a session the records of the pump from the
    client carry the mark [>] and those of the pump from the upstream the mark
    [<].  With the secret [secret] and the frame [hello-secret] the two records
    are [>15 hello-REDACTED] and [<15 hello-REDACTED], each ended by the
    newline. *)
Theorem pump_record (r : RecordingHTTPSProxy) (prepend buf : string) :
  let redacted := redact_bytes (redactor r) (buf +:+ LF) in
  fst (pumpMessage r prepend buf)
    = prepend +:+ Itoa (Z.of_nat (String.length redacted)) +:+ " " +:+ redacted /\
  has_prefix buf (snd (pumpMessage r prepend buf)) = true /\
  (forall (fs : Disk) (w : ResponseWriter) (out : list string) (req : Http.Request)
          (fileName : string) (env : Env),
      DialError env (websocketURL r req)
        (selectNames (fun k => negb (bool_decide (k ∈ excludedHeaders))) (ReqHeader req))
        = None ->
      UpgradeError env = None ->
      CreateError env (Join (recordingDir r) (fileName +:+ ".websocket.log")) = None ->
      (forall i, LogWriteError env i = None) ->
      Forall (fun f => writeError f = None) (frames (clientReads env)) ->
      Forall (fun f => writeError f = None) (frames (upstreamReads env)) ->
      disk (proxyWebsocket r fs w out req fileName env)
        !! Join (recordingDir r) (fileName +:+ ".websocket.log")
      = Some (LogFile (fold_right String.append EmptyString
          (interleave (arrival env)
             ((fun f => fst (pumpMessage r ">" (payload f))) <$> frames (clientReads env))
             ((fun f => fst (pumpMessage r "<" (payload f))) <$> frames (upstreamReads env)))))) /\
  (secrets (redactor r) = ["secret"] ->
   fst (pumpMessage r ">" "hello-secret") = ">15 hello-REDACTED" +:+ LF /\
   fst (pumpMessage r "<" "hello-secret") = "<15 hello-REDACTED" +:+ LF).
Proof.
  cbv zeta. split; [|split; [|split]].
  - unfold pumpMessage. simpl. now rewrite !str_app_assoc.
  - apply has_prefix_true. now exists LF.
  - intros fs w out req fileName env Hd Hu Hc Hw Hfc Hfu.
    unfold proxyWebsocket, upgradeConnectionToWebsocket. rewrite Hd, Hu, Hc.
    rewrite writeRecords_all_written by exact Hw.
    cbn [disk]. rewrite lookup_insert_eq. unfold pumpWebsocket.
    destruct (pumpFrames_all_forwarded r ">" _ (unexpectedClose (clientReads env)) Hfc)
      as [-> _].
    destruct (pumpFrames_all_forwarded r "<" _ (unexpectedClose (upstreamReads env)) Hfu)
      as [-> _].
    reflexivity.
  - intros Hs. unfold pumpMessage, redact_bytes. rewrite Hs. vm_compute.
    split; reflexivity.
Qed.

Lemma pump_record_witness :
  let r := Examples.freshProxy (Examples.endpoint "https" []) in
  let env := Examples.echoSession "hello-secret" in
  secrets (redactor r) = ["secret"] /\
  fst (pumpMessage r ">" "hello-secret") = ">15 hello-REDACTED" +:+ LF /\
  fst (pumpMessage r "<" "hello-secret") = "<15 hello-REDACTED" +:+ LF /\
  disk (proxyWebsocket r ∅ newResponseWriter [] (Examples.get "/ws" Examples.upgradeHeader)
          "session" env)
    !! "recordings/session.websocket.log"
  = Some (LogFile (">15 hello-REDACTED" +:+ LF +:+ "<15 hello-REDACTED" +:+ LF)).
Proof.
  intros r env.
  destruct (pump_record r ">" "hello-secret") as (_ & _ & Hlog & Hex).
  destruct (Hex eq_refl) as [H1 H2].
  split; [reflexivity|]. split; [exact H1|]. split; [exact H2|].
  rewrite (Hlog ∅ newResponseWriter [] (Examples.get "/ws" Examples.upgradeHeader)
             "session" env);
    try reflexivity.
  - repeat constructor.
  - repeat constructor.
Defined.

(** *** The header rewriter *)

Section HeaderRewriter.

Context `{RegexpAPI}.

Lemma replaceValues_invalid (value : string) (values : list string) (regex replacement : string) :
  Compile regex = None ->
  exists msg, replaceValues (value :: values) regex replacement = Panic msg.
Proof. intros Hc. simpl. unfold replaceRegex. rewrite Hc. eauto. Qed.

Lemma replaceValues_length (values values' : list string) (regex replacement : string) :
  replaceValues values regex replacement = Done values' -> length values' = length values.
Proof.
  revert values'. induction values as [|v values IH]; intros values' Hr; simpl in Hr.
  - now injection Hr as <-.
  - destruct (replaceRegex v regex replacement); [|discriminate].
    destruct (replaceValues values regex replacement) as [rest|]; [|discriminate].
    injection Hr as <-. simpl. now rewrite (IH rest).
Qed.

(** A header that carries a value keeps carrying one through the rewrites. *)
Lemma applyReplacements_panics (replacements : list HeaderReplacement) (headers : Header)
    (rep : HeaderReplacement) :
  In rep replacements ->
  (exists value values, headers !! Header_ rep = Some (value :: values)) ->
  Compile (Regex rep) = None ->
  exists msg, applyReplacements replacements headers = Panic msg.
Proof.
  intros Hin Hpresent Hc. revert headers Hpresent.
  induction replacements as [|first rest IH]; intros headers Hpresent; [destruct Hin|].
  cbn [applyReplacements]. destruct Hin as [->|Hin].
  - destruct Hpresent as (value & values & ->).
    destruct (replaceValues_invalid value values (Regex rep) (Replace rep) Hc) as [msg ->].
    eauto.
  - destruct (headers !! Header_ first) as [vs|] eqn:Hfirst; [|now apply IH].
    destruct (replaceValues vs (Regex first) (Replace first)) as [vs'|msg] eqn:Hr; [|eauto].
    apply IH; [exact Hin|].
    destruct (decide (Header_ first = Header_ rep)) as [E|E].
    + rewrite <- E, lookup_insert_eq. destruct Hpresent as (value & values & Hp).
      rewrite <- E, Hfirst in Hp. injection Hp as ->.
      apply replaceValues_length in Hr. destruct vs' as [|v' vs']; [discriminate|]. eauto.
    + now rewrite lookup_insert_ne.
Qed.

Lemma applyReplacements_absent (replacements : list HeaderReplacement) (headers : Header) :
  (forall rep, In rep replacements -> headers !! Header_ rep = None) ->
  applyReplacements replacements headers = Done headers.
Proof.
  induction replacements as [|first rest IH]; intros Habs; [reflexivity|].
  cbn [applyReplacements]. rewrite (Habs first) by now left.
  apply IH. intros rep Hin. apply Habs. now right.
Qed.

End HeaderRewriter.

(** C10: the regex of a configured replacement is compiled, by the panicking
    constructor, while the response is handled: when a response carries a
    configured header (with a value) whose regex is not valid syntax, the
    handler panics; it returns no error and sends no response, 500 or other,
    and leaves the proxy and the files as they were.  When none of the
    configured headers is in the response nothing is compiled: the rewriter
    returns the headers as they are, whatever the regexes. *)
Theorem invalid_regex_panics_when_header_present `{StoreAPI} `{RegexpAPI}
    (r : RecordingHTTPSProxy) (fs : Disk) (req : Http.Request) (env : Env) :
  (forall q fileName body resp rep,
      Path req <> Health (config r) ->
      Get (ReqHeader req) "Upgrade" <> "websocket" ->
      redactRequest r req = Ok q ->
      GetRecordingFileName q = Ok fileName ->
      Body req = Ok body ->
      NewRequestError env (Method req) (proxyURL r req) = None ->
      Do env {| CMethod := Method req; CURL := proxyURL r req;
                CHeader := addHeaders ∅ (ReqHeader req); CBody := body |} = Ok resp ->
      In rep (ResponseHeaderReplacements (config r)) ->
      (exists value values, RHeader resp !! Header_ rep = Some (value :: values)) ->
      Compile (Regex rep) = None ->
      let o := handleRequest r fs newResponseWriter req env in
      (exists msg, panicked o = Some msg) /\ Sent (writer o) = None /\
      Written (writer o) = EmptyString /\ proxy o = r /\ disk o = fs) /\
  (forall headers,
      (forall rep, In rep (ResponseHeaderReplacements (config r)) ->
                   headers !! Header_ rep = None) ->
      applyResponseHeaderReplacements r headers = Done headers).
Proof.
  split.
  - intros q fileName body resp rep Hpath Hup Hq Hf Hbody Hnew Hdo Hin Hpresent Hc.
    destruct (applyReplacements_panics _ (RHeader resp) rep Hin Hpresent Hc) as [msg Hp].
    unfold handleRequest.
    destruct (decide (Path req = Health (config r))); [contradiction|].
    rewrite Hq, Hf.
    destruct (decide (Get (ReqHeader req) "Upgrade" = "websocket")); [contradiction|].
    unfold proxyRequest. rewrite Hbody, Hnew, Hdo.
    unfold applyResponseHeaderReplacements. rewrite Hp.
    cbv zeta. cbn. eauto 6.
  - intros headers Habs. now apply applyReplacements_absent.
Qed.

Lemma invalid_regex_panics_when_header_present_witness :
  let r := Examples.freshProxy (Examples.endpoint "https" [Examples.cookieRewrite "sessionid=("]) in
  let req := Examples.get "/x" ∅ in
  let resp := Examples.okResponse {[ "Set-Cookie" := ["sessionid=abc; Path=/"] ]} in
  let env := Examples.world (Ok resp) None None in
  let o := @handleRequest (@StoreSpec.storeAPI Examples.textOnly) Examples.literalRegexp
             r ∅ newResponseWriter req env in
  @Compile Examples.literalRegexp "sessionid=(" = None /\
  (exists msg, panicked o = Some msg) /\ Sent (writer o) = None /\
  @applyResponseHeaderReplacements Examples.literalRegexp r
     {[ "Content-Type" := ["text/plain"] ]}
  = Done {[ "Content-Type" := ["text/plain"] ]}.
Proof.
  intros r req resp env o.
  destruct (@invalid_regex_panics_when_header_present
              (@StoreSpec.storeAPI Examples.textOnly) Examples.literalRegexp r ∅ req env)
    as [Hpanic Habsent].
  split; [reflexivity|].
  assert (Ho : (exists msg, panicked o = Some msg) /\ Sent (writer o) = None).
  { edestruct Hpanic as (Hm & Hs & _); [..| split; [exact Hm | exact Hs]].
    - vm_compute; discriminate.
    - vm_compute; discriminate.
    - vm_compute; reflexivity.
    - vm_compute; reflexivity.
    - reflexivity.
    - reflexivity.
    - vm_compute; reflexivity.
    - left; reflexivity.
    - eexists _, _; vm_compute; reflexivity.
    - reflexivity. }
  destruct Ho as [Hm Hs]. split; [exact Hm|]. split; [exact Hs|].
  apply Habsent. intros rep [<-|[]]. vm_compute. reflexivity.
Defined.

(** *** Recording a response *)

Section RecordingFacts.

Context `{StoreAPI} `{RegexpAPI}.

Local Abbreviation jsonPath r fileName := (Join (recordingDir r) (fileName +:+ ".json")).

(** [recordResponse] never touches the chain, the configuration or another
    file's path, whatever it returns. *)
Lemma recordResponse_frame (r r' : RecordingHTTPSProxy) (fs fs' : Disk) (q : RecordedRequest)
    (resp : Response) (fileName shaSum body : string) (env : Env) (res : result unit) :
  recordResponse r fs q resp fileName shaSum body env = (r', fs', res) ->
  prevRequestSHA r' = prevRequestSHA r /\ config r' = config r /\
  recordingDir r' = recordingDir r /\ redactor r' = redactor r /\
  (forall path, path <> jsonPath r fileName -> fs' !! path = fs !! path) /\
  (forall name, name <> fileName -> seenFiles r' !! name = seenFiles r !! name) /\
  seenFiles r' !! fileName
    = match seenFiles r !! fileName with
      | Some entry => Some entry
      | None => match NewRecordedResponse resp body with
                | Ok _ => Some {| RecordID := fileName; Interactions := [] |}
                | Err _ => None
                end
      end.
Proof.
  unfold recordResponse. intros Hr.
  destruct (NewRecordedResponse resp body) as [rr|err].
  2:{ injection Hr as <- <- <-. repeat split; try reflexivity.
      now destruct (seenFiles r !! fileName). }
  destruct (seenFiles r !! fileName) as [entry|] eqn:Hseen; cbv zeta in Hr; cbn [recordingDir] in Hr.
  - destruct (OpenFileError env _); [|destruct (MarshalIndentError env _);
      [|destruct (WriteStringError env)]];
      injection Hr as <- <- <-; repeat split; try reflexivity; try assumption;
      intros path Hp; rewrite ?lookup_insert_ne by congruence; reflexivity.
  - destruct (OpenFileError env _); [|destruct (MarshalIndentError env _);
      [|destruct (WriteStringError env)]];
      injection Hr as <- <- <-; cbn [prevRequestSHA config recordingDir redactor seenFiles setSeenFiles];
      repeat split; try reflexivity;
      try (intros path Hp; rewrite ?lookup_insert_ne by congruence; reflexivity);
      try (rewrite lookup_insert_eq; reflexivity).
Qed.

(** A recording that returns without error has written, in full, the entry
    with the one interaction appended. *)
Lemma recordResponse_ok (r r' : RecordingHTTPSProxy) (fs fs' : Disk) (q : RecordedRequest)
    (resp : Response) (fileName shaSum body : string) (env : Env) (u : unit) :
  recordResponse r fs q resp fileName shaSum body env = (r', fs', Ok u) ->
  exists rr, NewRecordedResponse resp body = Ok rr /\
    fs' = <[jsonPath r fileName :=
              JSONFile {| RecordID := RecordID (entryOf r fileName);
                          Interactions := Interactions (entryOf r fileName)
                            ++ [{| IRequest := q; ShaSum := shaSum; IResponse := rr |}] |}]>
            (<[jsonPath r fileName := TruncatedFile]> fs).
Proof.
  unfold recordResponse, entryOf. intros Hr.
  destruct (NewRecordedResponse resp body) as [rr|err]; [|discriminate].
  exists rr. split; [reflexivity|].
  destruct (seenFiles r !! fileName) as [entry|] eqn:Hseen; cbv zeta in Hr;
    cbn [recordingDir setSeenFiles] in Hr;
    (destruct (OpenFileError env _); [discriminate|]);
    (destruct (MarshalIndentError env _); [discriminate|]);
    (destruct (WriteStringError env); [discriminate|]);
    injection Hr as <- <-; reflexivity.
Qed.

(** A recording that returns an error leaves the file as it was when the file
    could not be opened or the response could not be built, and truncated
    otherwise. *)
Lemma recordResponse_err (r r' : RecordingHTTPSProxy) (fs fs' : Disk) (q : RecordedRequest)
    (resp : Response) (fileName shaSum body : string) (env : Env) (err : string) :
  recordResponse r fs q resp fileName shaSum body env = (r', fs', Err err) ->
  fs' = fs \/ fs' = <[jsonPath r fileName := TruncatedFile]> fs.
Proof.
  unfold recordResponse. intros Hr.
  destruct (NewRecordedResponse resp body) as [rr|e]; [|injection Hr as <- <- <-; now left].
  destruct (seenFiles r !! fileName) as [entry|] eqn:Hseen; cbv zeta in Hr;
    cbn [recordingDir setSeenFiles] in Hr;
    (destruct (OpenFileError env _); [injection Hr as <- <- <-; now left|]);
    (destruct (MarshalIndentError env _); [injection Hr as <- <- <-; now right|]);
    (destruct (WriteStringError env); [injection Hr as <- <- <-; now right|]);
    discriminate.
Qed.

Lemma recordResponse_err_open (r : RecordingHTTPSProxy) (fs : Disk) (q : RecordedRequest)
    (resp : Response) (fileName shaSum body : string) (env : Env) (err : string) :
  OpenFileError env (jsonPath r fileName) = Some err ->
  (recordResponse r fs q resp fileName shaSum body env).1.2 = fs.
Proof.
  unfold recordResponse. intros Ho.
  destruct (NewRecordedResponse resp body) as [rr|e]; [|reflexivity].
  destruct (seenFiles r !! fileName) as [entry|]; cbv zeta;
    cbn [recordingDir setSeenFiles]; rewrite Ho; reflexivity.
Qed.

Lemma recordResponse_success (r : RecordingHTTPSProxy) (fs : Disk) (q : RecordedRequest)
    (resp : Response) (fileName shaSum body : string) (env : Env) (rr : RecordedResponse) :
  NewRecordedResponse resp body = Ok rr ->
  OpenFileError env (jsonPath r fileName) = None ->
  (forall rf, MarshalIndentError env rf = None) ->
  WriteStringError env = None ->
  recordResponse r fs q resp fileName shaSum body env
  = (withEntry r fileName,
     <[jsonPath r fileName :=
         JSONFile {| RecordID := RecordID (entryOf r fileName);
                     Interactions := Interactions (entryOf r fileName)
                       ++ [{| IRequest := q; ShaSum := shaSum; IResponse := rr |}] |}]> fs,
     Ok tt).
Proof.
  intros Hrr Ho Hm Hw. unfold recordResponse, withEntry, entryOf. rewrite Hrr.
  destruct (seenFiles r !! fileName) as [entry|]; cbv zeta;
    cbn [recordingDir setSeenFiles]; rewrite Ho, Hm, Hw, insert_insert_eq; reflexivity.
Qed.

(** The handler on a request that is proxied and recorded. *)
Lemma handleRequest_recorded (r r' : RecordingHTTPSProxy) (fs fs' : Disk)
    (w w' : ResponseWriter) (req : Http.Request) (env : Env) (q : RecordedRequest)
    (fileName body : string) (resp : Response) (res : result unit) :
  Path req <> Health (config r) ->
  Get (ReqHeader req) "Upgrade" <> "websocket" ->
  redactRequest r req = Ok q ->
  GetRecordingFileName q = Ok fileName ->
  proxyRequest r w req env = (w', Done (Ok (resp, body))) ->
  let recReq := chained r fileName q in
  let shaSum := ComputeSum recReq in
  recordResponse r fs recReq resp fileName shaSum body env = (r', fs', res) ->
  let o := handleRequest r fs w req env in
  disk o = fs' /\ panicked o = None /\
  match res with
  | Ok _ =>
      writer o = w' /\
      proxy o = if decide (fileName <> shaSum) then setPrevRequestSHA r' shaSum else r'
  | Err err =>
      writer o = Error w' ("Error recording response: " +:+ err) StatusInternalServerError /\
      proxy o = r'
  end.
Proof.
  intros Hpath Hup Hq Hf Hp recReq shaSum Hr. unfold handleRequest.
  destruct (decide (Path req = Health (config r))); [contradiction|].
  rewrite Hq, Hf.
  destruct (decide (Get (ReqHeader req) "Upgrade" = "websocket")); [contradiction|].
  rewrite Hp. fold (chained r fileName q). fold recReq. fold shaSum. rewrite Hr.
  destruct res as [u|err]; cbn; repeat split; reflexivity.
Qed.

End RecordingFacts.

(** *** The hash chain *)

Section ChainStep.

Context `{StoreSpec.JSONAPI} `{RegexpAPI}.
#[local] Existing Instance StoreSpec.storeAPI.

(** C2: the step of the hash chain, for every request that is proxied and
    recorded.  The file name is the fingerprint of the request with its
    previous request forced to [HeadSHA].  When the file name was not seen, the
    previous request is reset to [HeadSHA] before the sum is computed, so that
    the record id, the file name and the sum of the interaction written
    coincide and its previous request is [HeadSHA]; [prevRequestSHA] is then
    left as it was.  After recording, [prevRequestSHA] becomes the sum when the
    file name differs from the sum and is left as it was when they are equal. *)
Theorem hash_chain_step
    (r : RecordingHTTPSProxy) (fs : Disk) (w w' : ResponseWriter) (req : Http.Request)
    (env : Env) (q : RecordedRequest) (resp : Response) (body : string) :
  Path req <> Health (config r) ->
  Get (ReqHeader req) "Upgrade" <> "websocket" ->
  redactRequest r req = Ok q ->
  proxyRequest r w req env = (w', Done (Ok (resp, body))) ->
  let fileName := StoreSpec.ComputeSum (setPreviousRequest q HeadSHA) in
  let path := Join (recordingDir r) (fileName +:+ ".json") in
  OpenFileError env path = None ->
  (forall rf, MarshalIndentError env rf = None) ->
  WriteStringError env = None ->
  let recReq := chained r fileName q in
  let shaSum := StoreSpec.ComputeSum recReq in
  let interaction :=
    {| IRequest := recReq; ShaSum := shaSum;
       IResponse := {| StatusCode := RStatusCode resp; RespHeader := RHeader resp;
                       RespBody := body |} |} in
  let o := handleRequest r fs w req env in
  GetRecordingFileName q = Ok fileName /\
  disk o !! path
    = Some (JSONFile {| RecordID := RecordID (entryOf r fileName);
                        Interactions := Interactions (entryOf r fileName) ++ [interaction] |}) /\
  (seenFiles r !! fileName = None ->
     PreviousRequest recReq = HeadSHA /\ shaSum = fileName /\
     disk o !! path
       = Some (JSONFile {| RecordID := fileName; Interactions := [interaction] |}) /\
     prevRequestSHA (proxy o) = prevRequestSHA r) /\
  (fileName <> shaSum -> prevRequestSHA (proxy o) = shaSum) /\
  (fileName = shaSum -> prevRequestSHA (proxy o) = prevRequestSHA r).
Proof.
  intros Hpath Hup Hq Hp fileName path Ho Hm Hw recReq shaSum interaction o.
  assert (Hf : GetRecordingFileName q = Ok fileName) by reflexivity.
  pose proof (recordResponse_success r fs recReq resp fileName shaSum body env _
                eq_refl Ho Hm Hw) as Hr.
  destruct (handleRequest_recorded r _ fs _ w w' req env q fileName body resp _
              Hpath Hup Hq Hf Hp Hr) as (Hd & _ & _ & Hproxy).
  fold o in Hd, Hproxy.
  assert (Hprev : prevRequestSHA (withEntry r fileName) = prevRequestSHA r).
  { unfold withEntry. now destruct (seenFiles r !! fileName). }
  assert (Hlook : disk o !! path
    = Some (JSONFile {| RecordID := RecordID (entryOf r fileName);
                        Interactions := Interactions (entryOf r fileName) ++ [interaction] |})).
  { rewrite Hd. apply lookup_insert_eq. }
  split; [exact Hf|]. split; [exact Hlook|]. split; [|split].
  - intros Hnew.
    assert (HrecReq : recReq = setPreviousRequest q HeadSHA).
    { unfold recReq, chained. now rewrite Hnew. }
    assert (Hsha : shaSum = fileName).
    { unfold shaSum. now rewrite HrecReq. }
    split; [now rewrite HrecReq|]. split; [exact Hsha|]. split.
    + rewrite Hlook. unfold entryOf. rewrite Hnew. reflexivity.
    + rewrite Hproxy.
      destruct (decide _) as [Hne|_]; [now symmetry in Hsha | exact Hprev].
  - intros Hne. rewrite Hproxy.
    destruct (decide _) as [_|Heq]; [reflexivity|contradiction].
  - intros Heq. rewrite Hproxy.
    destruct (decide _) as [Hne|_]; [contradiction|exact Hprev].
Qed.

End ChainStep.

Lemma hash_chain_step_witness :
  let r := Examples.freshProxy (Examples.endpoint "https" []) in
  let req := Examples.get "/x" ∅ in
  let env := Examples.world (Ok (Examples.okResponse ∅)) None None in
  let o := @handleRequest (@StoreSpec.storeAPI Examples.textOnly) Examples.literalRegexp
             r ∅ newResponseWriter req env in
  Path req <> Health (config r) /\
  exists fileName interaction,
    disk o !! Join "recordings" (fileName +:+ ".json")
      = Some (JSONFile {| RecordID := fileName; Interactions := [interaction] |}) /\
    ShaSum interaction = fileName /\
    PreviousRequest (IRequest interaction) = HeadSHA /\
    prevRequestSHA (proxy o) = HeadSHA.
Proof.
  intros r req env o. split; [vm_compute; discriminate|].
  edestruct (@hash_chain_step Examples.textOnly Examples.literalRegexp
               r ∅ newResponseWriter) with (req := req) (env := env)
    as (_ & _ & Hnew & _).
  - vm_compute; discriminate.
  - vm_compute; discriminate.
  - vm_compute; reflexivity.
  - vm_compute; reflexivity.
  - reflexivity.
  - reflexivity.
  - reflexivity.
  - destruct Hnew as (Hprev & Hsha & Hlook & Hchain); [vm_compute; reflexivity|].
    eexists _, _. split; [exact Hlook|]. split; [exact Hsha|]. split; [exact Hprev|].
    exact Hchain.
Defined.

(** *** What one request can do to the proxy and to the files *)

Section HandlerCases.

Context `{StoreAPI} `{RegexpAPI}.

(** The WebSocket branch leaves the proxy alone and writes at most the log of
    the session. *)
Lemma proxyWebsocket_frame (r : RecordingHTTPSProxy) (fs : Disk) (w : ResponseWriter)
    (out : list string) (req : Http.Request) (fileName : string) (env : Env) :
  let o := proxyWebsocket r fs w out req fileName env in
  proxy o = r /\
  (disk o = fs \/
   exists bytes, disk o
     = <[Join (recordingDir r) (fileName +:+ ".websocket.log") := LogFile bytes]> fs).
Proof.
  unfold proxyWebsocket.
  destruct (upgradeConnectionToWebsocket r w req env) as [w' [u|err]]; cbn.
  - destruct (CreateError env _); cbn; [split; [reflexivity | now left]|].
    destruct (writeRecords env 0 _ EmptyString) as [written failure]. cbn.
    split; [reflexivity|]. right. now exists written.
  - split; [reflexivity | now left].
Qed.

(** The three ways of a request through the handler: it leaves everything as
    it was; it is a WebSocket upgrade; or it is proxied and [recordResponse] is
    called. *)
Lemma handleRequest_cases (r : RecordingHTTPSProxy) (fs : Disk) (w : ResponseWriter)
    (req : Http.Request) (env : Env) :
  let o := handleRequest r fs w req env in
  (proxy o = r /\ disk o = fs) \/
  (exists q fileName out,
      redactRequest r req = Ok q /\ GetRecordingFileName q = Ok fileName /\
      Get (ReqHeader req) "Upgrade" = "websocket" /\
      o = proxyWebsocket r fs w out req fileName env) \/
  (exists q fileName w' resp body r' fs' res,
      Path req <> Health (config r) /\
      Get (ReqHeader req) "Upgrade" <> "websocket" /\
      redactRequest r req = Ok q /\ GetRecordingFileName q = Ok fileName /\
      proxyRequest r w req env = (w', Done (Ok (resp, body))) /\
      recordResponse r fs (chained r fileName q) resp fileName
        (ComputeSum (chained r fileName q)) body env = (r', fs', res) /\
      disk o = fs' /\
      (proxy o = r' \/
       proxy o = setPrevRequestSHA r' (ComputeSum (chained r fileName q)) /\
       fileName <> ComputeSum (chained r fileName q) /\ exists u, res = Ok u)).
Proof.
  unfold handleRequest.
  destruct (decide (Path req = Health (config r))) as [|Hpath]; [now left|].
  destruct (redactRequest r req) as [q|err] eqn:Hq; [|now left].
  destruct (GetRecordingFileName q) as [fileName|err] eqn:Hf; [|now left].
  fold (chained r fileName q).
  destruct (decide (Get (ReqHeader req) "Upgrade" = "websocket")) as [Hup|Hup].
  { right; left. eauto 10. }
  destruct (proxyRequest r w req env) as [w' [[[resp body]|err]|msg]] eqn:Hp;
    [|now left|now left].
  destruct (recordResponse r fs _ resp fileName _ body env) as [[r' fs'] res] eqn:Hr.
  right; right. exists q, fileName, w', resp, body, r', fs', res.
  repeat (split; [assumption || reflexivity|]).
  destruct res as [u|err]; cbn.
  - split; [reflexivity|]. destruct (decide _) as [Hne|Heq]; [|now left].
    right. eauto.
  - split; [reflexivity | now left].
Qed.

(** A request never moves [prevRequestSHA] when it is not recorded, never
    changes the configuration, and adds to the map at most its file name,
    with an entry that holds no interaction. *)
Lemma handleRequest_seenFiles (r : RecordingHTTPSProxy) (fs : Disk) (w : ResponseWriter)
    (req : Http.Request) (env : Env) (name : string) :
  let o := handleRequest r fs w req env in
  seenFiles (proxy o) !! name = seenFiles r !! name \/
  seenFiles r !! name = None /\
  seenFiles (proxy o) !! name = Some {| RecordID := name; Interactions := [] |}.
Proof.
  intros o. pose proof (handleRequest_cases r fs w req env) as Hc.
  cbv zeta in Hc. fold o in Hc. destruct Hc as [[-> _]|[Hws|Hrec]].
  - now left.
  - destruct Hws as (q & fileName & out & _ & _ & _ & Ho). rewrite Ho.
    destruct (proxyWebsocket_frame r fs w out req fileName env) as [-> _]. now left.
  - destruct Hrec as (q & fileName & w' & resp & body & r' & fs' & res &
                      _ & _ & _ & _ & _ & Hr & _ & Hproxy).
    assert (Hseen : seenFiles (proxy o) = seenFiles r').
    { destruct Hproxy as [->|[-> _]]; reflexivity. }
    rewrite Hseen. apply recordResponse_frame in Hr as (_ & _ & _ & _ & _ & Hother & Hthis).
    destruct (decide (name = fileName)) as [->|Hne]; [|left; now apply Hother].
    rewrite Hthis. destruct (seenFiles r !! fileName) as [entry|]; [now left|].
    destruct (NewRecordedResponse resp body); [right; now split | now left].
Qed.

(** Every JSON artifact a request writes holds the entry of the map with one
    interaction appended. *)
Lemma handleRequest_written (r : RecordingHTTPSProxy) (fs : Disk) (w : ResponseWriter)
    (req : Http.Request) (env : Env) (path : string) (rf : RecordFile) :
  let o := handleRequest r fs w req env in
  disk o !! path = Some (JSONFile rf) ->
  fs !! path = Some (JSONFile rf) \/
  exists fileName interaction,
    rf = {| RecordID := RecordID (entryOf r fileName);
            Interactions := Interactions (entryOf r fileName) ++ [interaction] |}.
Proof.
  intros o Hlook. pose proof (handleRequest_cases r fs w req env) as Hc.
  cbv zeta in Hc. fold o in Hc. destruct Hc as [[_ Hd]|[Hws|Hrec]].
  - rewrite Hd in Hlook. now left.
  - destruct Hws as (q & fileName & out & _ & _ & _ & Ho). rewrite Ho in Hlook.
    destruct (proxyWebsocket_frame r fs w out req fileName env) as [_ [Hd|[bytes Hd]]];
      rewrite Hd in Hlook; [now left|].
    destruct (decide (Join (recordingDir r) (fileName +:+ ".websocket.log") = path))
      as [<-|Hne].
    + rewrite lookup_insert_eq in Hlook. discriminate.
    + rewrite lookup_insert_ne in Hlook by exact Hne. now left.
  - destruct Hrec as (q & fileName & w' & resp & body & r' & fs' & res &
                      _ & _ & _ & _ & _ & Hr & Hd & _).
    rewrite Hd in Hlook.
    destruct (decide (path = Join (recordingDir r) (fileName +:+ ".json"))) as [->|Hne].
    2:{ apply recordResponse_frame in Hr as (_ & _ & _ & _ & Hother & _).
        rewrite Hother in Hlook by exact Hne. now left. }
    destruct res as [u|err].
    + apply recordResponse_ok in Hr as (rr & _ & ->).
      rewrite lookup_insert_eq in Hlook. injection Hlook as <-. right. eauto.
    + apply recordResponse_err in Hr as [->| ->]; [now left|].
      rewrite lookup_insert_eq in Hlook. discriminate.
Qed.

End HandlerCases.

(** *** The interactions kept in a record file *)

Section Retention.

Context `{StoreAPI} `{RegexpAPI}.

Lemma entryOf_empty (r : RecordingHTTPSProxy) (fileName : string) :
  entriesEmpty r -> Interactions (entryOf r fileName) = [].
Proof.
  intros Hr. unfold entryOf. destruct (seenFiles r !! fileName) as [rf|] eqn:E; [|reflexivity].
  exact (Hr _ _ E).
Qed.

Lemma handleRequest_retention (r : RecordingHTTPSProxy) (fs : Disk) (w : ResponseWriter)
    (req : Http.Request) (env : Env) :
  entriesEmpty r -> singleInteraction fs ->
  entriesEmpty (proxy (handleRequest r fs w req env)) /\
  singleInteraction (disk (handleRequest r fs w req env)).
Proof.
  intros Hr Hfs. split.
  - intros name rf Hlook.
    destruct (handleRequest_seenFiles r fs w req env name) as [E|[_ E]];
      rewrite E in Hlook; [exact (Hr _ _ Hlook) | now injection Hlook as <-].
  - intros path rf Hlook.
    apply handleRequest_written in Hlook as [Hold|(fileName & interaction & ->)];
      [exact (Hfs _ _ Hold)|].
    cbn. now rewrite entryOf_empty.
Qed.

(** Along a run the appended interactions are never stored back in the map:
    whatever the requests, a JSON artifact never holds more than the
    interaction of the last request recorded in it. *)
Lemma serve_retention (reqs : list (Http.Request * Env)) (r : RecordingHTTPSProxy)
    (fs : Disk) :
  entriesEmpty r -> singleInteraction fs ->
  entriesEmpty (serve r fs reqs).1 /\ singleInteraction (serve r fs reqs).2.
Proof.
  revert r fs. induction reqs as [|[req env] reqs IH]; intros r fs Hr Hfs; [now split|].
  cbn [serve]. destruct (handleRequest_retention r fs newResponseWriter req env Hr Hfs).
  now apply IH.
Qed.

Lemma fresh_run_retention (cfg : EndpointConfig) (dir : string) (red : Redact)
    (reqs : list (Http.Request * Env)) :
  singleInteraction (serve (NewRecordingHTTPSProxy cfg dir red) ∅ reqs).2.
Proof.
  apply serve_retention.
  - intros name rf Hlook. cbn in Hlook. now rewrite lookup_empty in Hlook.
  - intros path rf Hlook. now rewrite lookup_empty in Hlook.
Qed.

End Retention.

Section ChainAtHead.

Context `{StoreSpec.JSONAPI} `{RegexpAPI}.
#[local] Existing Instance StoreSpec.storeAPI.

Lemma setPreviousRequest_same (q : RecordedRequest) :
  setPreviousRequest q (PreviousRequest q) = q.
Proof. now destruct q. Qed.

Lemma redactRequest_previous (r : RecordingHTTPSProxy) (req : Http.Request)
    (q : RecordedRequest) :
  redactRequest r req = Ok q -> PreviousRequest q = prevRequestSHA r.
Proof.
  unfold redactRequest. cbn. unfold StoreSpec.NewRecordedRequest.
  destruct (Body req); [|discriminate]. now intros [= <-].
Qed.

(** With the file name derived as the spec says, the sum of a request handled
    while [prevRequestSHA] is [HeadSHA] is its file name, so the chain does not
    leave [HeadSHA]. *)
Lemma chain_stays_at_head (r : RecordingHTTPSProxy) (fs : Disk) (w : ResponseWriter)
    (req : Http.Request) (env : Env) :
  prevRequestSHA r = HeadSHA ->
  prevRequestSHA (proxy (handleRequest r fs w req env)) = HeadSHA.
Proof.
  intros Hhead. pose proof (handleRequest_cases r fs w req env) as Hc. cbv zeta in Hc.
  destruct Hc as [[-> _]|[(q & f & out & _ & _ & _ & ->)|Hrec]]; [exact Hhead| |].
  - now destruct (proxyWebsocket_frame r fs w out req f env) as [-> _].
  - destruct Hrec as (q & f & w' & resp & body & r' & fs' & res &
                      _ & _ & Hq & Hf & _ & Hr & _ & Hproxy).
    apply recordResponse_frame in Hr as (Hprev & _).
    destruct Hproxy as [->|(_ & Hne & _)]; [congruence|].
    exfalso. apply Hne. injection Hf as <-.
    apply redactRequest_previous in Hq. rewrite Hhead in Hq.
    unfold chained. destruct (seenFiles r !! _); [|reflexivity].
    now rewrite <- Hq, setPreviousRequest_same.
Qed.

Lemma fresh_run_stays_at_head (cfg : EndpointConfig) (dir : string) (red : Redact)
    (reqs : list (Http.Request * Env)) :
  prevRequestSHA (serve (NewRecordingHTTPSProxy cfg dir red) ∅ reqs).1 = HeadSHA.
Proof.
  assert (Hgen : forall r fs, prevRequestSHA r = HeadSHA ->
                              prevRequestSHA (serve r fs reqs).1 = HeadSHA).
  { induction reqs as [|[req env] reqs IH]; intros r fs Hr; [exact Hr|].
    cbn [serve]. apply IH. now apply chain_stays_at_head. }
  now apply Hgen.
Qed.

End ChainAtHead.

(** C1, on the code: two successive identical requests [GET /x], both proxied
    and recorded without error, map to the same file; after the second, the
    JSON artifact holds one interaction, not two, and the entry of the proxy's
    map holds none. *)
Theorem two_identical_gets_keep_one_interaction :
  let r := Examples.freshProxy (Examples.endpoint "https" []) in
  let env := Examples.world (Ok (Examples.okResponse ∅)) None None in
  let run := @serve (@StoreSpec.storeAPI Examples.textOnly) Examples.literalRegexp
               r ∅ [(Examples.get "/x" ∅, env); (Examples.get "/x" ∅, env)] in
  let fileName := "5953f33637a281aa38b73ad601755717f460abfae9623467a92ff20a00abb0b8" in
  exists interaction,
    map_to_list run.2
      = [(Join "recordings" (fileName +:+ ".json"),
          JSONFile {| RecordID := fileName; Interactions := [interaction] |})] /\
    map_to_list (seenFiles run.1)
      = [(fileName, {| RecordID := fileName; Interactions := [] |})] /\
    ShaSum interaction = fileName /\
    PreviousRequest (IRequest interaction) = HeadSHA /\
    prevRequestSHA run.1 = HeadSHA.
Proof. cbv zeta. eexists. repeat apply conj; vm_compute; reflexivity. Qed.

(** *** WebSocket upgrades *)

Lemma lastByte_app (a b : string) : b <> EmptyString -> lastByte (a +:+ b) = lastByte b.
Proof.
  intros Hb. induction a as [|c a IH]; [reflexivity|].
  rewrite str_app_cons. cbn [lastByte]. rewrite IH.
  destruct (a +:+ b) eqn:E; [|reflexivity].
  destruct a; [|discriminate]. now rewrite str_app_nil_l in E.
Qed.

(** The JSON artifact of a record file and the log of a WebSocket session
    never share a path. *)
Lemma json_path_not_log_path (dir name name' : string) :
  Join dir (name +:+ ".json") <> Join dir (name' +:+ ".websocket.log").
Proof.
  unfold Join. intros E. apply (f_equal lastByte) in E.
  rewrite <- !str_app_assoc in E.
  rewrite (lastByte_app _ ".json"), (lastByte_app _ ".websocket.log") in E by discriminate.
  discriminate.
Qed.

(** C9: a WebSocket upgrade request appends no interaction to any JSON record
    file (every JSON artifact on disk after it was there before it, with the
    same content), does not move [prevRequestSHA] and does not mark its file
    name as seen.  So when the name was not seen before the upgrade, a later
    request that is no upgrade, has the same file name, and is proxied and
    recorded, is the first of a new file: its previous request is reset to
    [HeadSHA] and the artifact written holds that one interaction. *)
Theorem websocket_upgrade_records_nothing `{StoreAPI} `{RegexpAPI}
    (r : RecordingHTTPSProxy) (fs : Disk) (w : ResponseWriter) (req : Http.Request)
    (env : Env) :
  Path req <> Health (config r) ->
  Get (ReqHeader req) "Upgrade" = "websocket" ->
  let o := handleRequest r fs w req env in
  prevRequestSHA (proxy o) = prevRequestSHA r /\
  seenFiles (proxy o) = seenFiles r /\
  (forall name, disk o !! Join (recordingDir r) (name +:+ ".json")
                = fs !! Join (recordingDir r) (name +:+ ".json")) /\
  (forall path rf, disk o !! path = Some (JSONFile rf) -> fs !! path = Some (JSONFile rf)) /\
  (forall q fileName, redactRequest r req = Ok q -> GetRecordingFileName q = Ok fileName ->
     seenFiles r !! fileName = None ->
     forall w2 w2' req2 env2 q2 resp2 body2 rr,
       Path req2 <> Health (config r) ->
       Get (ReqHeader req2) "Upgrade" <> "websocket" ->
       redactRequest (proxy o) req2 = Ok q2 ->
       GetRecordingFileName q2 = Ok fileName ->
       proxyRequest (proxy o) w2 req2 env2 = (w2', Done (Ok (resp2, body2))) ->
       NewRecordedResponse resp2 body2 = Ok rr ->
       OpenFileError env2 (Join (recordingDir r) (fileName +:+ ".json")) = None ->
       (forall rf, MarshalIndentError env2 rf = None) ->
       WriteStringError env2 = None ->
       let first := setPreviousRequest q2 HeadSHA in
       PreviousRequest first = HeadSHA /\
       disk (handleRequest (proxy o) (disk o) w2 req2 env2)
         !! Join (recordingDir r) (fileName +:+ ".json")
       = Some (JSONFile {| RecordID := fileName;
                           Interactions := [{| IRequest := first; ShaSum := ComputeSum first;
                                               IResponse := rr |}] |})).
Proof.
  intros Hpath Hup o.
  assert (Hcases : proxy o = r /\
            (disk o = fs \/ exists fileName bytes,
               disk o = <[Join (recordingDir r) (fileName +:+ ".websocket.log")
                          := LogFile bytes]> fs)).
  { subst o. unfold handleRequest.
    destruct (decide (Path req = Health (config r))); [contradiction|].
    destruct (redactRequest r req) as [q|err]; [|split; [reflexivity | now left]].
    destruct (GetRecordingFileName q) as [fileName|err]; [|split; [reflexivity | now left]].
    destruct (decide (Get (ReqHeader req) "Upgrade" = "websocket")); [|contradiction].
    destruct (proxyWebsocket_frame r fs w
                (["Recording request: " +:+ Method req +:+ " " +:+ URLString req +:+ LF]
                 ++ ["Upgrading connection to websocket..." +:+ LF]) req fileName env)
      as [Hproxy [Hd|[bytes Hd]]]; (split; [exact Hproxy|]); [now left | right; eauto]. }
  destruct Hcases as [Hproxy Hdisk].
  assert (Hjson : forall name, disk o !! Join (recordingDir r) (name +:+ ".json")
                               = fs !! Join (recordingDir r) (name +:+ ".json")).
  { intros name. destruct Hdisk as [->|(f & bytes & ->)]; [reflexivity|].
    apply lookup_insert_ne. intros E. symmetry in E. revert E. apply json_path_not_log_path. }
  rewrite Hproxy. split; [reflexivity|]. split; [reflexivity|]. split; [exact Hjson|]. split.
  - intros path rf Hlook. destruct Hdisk as [Hd|(f & bytes & Hd)]; rewrite Hd in Hlook;
      [exact Hlook|].
    destruct (decide (Join (recordingDir r) (f +:+ ".websocket.log") = path)) as [<-|Hne].
    + rewrite lookup_insert_eq in Hlook. discriminate.
    + now rewrite lookup_insert_ne in Hlook.
  - intros q fileName Hq Hf Hnew w2 w2' req2 env2 q2 resp2 body2 rr
           Hpath2 Hup2 Hq2 Hf2 Hp2 Hrr Ho Hm Hw first.
    split; [reflexivity|].
    assert (Hchained : chained r fileName q2 = first).
    { unfold chained. now rewrite Hnew. }
    pose proof (recordResponse_success r (disk o) first resp2 fileName (ComputeSum first)
                  body2 env2 rr Hrr Ho Hm Hw) as Hr.
    rewrite <- Hchained in Hr at 1 2.
    destruct (handleRequest_recorded r _ (disk o) _ w2 w2' req2 env2 q2 fileName body2 resp2 _
                Hpath2 Hup2 Hq2 Hf2 Hp2 Hr) as (Hd & _).
    rewrite Hd, lookup_insert_eq. unfold entryOf. rewrite Hnew. reflexivity.
Qed.

Lemma websocket_upgrade_records_nothing_witness :
  let r := Examples.freshProxy (Examples.dropping ["Upgrade"] (Examples.endpoint "https" [])) in
  let upgrade := Examples.get "/ws" Examples.upgradeHeader in
  let later := Examples.get "/ws" ∅ in
  let env2 := Examples.world (Ok (Examples.okResponse ∅)) None None in
  let handle := @handleRequest (@StoreSpec.storeAPI Examples.textOnly) Examples.literalRegexp in
  let o := handle r ∅ newResponseWriter upgrade (Examples.echoSession "hello-secret") in
  Get (ReqHeader upgrade) "Upgrade" = "websocket" /\
  prevRequestSHA (proxy o) = HeadSHA /\ seenFiles (proxy o) = ∅ /\
  exists fileName interaction,
    disk (handle (proxy o) (disk o) newResponseWriter later env2)
      !! Join "recordings" (fileName +:+ ".json")
    = Some (JSONFile {| RecordID := fileName; Interactions := [interaction] |}) /\
    PreviousRequest (IRequest interaction) = HeadSHA.
Proof.
  intros r upgrade later env2 handle o. subst handle.
  destruct (@websocket_upgrade_records_nothing
              (@StoreSpec.storeAPI Examples.textOnly) Examples.literalRegexp
              r ∅ newResponseWriter upgrade (Examples.echoSession "hello-secret"))
    as (Hprev & Hseen & _ & _ & Hlater).
  - vm_compute; discriminate.
  - vm_compute; reflexivity.
  - split; [vm_compute; reflexivity|]. split; [exact Hprev|]. split; [exact Hseen|].
    edestruct Hlater with (w2 := newResponseWriter) (req2 := later) (env2 := env2)
      as [Hfirst Hlook].
    + vm_compute; reflexivity.
    + vm_compute; reflexivity.
    + vm_compute; reflexivity.
    + vm_compute; discriminate.
    + vm_compute; discriminate.
    + vm_compute; reflexivity.
    + vm_compute; reflexivity.
    + vm_compute; reflexivity.
    + reflexivity.
    + reflexivity.
    + reflexivity.
    + reflexivity.
    + eexists _, _. split; [exact Hlook | exact Hfirst].
Defined.

(** *** Failures *)

(** C3, as stated, fails: after a first [GET /x] is recorded, a second one
    whose write to the file fails (the file was opened, and so truncated)
    leaves the client with the upstream's status 200, already sent, and the
    artifact of the first request destroyed. *)
Lemma failed_write_truncates :
  let r := Examples.freshProxy (Examples.endpoint "https" []) in
  let good := Examples.world (Ok (Examples.okResponse ∅)) None None in
  let bad := Examples.world (Ok (Examples.okResponse ∅)) None (Some "no space left on device") in
  let path := "recordings/5953f33637a281aa38b73ad601755717f460abfae9623467a92ff20a00abb0b8.json" in
  let first := @handleRequest (@StoreSpec.storeAPI Examples.textOnly) Examples.literalRegexp
                 r ∅ newResponseWriter (Examples.get "/x" ∅) good in
  let second := @handleRequest (@StoreSpec.storeAPI Examples.textOnly) Examples.literalRegexp
                  (proxy first) (disk first) newResponseWriter (Examples.get "/x" ∅) bad in
  WriteStringError bad = Some "no space left on device" /\
  (exists rf, disk first !! path = Some (JSONFile rf)) /\
  clientStatus (writer second) = 200 /\
  disk second !! path = Some TruncatedFile.
Proof.
  cbv zeta. split; [vm_compute; reflexivity|]. split; [eexists; vm_compute; reflexivity|].
  split; vm_compute; reflexivity.
Qed.

Section Failures.

Context `{StoreAPI} `{RegexpAPI}.

(** The answer [http.Error] gives on a writer nothing was sent on. *)
Lemma Error_fresh (msg : string) :
  clientStatus (Error newResponseWriter msg StatusInternalServerError) = 500 /\
  Written (Error newResponseWriter msg StatusInternalServerError) = msg +:+ LF.
Proof. split; reflexivity. Qed.

(** The proxied request fails before anything is sent to the client when the
    request body cannot be read, the upstream request cannot be built, or the
    upstream does not answer. *)
Lemma proxyRequest_early_failure (r : RecordingHTTPSProxy) (w : ResponseWriter)
    (req : Http.Request) (env : Env) (err : string) :
  Body req = Err err \/
  (exists body, Body req = Ok body /\
     (NewRequestError env (Method req) (proxyURL r req) = Some err \/
      NewRequestError env (Method req) (proxyURL r req) = None /\
      Do env {| CMethod := Method req; CURL := proxyURL r req;
                CHeader := addHeaders ∅ (ReqHeader req); CBody := body |} = Err err)) ->
  proxyRequest r w req env = (w, Done (Err err)).
Proof.
  unfold proxyRequest. intros [->|(body & -> & [->|[-> ->]])]; reflexivity.
Qed.

End Failures.

(** C3 (amended): when redaction (building the recorded request, which reads
    the request body), fingerprinting, or the dispatch of the upstream request
    fails, the client receives HTTP 500 with the error message in the body, no
    file is written, and the proxy, [prevRequestSHA] included, is left as it
    was.  When recording the response fails, [prevRequestSHA] is not advanced,
    no other file changes, and the request's JSON artifact is either as it was
    or truncated; it is as it was when the file could not be opened. *)
Theorem failure_leaves_chain `{StoreAPI} `{RegexpAPI}
    (r : RecordingHTTPSProxy) (fs : Disk) (req : Http.Request) (env : Env) :
  Path req <> Health (config r) ->
  let o := handleRequest r fs newResponseWriter req env in
  let answered500 (prefix err : string) :=
    clientStatus (writer o) = 500 /\ Written (writer o) = prefix +:+ err +:+ LF /\
    proxy o = r /\ disk o = fs in
  (forall err, redactRequest r req = Err err ->
     answered500 "Error recording request: " err) /\
  (forall q err, redactRequest r req = Ok q -> GetRecordingFileName q = Err err ->
     answered500 "Invalid recording file name: " err) /\
  (forall q fileName err,
     redactRequest r req = Ok q -> GetRecordingFileName q = Ok fileName ->
     Get (ReqHeader req) "Upgrade" <> "websocket" ->
     Body req = Err err \/
     (exists body, Body req = Ok body /\
        (NewRequestError env (Method req) (proxyURL r req) = Some err \/
         NewRequestError env (Method req) (proxyURL r req) = None /\
         Do env {| CMethod := Method req; CURL := proxyURL r req;
                   CHeader := addHeaders ∅ (ReqHeader req); CBody := body |} = Err err)) ->
     answered500 "Error proxying request: " err) /\
  (forall q fileName w' resp body r' fs' err,
     redactRequest r req = Ok q -> GetRecordingFileName q = Ok fileName ->
     Get (ReqHeader req) "Upgrade" <> "websocket" ->
     proxyRequest r newResponseWriter req env = (w', Done (Ok (resp, body))) ->
     recordResponse r fs (chained r fileName q) resp fileName
       (ComputeSum (chained r fileName q)) body env = (r', fs', Err err) ->
     let path := Join (recordingDir r) (fileName +:+ ".json") in
     prevRequestSHA (proxy o) = prevRequestSHA r /\
     (forall other, other <> path -> disk o !! other = fs !! other) /\
     (disk o = fs \/ disk o = <[path := TruncatedFile]> fs) /\
     (OpenFileError env path <> None -> disk o = fs)).
Proof.
  intros Hpath o answered500. subst answered500. cbv beta.
  assert (Hunfold : o = handleRequest r fs newResponseWriter req env) by reflexivity.
  unfold handleRequest in Hunfold.
  destruct (decide (Path req = Health (config r))); [contradiction|].
  split; [|split; [|split]].
  - intros err Hq. rewrite Hq in Hunfold. rewrite Hunfold. cbn.
    rewrite str_app_assoc. repeat split; reflexivity.
  - intros q err Hq Hf. rewrite Hq, Hf in Hunfold. rewrite Hunfold. cbn.
    rewrite str_app_assoc. repeat split; reflexivity.
  - intros q fileName err Hq Hf Hup Hfail. rewrite Hq, Hf in Hunfold.
    destruct (decide (Get (ReqHeader req) "Upgrade" = "websocket")); [contradiction|].
    rewrite (proxyRequest_early_failure r newResponseWriter req env err Hfail) in Hunfold.
    rewrite Hunfold. cbn. rewrite str_app_assoc. repeat split; reflexivity.
  - intros q fileName w' resp body r' fs' err Hq Hf Hup Hp Hr path.
    destruct (handleRequest_recorded r r' fs fs' newResponseWriter w' req env q fileName body
                resp (Err err) Hpath Hup Hq Hf Hp Hr) as (Hd & _ & _ & Hproxy).
    fold o in Hd, Hproxy. rewrite Hd, Hproxy.
    pose proof (recordResponse_frame _ _ _ _ _ _ _ _ _ _ _ Hr) as (Hprev & _ & _ & _ & Hother & _).
    split; [exact Hprev|]. split; [exact Hother|].
    split; [exact (recordResponse_err _ _ _ _ _ _ _ _ _ _ _ Hr)|].
    intros Hopen. destruct (OpenFileError env path) as [e|] eqn:E; [|contradiction].
    pose proof (recordResponse_err_open r fs (chained r fileName q) resp fileName
                  (ComputeSum (chained r fileName q)) body env e E) as Hfs.
    now rewrite Hr in Hfs.
Qed.

Lemma failure_leaves_chain_witness :
  let r := Examples.freshProxy (Examples.endpoint "https" []) in
  let req := Examples.get "/x" ∅ in
  let down := Examples.world (Err "connection refused") None None in
  let readonly := Examples.world (Ok (Examples.okResponse ∅)) (Some "permission denied") None in
  let o1 := @handleRequest (@StoreSpec.storeAPI Examples.textOnly) Examples.literalRegexp
              r ∅ newResponseWriter req down in
  let o2 := @handleRequest (@StoreSpec.storeAPI Examples.textOnly) Examples.literalRegexp
              r ∅ newResponseWriter req readonly in
  Path req <> Health (config r) /\
  (clientStatus (writer o1) = 500 /\
   Written (writer o1) = "Error proxying request: " +:+ "connection refused" +:+ LF /\
   proxy o1 = r /\ disk o1 = ∅) /\
  (prevRequestSHA (proxy o2) = HeadSHA /\ disk o2 = ∅).
Proof.
  intros r req down readonly o1 o2.
  assert (Hpath : Path req <> Health (config r)) by (vm_compute; discriminate).
  split; [exact Hpath|]. split.
  - destruct (@failure_leaves_chain (@StoreSpec.storeAPI Examples.textOnly)
                Examples.literalRegexp r ∅ req down Hpath) as (_ & _ & Hproxy & _).
    eapply Hproxy.
    + vm_compute; reflexivity.
    + vm_compute; reflexivity.
    + vm_compute; discriminate.
    + right. eexists. split; [reflexivity|]. right. split; reflexivity.
  - destruct (@failure_leaves_chain (@StoreSpec.storeAPI Examples.textOnly)
                Examples.literalRegexp r ∅ req readonly Hpath) as (_ & _ & _ & Hrecord).
    edestruct Hrecord as (Hprev & _ & _ & Hopen).
    + vm_compute; reflexivity.
    + vm_compute; reflexivity.
    + vm_compute; discriminate.
    + vm_compute; reflexivity.
    + vm_compute; reflexivity.
    + split; [exact Hprev|]. apply Hopen. discriminate.
Defined.

(** ** Further properties of the recording proxy *)

(** *** The response headers through the rewriter and to the client *)

Section HeaderShape.

Context `{RegexpAPI}.

Lemma replaceValues_valid (values : list string) (regex replacement : string) :
  is_Some (Compile regex) ->
  exists values', replaceValues values regex replacement = Done values'.
Proof.
  intros [re Hre]. induction values as [|v values [rest IH]]; [now exists []|].
  cbn [replaceValues]. unfold replaceRegex. rewrite Hre, IH. eauto.
Qed.

(** The rewriter with every configured pattern valid: it returns, and what it
    returns has the same header names, each with as many values as before;
    a header no replacement names keeps its values. *)
Lemma applyReplacements_shape (replacements : list HeaderReplacement) (headers : Header) :
  Forall (fun rep => is_Some (Compile (Regex rep))) replacements ->
  exists headers',
    applyReplacements replacements headers = Done headers' /\
    (forall name, length <$> headers' !! name = length <$> headers !! name) /\
    (forall name, name ∉ Header_ <$> replacements -> headers' !! name = headers !! name).
Proof.
  intros Hvalid. revert headers.
  induction Hvalid as [|rep rest Hrep _ IH]; intros headers.
  - exists headers. repeat split; reflexivity.
  - cbn [applyReplacements]. destruct (headers !! Header_ rep) as [values|] eqn:Hlook.
    + destruct (replaceValues_valid values (Regex rep) (Replace rep) Hrep) as [values' Hr].
      rewrite Hr. apply replaceValues_length in Hr.
      destruct (IH (<[Header_ rep := values']> headers)) as (headers' & -> & Hlen & Hother).
      exists headers'. split; [reflexivity|]. split.
      * intros name. rewrite Hlen. destruct (decide (name = Header_ rep)) as [->|Hne].
        -- rewrite lookup_insert_eq, Hlook. cbn. now rewrite Hr.
        -- now rewrite lookup_insert_ne.
      * intros name Hname. rewrite fmap_cons in Hname.
        apply not_elem_of_cons in Hname as [Hne Hname].
        rewrite Hother by exact Hname. now rewrite lookup_insert_ne.
    + destruct (IH headers) as (headers' & -> & Hlen & Hother).
      exists headers'. split; [reflexivity|]. split; [exact Hlen|].
      intros name Hname. rewrite fmap_cons in Hname.
      apply not_elem_of_cons in Hname as [_ Hname]. now apply Hother.
Qed.

(** The replacements are applied in the order of the configuration, each to
    the headers the ones before it left. *)
Lemma applyReplacements_app (first second : list HeaderReplacement) (headers : Header) :
  applyReplacements (first ++ second) headers
  = match applyReplacements first headers with
    | Done headers' => applyReplacements second headers'
    | Panic msg => Panic msg
    end.
Proof.
  revert headers. induction first as [|rep first IH]; intros headers; [reflexivity|].
  cbn [app applyReplacements]. destruct (headers !! Header_ rep) as [values|]; [|apply IH].
  destruct (replaceValues values (Regex rep) (Replace rep)); [apply IH | reflexivity].
Qed.

(** One replacement rewrites every value of its header, in place. *)
Lemma replaceValues_map (values : list string) (regex replacement : string) (re : Regexp) :
  Compile regex = Some re ->
  replaceValues values regex replacement
  = Done ((fun value => ReplaceAllString re value replacement) <$> values).
Proof.
  intros Hre. induction values as [|v values IH]; [reflexivity|].
  cbn [replaceValues]. unfold replaceRegex. now rewrite Hre, IH.
Qed.

End HeaderShape.

(** X1: With every configured pattern valid, rewriting the response headers
    returns without a panic and neither adds nor removes a header or a value:
    the names are the same, each with as many values as before, and a header
    that no replacement names keeps its values unchanged. *)
Theorem header_rewriter_keeps_shape `{RegexpAPI} (r : RecordingHTTPSProxy) (headers : Header) :
  Forall (fun rep => is_Some (Compile (Regex rep))) (ResponseHeaderReplacements (config r)) ->
  exists headers',
    applyResponseHeaderReplacements r headers = Done headers' /\
    (forall name, is_Some (headers' !! name) <-> is_Some (headers !! name)) /\
    (forall name values values',
       headers !! name = Some values -> headers' !! name = Some values' ->
       length values' = length values) /\
    (forall name, name ∉ Header_ <$> ResponseHeaderReplacements (config r) ->
       headers' !! name = headers !! name).
Proof.
  intros Hvalid. unfold applyResponseHeaderReplacements.
  destruct (applyReplacements_shape _ headers Hvalid) as (headers' & -> & Hlen & Hother).
  exists headers'. split; [reflexivity|]. split; [|split; [|exact Hother]].
  - intros name. specialize (Hlen name). rewrite <- !fmap_is_Some with (f := @length string).
    now rewrite Hlen.
  - intros name values values' Hv Hv'. specialize (Hlen name). rewrite Hv, Hv' in Hlen.
    now injection Hlen.
Qed.

Lemma header_rewriter_keeps_shape_witness :
  let r := Examples.freshProxy
             (Examples.endpoint "https" [Examples.cookieRewrite "sessionid=abc"]) in
  let headers : Header :=
    {[ "Set-Cookie" := ["sessionid=abc; Path=/"; "theme=dark"]; "Etag" := ["sessionid=abc"] ]} in
  exists headers',
    @applyResponseHeaderReplacements Examples.literalRegexp r headers = Done headers' /\
    headers' !! "Etag" = Some ["sessionid=abc"] /\
    (forall values', headers' !! "Set-Cookie" = Some values' -> length values' = 2%nat).
Proof.
  intros r headers.
  destruct (@header_rewriter_keeps_shape Examples.literalRegexp r headers)
    as (headers' & Hdone & _ & Hlen & Hother).
  - repeat constructor; vm_compute; eauto.
  - exists headers'. split; [exact Hdone|]. split.
    + rewrite Hother; [reflexivity|]. vm_compute. intros Hin.
      apply list_elem_of_singleton in Hin. discriminate.
    + intros values' Hv'. apply (Hlen "Set-Cookie" ["sessionid=abc; Path=/"; "theme=dark"]);
        [reflexivity | exact Hv'].
Defined.

(** X2: Replacements compose in the order of the configuration: rewriting with
    the list [first ++ second] is rewriting with [first] and then, on the
    headers that gives, with [second]; a panic of [first] is the panic of the
    whole.  One replacement with a valid pattern, on a header the response
    carries, replaces every value of that header by its rewriting. *)
Theorem header_rewriter_in_order `{RegexpAPI} (first second : list HeaderReplacement)
    (headers : Header) :
  applyReplacements (first ++ second) headers
  = match applyReplacements first headers with
    | Done headers' => applyReplacements second headers'
    | Panic msg => Panic msg
    end /\
  (forall rep re values,
     Compile (Regex rep) = Some re -> headers !! Header_ rep = Some values ->
     applyReplacements [rep] headers
     = Done (<[Header_ rep := (fun value => ReplaceAllString re value (Replace rep)) <$> values]>
               headers)).
Proof.
  split; [apply applyReplacements_app|].
  intros rep re values Hre Hlook. cbn [applyReplacements].
  now rewrite Hlook, (replaceValues_map values _ _ re Hre).
Qed.

Lemma header_rewriter_in_order_witness :
  let first := {| Header_ := "Location"; Regex := "http://"; Replace := "https://" |} in
  let second := {| Header_ := "Location"; Regex := "upstream.test"; Replace := "localhost" |} in
  let headers : Header := {[ "Location" := ["http://upstream.test/a"] ]} in
  @applyReplacements Examples.literalRegexp ([first] ++ [second]) headers
  = Done {[ "Location" := ["https://localhost/a"] ]}.
Proof.
  intros first second headers.
  destruct (@header_rewriter_in_order Examples.literalRegexp [first] [second] headers)
    as [-> Hone].
  rewrite (Hone first "http://" ["http://upstream.test/a"] eq_refl eq_refl).
  destruct (@header_rewriter_in_order Examples.literalRegexp [] [second]
              (<[Header_ first := (fun value => ReplaceAll value "http://" "https://")
                                    <$> ["http://upstream.test/a"]]> headers)) as [_ Htwo].
  etransitivity.
  - apply (Htwo second "upstream.test" ["https://upstream.test/a"]); vm_compute; reflexivity.
  - vm_compute. reflexivity.
Defined.

(** *** Headers copied from one map to another *)

Section HeaderCopies.

(** The loop that copies or skips by name keeps exactly the headers whose
    name passes the test, each with its values. *)
Lemma selectNames_lookup (keep : string -> bool) (h : Header) (name : string) :
  selectNames keep h !! name = if keep name then h !! name else None.
Proof.
  unfold selectNames.
  destruct (list_to_map _ !! name) as [values|] eqn:Hlook.
  - apply elem_of_list_to_map_2, list_elem_of_filter in Hlook as [Hkeep Hin].
    cbn in Hkeep. rewrite Hkeep. symmetry. now apply elem_of_map_to_list.
  - apply not_elem_of_list_to_map_2 in Hlook.
    destruct (keep name) eqn:Hkeep; [|reflexivity].
    destruct (h !! name) as [values|] eqn:Hh; [|reflexivity].
    exfalso. apply Hlook. apply list_elem_of_fmap. exists (name, values).
    split; [reflexivity|]. apply list_elem_of_filter. split; [exact Hkeep|].
    now apply elem_of_map_to_list.
Qed.

(** Adding the values of one header, one after the other. *)
Lemma fold_Add_lookup (name : string) (values : list string) (acc : Header) (k : string) :
  fold_left (fun acc value => Add acc name value) values acc !! k
  = if decide (k = name)
    then match values with
         | [] => acc !! name
         | _ :: _ => Some (default [] (acc !! name) ++ values)
         end
    else acc !! k.
Proof.
  revert acc. induction values as [|v values IH]; intros acc.
  - cbn. destruct (decide (k = name)) as [->|]; reflexivity.
  - cbn [fold_left]. rewrite IH. unfold Add at 1 2 3.
    destruct (decide (k = name)) as [->|Hne].
    + rewrite lookup_insert_eq. cbn [from_option]. unfold id.
      destruct values; [reflexivity|]. now rewrite <- app_assoc.
    + now rewrite lookup_insert_ne.
Qed.

(** Copying every value of every header of [src]: a header of [src] with
    values has them appended to those [dst] had under its name; the other
    headers of [dst] stay. *)
Lemma addHeaders_lookup (dst src : Header) (k : string) :
  addHeaders dst src !! k
  = match src !! k with
    | Some (v :: vs) => Some (default [] (dst !! k) ++ v :: vs)
    | _ => dst !! k
    end.
Proof.
  unfold addHeaders. revert k.
  apply (map_fold_weak_ind
           (fun (acc : Header) (m : Header) => forall k, acc !! k
              = match m !! k with
                | Some (v :: vs) => Some (default [] (dst !! k) ++ v :: vs)
                | _ => dst !! k
                end)).
  - intros k. now rewrite lookup_empty.
  - intros name values m acc Hfresh IH k. rewrite fold_Add_lookup.
    destruct (decide (k = name)) as [->|Hne].
    + rewrite lookup_insert_eq. specialize (IH name). rewrite Hfresh in IH.
      rewrite IH. now destruct values.
    + rewrite lookup_insert_ne by congruence. apply IH.
Qed.

End HeaderCopies.

(** *** A request proxied to the upstream *)

(** X3: The proxy is transparent for a request the upstream answers, when the
    two bodies can be read and the header rewriting does not panic: the
    request handed to the HTTP client carries every header value of the
    original (a header without values is not copied); the client's response
    writer is given the upstream's status, the upstream's headers after the
    configured replacements, and the upstream's body bytes as read; the
    response handed on to the recorder carries the same rewritten headers and
    the same bytes.  The status is a final one, 200 to 999. *)
Theorem proxied_response_passes_through `{RegexpAPI} (r : RecordingHTTPSProxy)
    (req : Http.Request) (env : Env) (reqBody body : string) (resp : Response)
    (header : Header) :
  Body req = Ok reqBody ->
  NewRequestError env (Method req) (proxyURL r req) = None ->
  Do env {| CMethod := Method req; CURL := proxyURL r req;
            CHeader := addHeaders ∅ (ReqHeader req); CBody := reqBody |} = Ok resp ->
  applyResponseHeaderReplacements r (RHeader resp) = Done header ->
  RBody resp = Ok body ->
  200 <= RStatusCode resp <= 999 ->
  (forall name, addHeaders ∅ (ReqHeader req) !! name
                = match ReqHeader req !! name with
                  | Some (v :: vs) => Some (v :: vs)
                  | _ => None
                  end) /\
  exists w sent,
    proxyRequest r newResponseWriter req env
      = (w, Done (Ok ({| RStatusCode := RStatusCode resp; RHeader := header;
                         RBody := RBody resp |}, body))) /\
    Sent w = Some (RStatusCode resp, sent) /\
    (forall name, sent !! name = match header !! name with
                                 | Some (v :: vs) => Some (v :: vs)
                                 | _ => None
                                 end) /\
    clientStatus w = RStatusCode resp /\
    Written w = body.
Proof.
  intros Hbody Hnew Hdo Hrew Hread _. split.
  { intros name. rewrite addHeaders_lookup, lookup_empty. reflexivity. }
  unfold proxyRequest. rewrite Hbody, Hnew, Hdo, Hrew. cbn [RBody RStatusCode]. rewrite Hread.
  eexists _, _. split; [reflexivity|]. cbn. split; [reflexivity|]. split.
  - intros name. rewrite addHeaders_lookup, lookup_empty. reflexivity.
  - split; reflexivity.
Qed.

Lemma proxied_response_passes_through_witness :
  let r := Examples.freshProxy
             (Examples.endpoint "https" [Examples.cookieRewrite "sessionid=abc"]) in
  let req := Examples.get "/x" {[ "Accept" := ["text/plain"; "*/*"]; "X-Empty" := [] ]} in
  let resp := {| RStatusCode := 404; RHeader := {[ "Set-Cookie" := ["sessionid=abc; Path=/"] ]};
                 RBody := Ok "not found" |} in
  let env := Examples.world (Ok resp) None None in
  exists w,
    fst (@proxyRequest Examples.literalRegexp r newResponseWriter req env) = w /\
    Sent w = Some (404, {[ "Set-Cookie" := ["sessionid=X; Path=/"] ]}) /\
    Written w = "not found".
Proof.
  intros r req resp env.
  destruct (@proxied_response_passes_through Examples.literalRegexp r req env
              EmptyString "not found" resp {[ "Set-Cookie" := ["sessionid=X; Path=/"] ]})
    as (_ & w & sent & Hp & Hsent & _ & _ & Hwritten).
  - reflexivity.
  - reflexivity.
  - reflexivity.
  - vm_compute. reflexivity.
  - reflexivity.
  - split; vm_compute; discriminate.
  - assert (Hw : fst (@proxyRequest Examples.literalRegexp r newResponseWriter req env) = w)
      by now rewrite Hp.
    exists w. split; [exact Hw|]. split; [|exact Hwritten].
    rewrite <- Hw. vm_compute. reflexivity.
Defined.

(** X4: The headers of the upstream dial are the request's without the six
    handshake and test headers: none of [Sec-Websocket-Version],
    [Sec-Websocket-Key], [Sec-Websocket-Extensions], [Connection], [Upgrade]
    and [Test-Name] is passed on, and every other header is, with its values
    unchanged.  The dial is made with these headers; when it fails, its error
    is returned before the client's connection is upgraded. *)
Theorem dial_headers_drop_handshake `{RegexpAPI} (req : Http.Request) :
  let dialHeaders :=
    selectNames (fun k => negb (bool_decide (k ∈ excludedHeaders))) (ReqHeader req) in
  (forall name, name ∈ excludedHeaders -> dialHeaders !! name = None) /\
  (forall name, name ∉ excludedHeaders -> dialHeaders !! name = ReqHeader req !! name) /\
  (forall r w env err,
     DialError env (websocketURL r req) dialHeaders = Some err ->
     upgradeConnectionToWebsocket r w req env = (w, Err err)) /\
  (forall r w env,
     DialError env (websocketURL r req) dialHeaders = None -> UpgradeError env = None ->
     snd (upgradeConnectionToWebsocket r w req env) = Ok tt).
Proof.
  intros dialHeaders. subst dialHeaders. repeat apply conj.
  - intros name Hin. rewrite selectNames_lookup. now rewrite bool_decide_eq_true_2.
  - intros name Hout. rewrite selectNames_lookup. now rewrite bool_decide_eq_false_2.
  - intros r w env err Hdial. unfold upgradeConnectionToWebsocket. now rewrite Hdial.
  - intros r w env Hdial Hup. unfold upgradeConnectionToWebsocket. now rewrite Hdial, Hup.
Qed.

Lemma dial_headers_drop_handshake_witness :
  let req := Examples.get "/ws"
               {[ "Upgrade" := ["websocket"]; "Connection" := ["Upgrade"];
                  "Sec-Websocket-Key" := ["dGhlIHNhbXBsZSBub25jZQ=="];
                  "Authorization" := ["Bearer t"; "Basic u"] ]} in
  let dialHeaders :=
    selectNames (fun k => negb (bool_decide (k ∈ excludedHeaders))) (ReqHeader req) in
  dialHeaders !! "Upgrade" = None /\ dialHeaders !! "Sec-Websocket-Key" = None /\
  dialHeaders !! "Authorization" = Some ["Bearer t"; "Basic u"].
Proof.
  intros req dialHeaders.
  destruct (@dial_headers_drop_handshake Examples.literalRegexp req) as (Hdrop & Hkeep & _).
  split; [|split].
  - apply Hdrop. apply (bool_decide_unpack _). vm_compute. exact I.
  - apply Hdrop. apply (bool_decide_unpack _). vm_compute. exact I.
  - subst dialHeaders. rewrite Hkeep; [vm_compute; reflexivity|].
    apply (bool_decide_unpack _). vm_compute. exact I.
Defined.

Section ProxiedFailures.

Context `{StoreAPI} `{RegexpAPI}.

(** X5: When reading the upstream's response body fails, the upstream's status
    line and headers have been sent already: the client is answered with the
    upstream's status (a final one, 200 to 999), not with 500; the error is
    printed, nothing is recorded and the proxy is left as it was. *)
Theorem response_body_read_failure_keeps_status (r : RecordingHTTPSProxy) (fs : Disk)
    (req : Http.Request) (env : Env) (q : RecordedRequest) (fileName reqBody err : string)
    (resp : Response) (header : Header) :
  Path req <> Health (config r) ->
  Get (ReqHeader req) "Upgrade" <> "websocket" ->
  redactRequest r req = Ok q ->
  GetRecordingFileName q = Ok fileName ->
  Body req = Ok reqBody ->
  NewRequestError env (Method req) (proxyURL r req) = None ->
  Do env {| CMethod := Method req; CURL := proxyURL r req;
            CHeader := addHeaders ∅ (ReqHeader req); CBody := reqBody |} = Ok resp ->
  applyResponseHeaderReplacements r (RHeader resp) = Done header ->
  RBody resp = Err err ->
  200 <= RStatusCode resp <= 999 ->
  let o := handleRequest r fs newResponseWriter req env in
  clientStatus (writer o) = RStatusCode resp /\
  proxy o = r /\ disk o = fs /\ panicked o = None /\
  last (stdout o) = Some ("Error proxying request: " +:+ err +:+ LF).
Proof.
  intros Hpath Hup Hq Hf Hbody Hnew Hdo Hrew Hread _ o. subst o. unfold handleRequest.
  destruct (decide (Path req = Health (config r))); [contradiction|].
  rewrite Hq, Hf.
  destruct (decide (Get (ReqHeader req) "Upgrade" = "websocket")); [contradiction|].
  unfold proxyRequest. rewrite Hbody, Hnew, Hdo, Hrew. cbn [RBody RStatusCode]. rewrite Hread.
  cbn. repeat split; reflexivity.
Qed.

(** X6: A WebSocket upgrade whose upstream cannot be dialled is answered with 500
    and the dial error; no log file is created and the proxy is left as it
    was. *)
Theorem websocket_dial_failure_answers_500 (r : RecordingHTTPSProxy) (fs : Disk)
    (req : Http.Request) (env : Env) (q : RecordedRequest) (fileName err : string) :
  Path req <> Health (config r) ->
  redactRequest r req = Ok q ->
  GetRecordingFileName q = Ok fileName ->
  Get (ReqHeader req) "Upgrade" = "websocket" ->
  DialError env (websocketURL r req)
    (selectNames (fun k => negb (bool_decide (k ∈ excludedHeaders))) (ReqHeader req))
    = Some err ->
  let o := handleRequest r fs newResponseWriter req env in
  clientStatus (writer o) = 500 /\
  Written (writer o) = "Error proxying websocket: " +:+ err +:+ LF /\
  proxy o = r /\ disk o = fs /\ panicked o = None.
Proof.
  intros Hpath Hq Hf Hup Hdial o. subst o. unfold handleRequest.
  destruct (decide (Path req = Health (config r))); [contradiction|].
  rewrite Hq, Hf.
  destruct (decide (Get (ReqHeader req) "Upgrade" = "websocket")); [|contradiction].
  unfold proxyWebsocket, upgradeConnectionToWebsocket. rewrite Hdial. cbn.
  rewrite str_app_assoc. repeat split; reflexivity.
Qed.

End ProxiedFailures.

Lemma response_body_read_failure_keeps_status_witness :
  let r := Examples.freshProxy (Examples.endpoint "https" []) in
  let req := Examples.get "/x" ∅ in
  let resp := {| RStatusCode := 200; RHeader := ∅; RBody := Err "unexpected EOF" |} in
  let env := Examples.world (Ok resp) None None in
  let o := @handleRequest (@StoreSpec.storeAPI Examples.textOnly) Examples.literalRegexp
             r ∅ newResponseWriter req env in
  clientStatus (writer o) = 200 /\ proxy o = r /\ disk o = ∅ /\
  last (stdout o) = Some ("Error proxying request: " +:+ "unexpected EOF" +:+ LF).
Proof.
  intros r req resp env o. subst o.
  edestruct (@response_body_read_failure_keeps_status (@StoreSpec.storeAPI Examples.textOnly)
               Examples.literalRegexp r ∅ req env) as (Hstatus & Hproxy & Hdisk & _ & Hout).
  - vm_compute; discriminate.
  - vm_compute; discriminate.
  - vm_compute; reflexivity.
  - vm_compute; reflexivity.
  - reflexivity.
  - reflexivity.
  - reflexivity.
  - vm_compute; reflexivity.
  - reflexivity.
  - split; vm_compute; discriminate.
  - split; [exact Hstatus|]. split; [exact Hproxy|]. split; [exact Hdisk | exact Hout].
Defined.

Lemma websocket_dial_failure_answers_500_witness :
  let r := Examples.freshProxy (Examples.endpoint "https" []) in
  let req := Examples.get "/ws" Examples.upgradeHeader in
  let env :=
    {| NewRequestError := fun _ _ => None; Do := fun _ => Err "unused";
       OpenFileError := fun _ => None; MarshalIndentError := fun _ => None;
       WriteStringError := None;
       DialError := fun _ _ => Some "dial tcp: connection refused";
       UpgradeError := None; CreateError := fun _ => None;
       clientReads := Examples.noFrames; upstreamReads := Examples.noFrames;
       arrival := []; LogWriteError := fun _ => None |} in
  let o := @handleRequest (@StoreSpec.storeAPI Examples.textOnly) Examples.literalRegexp
             r ∅ newResponseWriter req env in
  clientStatus (writer o) = 500 /\
  Written (writer o) = "Error proxying websocket: dial tcp: connection refused" +:+ LF /\
  disk o = ∅.
Proof.
  intros r req env o. subst o.
  edestruct (@websocket_dial_failure_answers_500 (@StoreSpec.storeAPI Examples.textOnly)
               Examples.literalRegexp r ∅ req env) as (Hstatus & Hwritten & _ & Hdisk & _).
  - vm_compute; discriminate.
  - vm_compute; reflexivity.
  - vm_compute; reflexivity.
  - vm_compute; reflexivity.
  - reflexivity.
  - split; [exact Hstatus|]. split; [exact Hwritten | exact Hdisk].
Defined.

(** *** The WebSocket pumps and the log writer *)

(** X7: A pump logs each message before it forwards it, and stops at the first
    message it cannot forward.  The messages handed to the peer are the first
    [n] read, in order, each with its type and with the newline appended.
    Either all messages were forwarded, the log holds one record for each, and
    the pump reports 0 when the connection closed unexpectedly and 1
    otherwise; or forwarding message [n] failed, the log holds the records of
    the messages up to and including that one, nothing read after it is logged
    or forwarded, and the pump prints the error and reports 1. *)
Theorem pump_logs_before_forwarding (r : RecordingHTTPSProxy) (src : Reads) (prepend : string) :
  let t := pumpWebsocket r src prepend in
  let n := length (toPeer t) in
  let record (f : Frame) := fst (pumpMessage r prepend (payload f)) in
  toPeer t = (fun f => (msgType f, payload f +:+ LF)) <$> take n (frames src) /\
  Forall (fun f => writeError f = None) (take n (frames src)) /\
  ((n = length (frames src) /\ toLog t = record <$> frames src /\
    quit t = (if unexpectedClose src then 0 else 1)) \/
   (exists f err,
      frames src !! n = Some f /\ writeError f = Some err /\
      toLog t = record <$> take (S n) (frames src) /\
      quit t = 1 /\ printed t = ["Error writing to websocket: " +:+ err +:+ LF])).
Proof.
  unfold pumpWebsocket. destruct src as [fs unexpected]. cbn [frames unexpectedClose].
  induction fs as [|f fs IH]; cbv zeta.
  - cbn. destruct unexpected; (split; [reflexivity|]); (split; [constructor|]);
      left; repeat split; reflexivity.
  - cbn [pumpFrames]. unfold pumpMessage at 1. cbv zeta.
    destruct (writeError f) as [err|] eqn:Hf.
    + cbn. split; [reflexivity|]. split; [constructor|]. right. exists f, err.
      repeat split; try reflexivity; assumption.
    + cbv zeta in IH. destruct IH as (Hpeer & Hall & Hrest). cbn [toPeer toLog quit printed length].
      cbn [take fmap list_fmap]. split; [now rewrite Hpeer at 1|].
      split; [now constructor|].
      destruct Hrest as [(Hn & Hlog & Hquit)|(g & err & Hg & Herr & Hlog & Hquit & Hprint)].
      * left. cbn [length]. rewrite <- Hn, Hlog, Hquit. repeat split; reflexivity.
      * right. exists g, err. cbn [lookup list_lookup]. rewrite Hlog.
        repeat split; try reflexivity; assumption.
Qed.

(** The log writer up to its first failed write. *)
Lemma writeRecords_first_failure (env : Env) (records : list string) (k n : nat)
    (written err : string) :
  (forall i, (i < n)%nat -> LogWriteError env (k + i)%nat = None) ->
  LogWriteError env (k + n)%nat = Some err ->
  (n < length records)%nat ->
  writeRecords env k records written
  = (written +:+ fold_right String.append EmptyString (take n records),
     Some ("Error writing to websocket recording file: " +:+ err +:+ LF)).
Proof.
  revert k records written. induction n as [|n IH]; intros k records written Hok Hfail Hlen.
  - destruct records as [|buf rest]; [cbn in Hlen; lia|].
    cbn [writeRecords take fold_right]. rewrite Nat.add_0_r in Hfail.
    now rewrite Hfail, str_app_empty_r.
  - destruct records as [|buf rest]; [cbn in Hlen; lia|].
    cbn [writeRecords take fold_right].
    rewrite <- (Nat.add_0_r k) at 1. rewrite Hok by lia.
    rewrite (IH (S k) rest (written +:+ buf)).
    + now rewrite str_app_assoc.
    + intros i Hi. replace (S k + i)%nat with (k + S i)%nat by lia. apply Hok. lia.
    + now replace (S k + n)%nat with (k + S n)%nat by lia.
    + cbn in Hlen. lia.
Qed.

(** X8: A failed write to the WebSocket log is fatal: when the session is
    upgraded and its log created, and write number [n] is the first to fail
    while a record is waiting, the handler panics with that error; the log
    keeps the [n] records written before, in their order of arrival, and the
    proxy is left as it was. *)
Theorem log_write_failure_panics (r : RecordingHTTPSProxy) (fs : Disk) (w : ResponseWriter)
    (out : list string) (req : Http.Request) (fileName : string) (env : Env) (n : nat)
    (err : string) :
  DialError env (websocketURL r req)
    (selectNames (fun k => negb (bool_decide (k ∈ excludedHeaders))) (ReqHeader req))
    = None ->
  UpgradeError env = None ->
  CreateError env (Join (recordingDir r) (fileName +:+ ".websocket.log")) = None ->
  (forall i, (i < n)%nat -> LogWriteError env i = None) ->
  LogWriteError env n = Some err ->
  let records :=
    interleave (arrival env) (toLog (pumpWebsocket r (clientReads env) ">"))
      (toLog (pumpWebsocket r (upstreamReads env) "<")) in
  (n < length records)%nat ->
  let o := proxyWebsocket r fs w out req fileName env in
  panicked o = Some ("Error writing to websocket recording file: " +:+ err +:+ LF) /\
  disk o !! Join (recordingDir r) (fileName +:+ ".websocket.log")
    = Some (LogFile (fold_right String.append EmptyString (take n records))) /\
  proxy o = r.
Proof.
  intros Hdial Hup Hcreate Hok Hfail records Hlen o. subst o.
  unfold proxyWebsocket, upgradeConnectionToWebsocket. rewrite Hdial, Hup, Hcreate.
  fold records.
  rewrite (writeRecords_first_failure env records 0 n EmptyString err Hok Hfail Hlen).
  cbn [panicked disk proxy]. rewrite lookup_insert_eq, str_app_nil_l. repeat split; reflexivity.
Qed.

Lemma log_write_failure_panics_witness :
  let r := Examples.freshProxy (Examples.endpoint "https" []) in
  let req := Examples.get "/ws" Examples.upgradeHeader in
  let session := Examples.echoSession "hello" in
  let env :=
    {| NewRequestError := NewRequestError session; Do := Do session;
       OpenFileError := OpenFileError session; MarshalIndentError := MarshalIndentError session;
       WriteStringError := WriteStringError session; DialError := DialError session;
       UpgradeError := UpgradeError session; CreateError := CreateError session;
       clientReads := clientReads session; upstreamReads := upstreamReads session;
       arrival := arrival session;
       LogWriteError := fun i => if decide (i = 1%nat) then Some "disk full" else None |} in
  let o := proxyWebsocket r ∅ newResponseWriter [] req "session" env in
  panicked o = Some ("Error writing to websocket recording file: " +:+ "disk full" +:+ LF) /\
  disk o !! "recordings/session.websocket.log" = Some (LogFile (">6 hello" +:+ LF)).
Proof.
  intros r req session env o. subst o.
  destruct (log_write_failure_panics r ∅ newResponseWriter [] req
              "session" env 1%nat "disk full") as (Hpanic & Hlog & _).
  - reflexivity.
  - reflexivity.
  - reflexivity.
  - intros i Hi. destruct i as [|i]; [reflexivity | lia].
  - reflexivity.
  - vm_compute. lia.
  - split; [exact Hpanic|]. etransitivity; [exact Hlog | vm_compute; reflexivity].
Defined.

(** *** What a request does to the files and to the proxy, whatever the store *)

Section HandlerInvariants.

Context `{StoreAPI} `{RegexpAPI}.

Local Abbreviation artifactPath r fileName := (Join (recordingDir r) (fileName +:+ ".json")).

(** [recordResponse] only writes: the proxy and the error it returns do not
    depend on the files, and the one file it may open gets a content that
    does not depend on them. *)
Lemma recordResponse_write_only (r : RecordingHTTPSProxy) (q : RecordedRequest)
    (resp : Response) (fileName shaSum body : string) (env : Env) :
  exists r' (written : option File) res,
    forall fs, recordResponse r fs q resp fileName shaSum body env
      = (r', match written with
             | Some file => <[artifactPath r fileName := file]> fs
             | None => fs
             end, res).
Proof.
  unfold recordResponse.
  destruct (NewRecordedResponse resp body) as [rr|err];
    [|exists r, None, (Err err); reflexivity].
  destruct (seenFiles r !! fileName) as [entry|]; cbv zeta; cbn [recordingDir setSeenFiles];
    (destruct (OpenFileError env _) as [err|]; [eexists _, None, _; reflexivity|]);
    (destruct (MarshalIndentError env _) as [err|];
       [eexists _, (Some TruncatedFile), _; reflexivity|]);
    (destruct (WriteStringError env) as [err|];
       [eexists _, (Some TruncatedFile), _; reflexivity|]);
    eexists _, (Some (JSONFile _)), _; intros fs; rewrite insert_insert_eq; reflexivity.
Qed.

(** The handler never changes the configuration, the recording directory or
    the redactor. *)
Lemma handleRequest_config (r : RecordingHTTPSProxy) (fs : Disk) (w : ResponseWriter)
    (req : Http.Request) (env : Env) :
  let o := handleRequest r fs w req env in
  config (proxy o) = config r /\ recordingDir (proxy o) = recordingDir r /\
  redactor (proxy o) = redactor r.
Proof.
  intros o. pose proof (handleRequest_cases r fs w req env) as Hc.
  cbv zeta in Hc. fold o in Hc. destruct Hc as [[-> _]|[Hws|Hrec]].
  - repeat split; reflexivity.
  - destruct Hws as (q & fileName & out & _ & _ & _ & Ho). rewrite Ho.
    destruct (proxyWebsocket_frame r fs w out req fileName env) as [-> _].
    repeat split; reflexivity.
  - destruct Hrec as (q & fileName & w' & resp & body & r' & fs' & res &
                      _ & _ & _ & _ & _ & Hr & _ & Hproxy).
    apply recordResponse_frame in Hr as (_ & Hc & Hd & Hred & _).
    destruct Hproxy as [->|[-> _]]; cbn; repeat split; assumption.
Qed.

(** Every JSON artifact a request writes is the artifact of one file name, at
    that name's path, with the entry of the map and one interaction appended,
    whose fingerprint is that of the request it stores. *)
Lemma handleRequest_written_at (r : RecordingHTTPSProxy) (fs : Disk) (w : ResponseWriter)
    (req : Http.Request) (env : Env) (path : string) (rf : RecordFile) :
  let o := handleRequest r fs w req env in
  disk o !! path = Some (JSONFile rf) ->
  fs !! path = Some (JSONFile rf) \/
  exists fileName interaction,
    path = artifactPath r fileName /\
    ShaSum interaction = ComputeSum (IRequest interaction) /\
    rf = {| RecordID := RecordID (entryOf r fileName);
            Interactions := Interactions (entryOf r fileName) ++ [interaction] |}.
Proof.
  intros o Hlook. pose proof (handleRequest_cases r fs w req env) as Hc.
  cbv zeta in Hc. fold o in Hc. destruct Hc as [[_ Hd]|[Hws|Hrec]].
  - rewrite Hd in Hlook. now left.
  - destruct Hws as (q & fileName & out & _ & _ & _ & Ho). rewrite Ho in Hlook.
    destruct (proxyWebsocket_frame r fs w out req fileName env) as [_ [Hd|[bytes Hd]]];
      rewrite Hd in Hlook; [now left|].
    destruct (decide (Join (recordingDir r) (fileName +:+ ".websocket.log") = path))
      as [<-|Hne].
    + rewrite lookup_insert_eq in Hlook. discriminate.
    + rewrite lookup_insert_ne in Hlook by exact Hne. now left.
  - destruct Hrec as (q & fileName & w' & resp & body & r' & fs' & res &
                      _ & _ & _ & _ & _ & Hr & Hd & _).
    rewrite Hd in Hlook.
    destruct (decide (path = artifactPath r fileName)) as [->|Hne].
    2:{ apply recordResponse_frame in Hr as (_ & _ & _ & _ & Hother & _).
        rewrite Hother in Hlook by exact Hne. now left. }
    destruct res as [u|err].
    + apply recordResponse_ok in Hr as (rr & _ & ->).
      rewrite lookup_insert_eq in Hlook. injection Hlook as <-. right.
      eexists fileName, _. split; [reflexivity|]. split; [|reflexivity]. reflexivity.
    + apply recordResponse_err in Hr as [->| ->]; [now left|].
      rewrite lookup_insert_eq in Hlook. discriminate.
Qed.

(** The entries of the map carry their own name, and the artifacts on disk
    are at the path of their [RecordID], with interactions whose fingerprint
    is that of the request stored. *)
Local Abbreviation named r :=
  (forall name rf, seenFiles r !! name = Some rf ->
     RecordID rf = name /\
     forall i, i ∈ Interactions rf -> ShaSum i = ComputeSum (IRequest i)).

Local Abbreviation filed dir fs :=
  (forall path rf, fs !! path = Some (JSONFile rf) ->
     path = Join dir (RecordID rf +:+ ".json") /\
     forall i, i ∈ Interactions rf -> ShaSum i = ComputeSum (IRequest i)).

Lemma entryOf_named (r : RecordingHTTPSProxy) (fileName : string) :
  named r ->
  RecordID (entryOf r fileName) = fileName /\
  forall i, i ∈ Interactions (entryOf r fileName) -> ShaSum i = ComputeSum (IRequest i).
Proof.
  intros Hr. unfold entryOf. destruct (seenFiles r !! fileName) as [rf|] eqn:E.
  - exact (Hr _ _ E).
  - cbn. split; [reflexivity|]. intros i Hi. now apply elem_of_nil in Hi.
Qed.

Lemma handleRequest_named (r : RecordingHTTPSProxy) (fs : Disk) (w : ResponseWriter)
    (req : Http.Request) (env : Env) :
  named r -> filed (recordingDir r) fs ->
  named (proxy (handleRequest r fs w req env)) /\
  filed (recordingDir r) (disk (handleRequest r fs w req env)).
Proof.
  intros Hr Hfs. split.
  - intros name rf Hlook.
    destruct (handleRequest_seenFiles r fs w req env name) as [E|[_ E]];
      rewrite E in Hlook; [exact (Hr _ _ Hlook)|].
    injection Hlook as <-. cbn. split; [reflexivity|].
    intros i Hi. now apply elem_of_nil in Hi.
  - intros path rf Hlook.
    apply handleRequest_written_at in Hlook
      as [Hold|(fileName & interaction & -> & Hsum & ->)]; [exact (Hfs _ _ Hold)|].
    destruct (entryOf_named r fileName Hr) as [Hid Hgood]. cbn [RecordID Interactions].
    rewrite Hid. split; [reflexivity|].
    intros i Hi. apply elem_of_app in Hi as [Hi|Hi]; [now apply Hgood|].
    apply list_elem_of_singleton in Hi. now subst i.
Qed.

Lemma serve_named (reqs : list (Http.Request * Env)) (r : RecordingHTTPSProxy) (fs : Disk) :
  named r -> filed (recordingDir r) fs ->
  named (serve r fs reqs).1 /\ filed (recordingDir r) (serve r fs reqs).2.
Proof.
  revert r fs. induction reqs as [|[req env] reqs IH]; intros r fs Hr Hfs; [now split|].
  cbn [serve]. destruct (handleRequest_named r fs newResponseWriter req env Hr Hfs) as [Hr' Hfs'].
  destruct (handleRequest_config r fs newResponseWriter req env) as (_ & Hdir & _).
  rewrite <- Hdir in Hfs'. rewrite <- Hdir. now apply IH.
Qed.

Lemma fresh_run_named (cfg : EndpointConfig) (dir : string) (red : Redact)
    (reqs : list (Http.Request * Env)) :
  filed dir (serve (NewRecordingHTTPSProxy cfg dir red) ∅ reqs).2.
Proof.
  apply (serve_named reqs (NewRecordingHTTPSProxy cfg dir red) ∅).
  - intros name rf Hlook. cbn in Hlook. now rewrite lookup_empty in Hlook.
  - intros path rf Hlook. now rewrite lookup_empty in Hlook.
Qed.

(** X9: What a request does never depends on the files the recording directory
    holds: for the same outcomes of the calls to the upstream and to the file
    system, the proxy state it leaves, its answer, the lines it prints and
    its panic are the same on every disk, and it creates or overwrites at
    most one file, with a content that does not depend on the disk. *)
Theorem handler_never_reads_the_disk (r : RecordingHTTPSProxy) (w : ResponseWriter)
    (req : Http.Request) (env : Env) :
  exists r' w' out failure (written : option (string * File)),
    forall fs, handleRequest r fs w req env
      = {| proxy := r';
           disk := match written with
                   | Some (path, file) => <[path := file]> fs
                   | None => fs
                   end;
           writer := w'; stdout := out; panicked := failure |}.
Proof.
  unfold handleRequest.
  destruct (decide (Path req = Health (config r))); [eexists _, _, _, _, None; reflexivity|].
  destruct (redactRequest r req) as [q|err]; [|eexists _, _, _, _, None; reflexivity].
  destruct (GetRecordingFileName q) as [fileName|err];
    [|eexists _, _, _, _, None; reflexivity].
  destruct (decide (Get (ReqHeader req) "Upgrade" = "websocket")).
  - unfold proxyWebsocket.
    destruct (upgradeConnectionToWebsocket r w req env) as [w' [u|err]];
      [|eexists _, _, _, _, None; reflexivity].
    destruct (CreateError env _); [eexists _, _, _, _, None; reflexivity|].
    destruct (writeRecords env 0 _ EmptyString) as [bytes failure].
    eexists _, _, _, _, (Some (_, LogFile bytes)). reflexivity.
  - destruct (proxyRequest r w req env) as [w' [[[resp body]|err]|msg]];
      [|eexists _, _, _, _, None; reflexivity|eexists _, _, _, _, None; reflexivity].
    destruct (recordResponse_write_only r
                match seenFiles r !! fileName with
                | Some _ => q
                | None => setPreviousRequest q HeadSHA
                end resp fileName
                (ComputeSum match seenFiles r !! fileName with
                            | Some _ => q
                            | None => setPreviousRequest q HeadSHA
                            end) body env) as (r' & written & res & Hrec).
    destruct res as [u|err].
    + eexists _, _, _, _, (option_map (fun file => (_, file)) written).
      intros fs. rewrite Hrec. destruct written; reflexivity.
    + eexists _, _, _, _, (option_map (fun file => (_, file)) written).
      intros fs. rewrite Hrec. destruct written; reflexivity.
Qed.

(** Along a run nothing but [prevRequestSHA] and the map of seen files
    changes, and the map only grows. *)
Lemma serve_frame (reqs : list (Http.Request * Env)) (r : RecordingHTTPSProxy) (fs : Disk) :
  config (serve r fs reqs).1 = config r /\
  recordingDir (serve r fs reqs).1 = recordingDir r /\
  redactor (serve r fs reqs).1 = redactor r /\
  (forall name entry,
     seenFiles r !! name = Some entry -> seenFiles (serve r fs reqs).1 !! name = Some entry).
Proof.
  revert r fs. induction reqs as [|[req env] reqs IH]; intros r fs.
  - repeat split; try reflexivity. auto.
  - cbn [serve].
    destruct (handleRequest_config r fs newResponseWriter req env) as (Hc & Hd & Hred).
    destruct (IH (proxy (handleRequest r fs newResponseWriter req env))
                 (disk (handleRequest r fs newResponseWriter req env)))
      as (Hc' & Hd' & Hred' & Hseen).
    rewrite Hc', Hd', Hred'. repeat split; try assumption.
    intros name entry Hlook. apply Hseen.
    destruct (handleRequest_seenFiles r fs newResponseWriter req env name) as [E|[E _]];
      [now rewrite E | now rewrite E in Hlook].
Qed.

Lemma serve_app (first second : list (Http.Request * Env)) (r : RecordingHTTPSProxy)
    (fs : Disk) :
  serve r fs (first ++ second) = serve (serve r fs first).1 (serve r fs first).2 second.
Proof.
  revert r fs. induction first as [|[req env] first IH]; intros r fs; [reflexivity|].
  cbn [app serve]. apply IH.
Qed.

(** X10: Requests served one after the other leave the proxy its configuration,
    its recording directory and its redactor, and the proxy never forgets a
    file name it has seen: an entry of the map stays, unchanged, whatever
    requests follow. *)
Theorem run_keeps_configuration_and_seen_files (reqs : list (Http.Request * Env))
    (r : RecordingHTTPSProxy) (fs : Disk) :
  let r' := (serve r fs reqs).1 in
  config r' = config r /\ recordingDir r' = recordingDir r /\ redactor r' = redactor r /\
  (forall name entry, seenFiles r !! name = Some entry -> seenFiles r' !! name = Some entry).
Proof. exact (serve_frame reqs r fs). Qed.

(** X11: A health check is invisible to the recording wherever it falls in a run:
    the proxy and the files at the end of the run are those of the run
    without it. *)
Theorem health_check_is_invisible_in_a_run (before after : list (Http.Request * Env))
    (r : RecordingHTTPSProxy) (fs : Disk) (req : Http.Request) (env : Env) :
  Path req = Health (config r) ->
  serve r fs (before ++ (req, env) :: after) = serve r fs (before ++ after).
Proof.
  intros Hpath. rewrite !serve_app. cbn [serve].
  destruct (serve_frame before r fs) as (Hc & _).
  unfold handleRequest at 1 2.
  destruct (decide (Path req = Health (config (serve r fs before).1))) as [_|Hne];
    [reflexivity|].
  exfalso. apply Hne. now rewrite Hc.
Qed.

(** X12: The file name of a request is marked as seen as soon as its response
    record is built, before the file is opened: even when opening or writing
    the file fails, a later request with that file name is no longer treated
    as the first of its file.  When the response record cannot be built,
    nothing is marked and nothing is written. *)
Theorem file_is_seen_even_when_the_write_fails (r : RecordingHTTPSProxy) (fs : Disk)
    (w w' : ResponseWriter) (req : Http.Request) (env : Env) (q : RecordedRequest)
    (fileName body : string) (resp : Response) :
  Path req <> Health (config r) ->
  Get (ReqHeader req) "Upgrade" <> "websocket" ->
  redactRequest r req = Ok q ->
  GetRecordingFileName q = Ok fileName ->
  proxyRequest r w req env = (w', Done (Ok (resp, body))) ->
  let o := handleRequest r fs w req env in
  (forall rr, NewRecordedResponse resp body = Ok rr ->
     is_Some (seenFiles (proxy o) !! fileName) /\
     forall q', chained (proxy o) fileName q' = q') /\
  (forall err, NewRecordedResponse resp body = Err err ->
     proxy o = r /\ disk o = fs).
Proof.
  intros Hpath Hup Hq Hf Hp o.
  destruct (recordResponse r fs (chained r fileName q) resp fileName
              (ComputeSum (chained r fileName q)) body env) as [[r' fs'] res] eqn:Hr.
  destruct (handleRequest_recorded r r' fs fs' w w' req env q fileName body resp res
              Hpath Hup Hq Hf Hp Hr) as (Hd & _ & Hres).
  fold o in Hd, Hres.
  assert (Hseen : seenFiles (proxy o) = seenFiles r').
  { destruct res as [u|err]; [destruct Hres as [_ ->]|destruct Hres as [_ ->]]; [|reflexivity].
    now destruct (decide _). }
  pose proof (recordResponse_frame _ _ _ _ _ _ _ _ _ _ _ Hr) as (_ & _ & _ & _ & _ & _ & Hthis).
  split.
  - intros rr Hrr. rewrite Hrr in Hthis.
    assert (Hsome : is_Some (seenFiles (proxy o) !! fileName)).
    { rewrite Hseen, Hthis. destruct (seenFiles r !! fileName); eauto. }
    split; [exact Hsome|]. intros q'. unfold chained. now destruct Hsome as [entry ->].
  - intros err Herr. unfold recordResponse in Hr. rewrite Herr in Hr.
    injection Hr as <- <- <-. destruct Hres as [_ ->]. split; [reflexivity | exact Hd].
Qed.

(** X13: The chain only moves to a fingerprint that was written: when a request
    changes [prevRequestSHA], the handler returned without a panic and the
    artifact of the request's file is on disk in full, its last interaction
    carrying the new value as its fingerprint, which is the fingerprint of the
    request stored with it and differs from the file name. *)
Theorem chain_moves_only_to_a_recorded_sum (r : RecordingHTTPSProxy) (fs : Disk)
    (w : ResponseWriter) (req : Http.Request) (env : Env) :
  let o := handleRequest r fs w req env in
  prevRequestSHA (proxy o) <> prevRequestSHA r ->
  panicked o = None /\
  exists fileName rf interaction,
    disk o !! artifactPath r fileName = Some (JSONFile rf) /\
    last (Interactions rf) = Some interaction /\
    ShaSum interaction = prevRequestSHA (proxy o) /\
    ShaSum interaction = ComputeSum (IRequest interaction) /\
    ShaSum interaction <> fileName.
Proof.
  intros o Hmoved. pose proof (handleRequest_cases r fs w req env) as Hc.
  cbv zeta in Hc. fold o in Hc. destruct Hc as [[Hp _]|[Hws|Hrec]].
  - now rewrite Hp in Hmoved.
  - destruct Hws as (q & fileName & out & _ & _ & _ & Ho). rewrite Ho in Hmoved.
    destruct (proxyWebsocket_frame r fs w out req fileName env) as [Hp _].
    now rewrite Hp in Hmoved.
  - destruct Hrec as (q & fileName & w' & resp & body & r' & fs' & res &
                      Hpath & Hup & Hq & Hf & Hp & Hr & Hd & Hproxy).
    pose proof (recordResponse_frame _ _ _ _ _ _ _ _ _ _ _ Hr) as (Hprev & _).
    destruct Hproxy as [Hsame|(Hset & Hne & u & ->)]; [now rewrite Hsame, Hprev in Hmoved|].
    destruct (handleRequest_recorded r r' fs fs' w w' req env q fileName body resp (Ok u)
                Hpath Hup Hq Hf Hp Hr) as (_ & Hpanic & _).
    fold o in Hpanic. split; [exact Hpanic|].
    apply recordResponse_ok in Hr as (rr & _ & Hfs).
    eexists fileName, _, _. rewrite Hd, Hfs, lookup_insert_eq. split; [reflexivity|].
    cbn [Interactions]. rewrite last_snoc. split; [reflexivity|].
    rewrite Hset. cbn. repeat split; try reflexivity. congruence.
Qed.

End HandlerInvariants.

(** X14: Every JSON artifact a run leaves in a recording directory that was empty
    lies at the path of its own [record_id]: the directory, the record id, and
    the extension [.json]. *)
Theorem artifact_is_filed_under_its_record_id `{StoreAPI} `{RegexpAPI} (cfg : EndpointConfig)
    (dir : string) (red : Redact) (reqs : list (Http.Request * Env)) (path : string)
    (rf : RecordFile) :
  (serve (NewRecordingHTTPSProxy cfg dir red) ∅ reqs).2 !! path = Some (JSONFile rf) ->
  path = Join dir (RecordID rf +:+ ".json").
Proof. intros Hlook. now apply (fresh_run_named cfg dir red reqs) in Hlook. Qed.

(** X15: In every JSON artifact a run leaves in a recording directory that was
    empty, the [sha_sum] of each interaction is the fingerprint of the request
    stored in that interaction. *)
Theorem recorded_sum_is_the_fingerprint `{StoreAPI} `{RegexpAPI} (cfg : EndpointConfig)
    (dir : string) (red : Redact) (reqs : list (Http.Request * Env)) (path : string)
    (rf : RecordFile) (interaction : RecordInteraction) :
  (serve (NewRecordingHTTPSProxy cfg dir red) ∅ reqs).2 !! path = Some (JSONFile rf) ->
  interaction ∈ Interactions rf ->
  ShaSum interaction = ComputeSum (IRequest interaction).
Proof.
  intros Hlook Hin. apply (fresh_run_named cfg dir red reqs) in Hlook as [_ Hgood].
  now apply Hgood.
Qed.

Lemma run_keeps_configuration_and_seen_files_witness :
  let r := Examples.freshProxy (Examples.endpoint "https" []) in
  let env := Examples.world (Ok (Examples.okResponse ∅)) None None in
  let name := "5953f33637a281aa38b73ad601755717f460abfae9623467a92ff20a00abb0b8" in
  let entry := {| RecordID := name; Interactions := [] |} in
  let first := @handleRequest (@StoreSpec.storeAPI Examples.textOnly) Examples.literalRegexp
                 r ∅ newResponseWriter (Examples.get "/x" ∅) env in
  let rest := [(Examples.get "/y" ∅, env); (Examples.get "/x" ∅, env)] in
  seenFiles (proxy first) !! name = Some entry /\
  seenFiles (@serve (@StoreSpec.storeAPI Examples.textOnly) Examples.literalRegexp
               (proxy first) (disk first) rest).1 !! name = Some entry.
Proof.
  intros r env name entry first rest.
  assert (Hfirst : seenFiles (proxy first) !! name = Some entry) by (vm_compute; reflexivity).
  split; [exact Hfirst|].
  destruct (@run_keeps_configuration_and_seen_files (@StoreSpec.storeAPI Examples.textOnly)
              Examples.literalRegexp rest (proxy first) (disk first)) as (_ & _ & _ & Hseen).
  exact (Hseen name entry Hfirst).
Defined.

Lemma file_is_seen_even_when_the_write_fails_witness :
  let r := Examples.freshProxy (Examples.endpoint "https" []) in
  let req := Examples.get "/x" ∅ in
  let readonly := Examples.world (Ok (Examples.okResponse ∅)) (Some "permission denied") None in
  let o := @handleRequest (@StoreSpec.storeAPI Examples.textOnly) Examples.literalRegexp
             r ∅ newResponseWriter req readonly in
  disk o = ∅ /\
  is_Some (seenFiles (proxy o)
             !! "5953f33637a281aa38b73ad601755717f460abfae9623467a92ff20a00abb0b8").
Proof.
  intros r req readonly o. split; [vm_compute; reflexivity|]. subst o.
  edestruct (@file_is_seen_even_when_the_write_fails (@StoreSpec.storeAPI Examples.textOnly)
               Examples.literalRegexp r ∅ newResponseWriter) with (req := req) (env := readonly)
    as [Hseen _].
  - vm_compute; discriminate.
  - vm_compute; discriminate.
  - vm_compute; reflexivity.
  - vm_compute; reflexivity.
  - vm_compute; reflexivity.
  - edestruct Hseen as [Hsome _]; [vm_compute; reflexivity | exact Hsome].
Defined.

Lemma chain_moves_only_to_a_recorded_sum_witness :
  let spec := @StoreSpec.storeAPI Examples.textOnly in
  let byTestName : StoreAPI :=
    {| NewRecordedRequest := @NewRecordedRequest spec;
       RedactHeaders := @RedactHeaders spec;
       GetRecordingFileName := fun _ => Ok "login";
       ComputeSum := @ComputeSum spec;
       NewRecordedResponse := @NewRecordedResponse spec |} in
  let r := Examples.freshProxy (Examples.endpoint "https" []) in
  let env := Examples.world (Ok (Examples.okResponse ∅)) None None in
  let o := @handleRequest byTestName Examples.literalRegexp
             r ∅ newResponseWriter (Examples.get "/x" ∅) env in
  prevRequestSHA (proxy o) <> HeadSHA /\
  exists fileName rf interaction,
    disk o !! Join "recordings" (fileName +:+ ".json") = Some (JSONFile rf) /\
    last (Interactions rf) = Some interaction /\
    ShaSum interaction = prevRequestSHA (proxy o).
Proof.
  intros spec byTestName r env o. subst spec byTestName.
  assert (Hmoved : prevRequestSHA (proxy o) <> prevRequestSHA r) by (vm_compute; discriminate).
  split; [exact Hmoved|].
  destruct (chain_moves_only_to_a_recorded_sum r ∅ newResponseWriter (Examples.get "/x" ∅) env
              Hmoved) as (_ & fileName & rf & interaction & Hlook & Hlast & Hsum & _).
  exists fileName, rf, interaction. split; [exact Hlook|]. split; [exact Hlast | exact Hsum].
Defined.

Lemma artifact_is_filed_under_its_record_id_witness :
  let path := "recordings/5953f33637a281aa38b73ad601755717f460abfae9623467a92ff20a00abb0b8.json" in
  let env := Examples.world (Ok (Examples.okResponse ∅)) None None in
  let reqs := [(Examples.get "/x" ∅, env)] in
  exists rf,
    (@serve (@StoreSpec.storeAPI Examples.textOnly) Examples.literalRegexp
       (Examples.freshProxy (Examples.endpoint "https" [])) ∅ reqs).2 !! path
      = Some (JSONFile rf) /\
    path = Join "recordings" (RecordID rf +:+ ".json").
Proof.
  intros path env reqs. eexists. split; [vm_compute; reflexivity|].
  eapply (@artifact_is_filed_under_its_record_id (@StoreSpec.storeAPI Examples.textOnly)
            Examples.literalRegexp (Examples.endpoint "https" []) "recordings"
            (NewRedact ["secret"]) reqs).
  vm_compute. reflexivity.
Defined.

Lemma recorded_sum_is_the_fingerprint_witness :
  let path := "recordings/5953f33637a281aa38b73ad601755717f460abfae9623467a92ff20a00abb0b8.json" in
  let env := Examples.world (Ok (Examples.okResponse ∅)) None None in
  let reqs := [(Examples.get "/x" ∅, env)] in
  exists rf interaction,
    (@serve (@StoreSpec.storeAPI Examples.textOnly) Examples.literalRegexp
       (Examples.freshProxy (Examples.endpoint "https" [])) ∅ reqs).2 !! path
      = Some (JSONFile rf) /\
    Interactions rf = [interaction] /\
    ShaSum interaction
      = @ComputeSum (@StoreSpec.storeAPI Examples.textOnly) (IRequest interaction).
Proof.
  intros path env reqs. eexists _, _. split; [vm_compute; reflexivity|].
  split; [reflexivity|].
  eapply (@recorded_sum_is_the_fingerprint (@StoreSpec.storeAPI Examples.textOnly)
            Examples.literalRegexp (Examples.endpoint "https" []) "recordings"
            (NewRedact ["secret"]) reqs path).
  - vm_compute. reflexivity.
  - cbn [Interactions]. apply list_elem_of_singleton. reflexivity.
Defined.

Lemma health_check_is_invisible_in_a_run_witness :
  let r := Examples.freshProxy (Examples.endpoint "https" []) in
  let env := Examples.world (Ok (Examples.okResponse ∅)) None None in
  let probe := (Examples.get "/healthz" ∅, env) in
  let request := (Examples.get "/x" ∅, env) in
  @serve (@StoreSpec.storeAPI Examples.textOnly) Examples.literalRegexp
    r ∅ ([request] ++ probe :: [request])
  = @serve (@StoreSpec.storeAPI Examples.textOnly) Examples.literalRegexp
      r ∅ ([request] ++ [request]).
Proof.
  intros r env probe request.
  apply (@health_check_is_invisible_in_a_run (@StoreSpec.storeAPI Examples.textOnly)
           Examples.literalRegexp [request] [request] r ∅ (Examples.get "/healthz" ∅) env).
  reflexivity.
Defined.

(** *** What is recorded and what the client was sent *)

Section RecordedAndSent.

Context `{StoreAPI} `{RegexpAPI}.

(** A proxied request that returns a response has sent it whole. *)
Lemma proxyRequest_sent (r : RecordingHTTPSProxy) (req : Http.Request) (env : Env)
    (w' : ResponseWriter) (resp : Response) (body : string) :
  proxyRequest r newResponseWriter req env = (w', Done (Ok (resp, body))) ->
  Sent w' = Some (RStatusCode resp, addHeaders ∅ (RHeader resp)) /\ Written w' = body.
Proof.
  unfold proxyRequest. intros Hp.
  destruct (Body req) as [reqBody|]; [|discriminate].
  destruct (NewRequestError env _ _); [discriminate|].
  destruct (Do env _) as [upstream|]; [|discriminate].
  destruct (applyResponseHeaderReplacements r (RHeader upstream)) as [header|]; [|discriminate].
  cbn [RBody RStatusCode] in Hp. destruct (RBody upstream) as [bytes|]; [|discriminate].
  injection Hp as <- <- <-. split; reflexivity.
Qed.

(** X16: The response record is built from what the client was sent: when a
    request is proxied and recorded, the artifact's last interaction holds the
    request as fingerprinted and the record of the upstream's response with
    the rewritten headers and the body bytes as read, and the client's
    response writer was given that status, those headers (the ones that carry
    a value) and those bytes, and nothing more.  The status is a final one, 200 to 999. *)
Theorem recorded_response_is_the_one_sent (r : RecordingHTTPSProxy) (fs : Disk)
    (req : Http.Request) (env : Env) (q : RecordedRequest) (fileName body : string)
    (w' : ResponseWriter) (resp : Response) (rr : RecordedResponse) :
  Path req <> Health (config r) ->
  Get (ReqHeader req) "Upgrade" <> "websocket" ->
  redactRequest r req = Ok q ->
  GetRecordingFileName q = Ok fileName ->
  proxyRequest r newResponseWriter req env = (w', Done (Ok (resp, body))) ->
  200 <= RStatusCode resp <= 999 ->
  NewRecordedResponse resp body = Ok rr ->
  OpenFileError env (Join (recordingDir r) (fileName +:+ ".json")) = None ->
  (forall rf, MarshalIndentError env rf = None) ->
  WriteStringError env = None ->
  let o := handleRequest r fs newResponseWriter req env in
  exists rf sent,
    disk o !! Join (recordingDir r) (fileName +:+ ".json") = Some (JSONFile rf) /\
    last (Interactions rf)
      = Some {| IRequest := chained r fileName q;
                ShaSum := ComputeSum (chained r fileName q); IResponse := rr |} /\
    Sent (writer o) = Some (RStatusCode resp, sent) /\
    (forall name, sent !! name = match RHeader resp !! name with
                                 | Some (v :: vs) => Some (v :: vs)
                                 | _ => None
                                 end) /\
    Written (writer o) = body.
Proof.
  intros Hpath Hup Hq Hf Hp _ Hrr Hopen Hmarshal Hwrite o.
  pose proof (recordResponse_success r fs (chained r fileName q) resp fileName
                (ComputeSum (chained r fileName q)) body env rr Hrr Hopen Hmarshal Hwrite)
    as Hr.
  destruct (handleRequest_recorded r _ fs _ newResponseWriter w' req env q fileName body
              resp (Ok tt) Hpath Hup Hq Hf Hp Hr) as (Hd & _ & Hw & _).
  fold o in Hd, Hw.
  destruct (proxyRequest_sent r req env w' resp body Hp) as [Hsent Hwritten].
  eexists _, _. rewrite Hd, lookup_insert_eq, Hw. split; [reflexivity|].
  cbn [Interactions]. rewrite last_snoc. split; [reflexivity|].
  split; [exact Hsent|]. split; [|exact Hwritten].
  intros name. rewrite addHeaders_lookup, lookup_empty. reflexivity.
Qed.


End RecordedAndSent.

Lemma recorded_response_is_the_one_sent_witness :
  let r := Examples.freshProxy
             (Examples.endpoint "https" [Examples.cookieRewrite "sessionid=abc"]) in
  let req := Examples.get "/x" ∅ in
  let resp := Examples.okResponse {[ "Set-Cookie" := ["sessionid=abc; Path=/"] ]} in
  let env := Examples.world (Ok resp) None None in
  let o := @handleRequest (@StoreSpec.storeAPI Examples.textOnly) Examples.literalRegexp
             r ∅ newResponseWriter req env in
  exists rf interaction,
    disk o !! "recordings/5953f33637a281aa38b73ad601755717f460abfae9623467a92ff20a00abb0b8.json"
      = Some (JSONFile rf) /\
    last (Interactions rf) = Some interaction /\
    RespHeader (IResponse interaction) = {[ "Set-Cookie" := ["sessionid=X; Path=/"] ]} /\
    Sent (writer o) = Some (200, {[ "Set-Cookie" := ["sessionid=X; Path=/"] ]}) /\
    Written (writer o) = "{ok}".
Proof.
  intros r req resp env o. subst o.
  edestruct (@recorded_response_is_the_one_sent (@StoreSpec.storeAPI Examples.textOnly)
               Examples.literalRegexp r) with (fs := (∅ : Disk)) (req := req) (env := env)
    as (rf & sent & Hlook & Hlast & Hsent & _ & Hwritten).
  - vm_compute; discriminate.
  - vm_compute; discriminate.
  - vm_compute; reflexivity.
  - vm_compute; reflexivity.
  - vm_compute; reflexivity.
  - split; vm_compute; discriminate.
  - vm_compute; reflexivity.
  - reflexivity.
  - reflexivity.
  - reflexivity.
  - eexists rf, _. split; [exact Hlook|]. split; [exact Hlast|].
    split; [vm_compute; reflexivity|]. split; [|exact Hwritten].
    vm_compute. reflexivity.
Defined.


(** ** The canonical form: serialisation and its inverse *)

Import StoreSpec.

Section Lines.

Lemma oneLine_cons (c : ascii) (s : string) :
  oneLine (String c s) <-> c <> "010"%char /\ oneLine s.
Proof.
  unfold oneLine. cbn [chars]. rewrite not_elem_of_cons. split; intros [? ?]; split; auto.
Qed.

Lemma oneLine_app (a b : string) : oneLine (a +:+ b) <-> oneLine a /\ oneLine b.
Proof.
  unfold oneLine. rewrite chars_app, not_elem_of_app. reflexivity.
Qed.

Lemma lines_nonempty (s : string) : lines s <> [].
Proof.
  destruct s as [|c s]; cbn [lines]; [discriminate|].
  destruct (decide (c = "010"%char)); [discriminate|]. now destruct (lines s).
Qed.

(** A line and the newline after it are the first of the lines. *)
Lemma lines_app_LF (a rest : string) :
  oneLine a -> lines (a +:+ LF +:+ rest) = a :: lines rest.
Proof.
  induction a as [|c a IH]; intros Ha.
  - rewrite str_app_nil_l. unfold LF. rewrite str_app_cons, str_app_nil_l. cbn [lines].
    now destruct (decide _).
  - apply oneLine_cons in Ha as [Hc Ha]. rewrite str_app_cons. cbn [lines].
    destruct (decide (c = "010"%char)); [contradiction|]. now rewrite IH.
Qed.

Lemma lines_LF (rest : string) : lines (LF +:+ rest) = EmptyString :: lines rest.
Proof. now rewrite <- (lines_app_LF EmptyString rest) by (unfold oneLine; apply not_elem_of_nil). Qed.

Lemma unlines_cons (l : string) (ls : list string) :
  ls <> [] -> unlines (l :: ls) = l +:+ LF +:+ unlines ls.
Proof. destruct ls; [contradiction | reflexivity]. Qed.

(** Joining the lines of a text gives the text back. *)
Lemma unlines_lines (s : string) : unlines (lines s) = s.
Proof.
  induction s as [|c s IH]; [reflexivity|]. cbn [lines].
  destruct (decide (c = "010"%char)) as [->|Hc].
  - rewrite unlines_cons by apply lines_nonempty. now rewrite IH.
  - pose proof (lines_nonempty s) as Hne. destruct (lines s) as [|l ls]; [contradiction|].
    destruct ls as [|l' ls].
    + cbn [unlines] in *. now rewrite IH.
    + rewrite unlines_cons by discriminate. rewrite unlines_cons in IH by discriminate.
      rewrite str_app_cons. now rewrite IH.
Qed.

End Lines.

Section Numbers.

Lemma string_of_uint_oneLine (d : Decimal.uint) : oneLine (NilEmpty.string_of_uint d).
Proof.
  induction d; cbn [NilEmpty.string_of_uint];
    [unfold oneLine; apply not_elem_of_nil | apply oneLine_cons; split; [discriminate|assumption]..].
Qed.

Lemma Itoa_oneLine (z : Z) : oneLine (Itoa z).
Proof.
  unfold Itoa. destruct z as [|p|p]; cbn [Z.to_int NilZero.string_of_int].
  - apply oneLine_cons. split; [discriminate|]. unfold oneLine. apply not_elem_of_nil.
  - unfold NilZero.string_of_uint. destruct (Pos.to_uint p) eqn:E;
      [apply oneLine_cons; split; [discriminate | apply not_elem_of_nil]
      | rewrite <- E; apply string_of_uint_oneLine..].
  - apply oneLine_cons. split; [discriminate|].
    unfold NilZero.string_of_uint. destruct (Pos.to_uint p) eqn:E;
      [apply oneLine_cons; split; [discriminate | apply not_elem_of_nil]
      | rewrite <- E; apply string_of_uint_oneLine..].
Qed.

(** The digits of a positive number, read back. *)
Lemma digits_read_back (p : positive) :
  let ds := NilZero.string_of_uint (Pos.to_uint p) in
  ds <> EmptyString /\
  (forall t, ds <> String "-"%char t) /\ (forall t, ds <> String "+"%char t) /\
  NilEmpty.uint_of_string ds = Some (Pos.to_uint p).
Proof.
  cbv zeta. pose proof (DecimalPos.Unsigned.to_uint_nonnil p) as Hnil.
  unfold NilZero.string_of_uint.
  destruct (Pos.to_uint p) as [|d|d|d|d|d|d|d|d|d|d] eqn:E; [contradiction|..];
    (split; [discriminate|]); (split; [discriminate|]); (split; [discriminate|]);
    apply NilEmpty.usu.
Qed.

(** [Atoi] reads back what [Itoa] prints, for every [int]. *)
Lemma Atoi_Itoa (z : Z) : int_min <= z <= int_max -> Atoi (Itoa z) = Some z.
Proof.
  intros Hz. unfold Itoa. destruct z as [|p|p]; cbn [Z.to_int NilZero.string_of_int].
  - reflexivity.
  - destruct (digits_read_back p) as (Hne & Hminus & Hplus & Hread).
    unfold Atoi. destruct (NilZero.string_of_uint (Pos.to_uint p)) as [|c t] eqn:E;
      [contradiction|].
    destruct (decide (c = "-"%char)) as [->|Hm]; [now destruct (Hminus t)|].
    destruct (decide (c = "+"%char)) as [->|Hp]; [now destruct (Hplus t)|].
    assert (Hsplit : match String c t with
                     | String "-"%char t' => (true, t')
                     | String "+"%char t' => (false, t')
                     | _ => (false, String c t)
                     end = (false, String c t)).
    { destruct c as [[] [] [] [] [] [] [] []]; try reflexivity; contradiction. }
    rewrite Hsplit, Hread.
    change (N.of_uint (Pos.to_uint p)) with (Pos.of_uint (Pos.to_uint p)).
    rewrite DecimalPos.Unsigned.of_to. cbn [Z.of_N].
    destruct (decide (int_min <= Z.pos p <= int_max)); [reflexivity|contradiction].
  - destruct (digits_read_back p) as (Hne & _ & _ & Hread).
    unfold Atoi. cbn [Z.to_int].
    destruct (NilZero.string_of_uint (Pos.to_uint p)) as [|c t] eqn:E; [contradiction|].
    rewrite Hread.
    change (N.of_uint (Pos.to_uint p)) with (Pos.of_uint (Pos.to_uint p)).
    rewrite DecimalPos.Unsigned.of_to. cbn [Z.of_N]. change (- Z.pos p) with (Z.neg p).
    destruct (decide (int_min <= Z.neg p <= int_max)); [reflexivity|contradiction].
Qed.

End Numbers.

Section HeaderLines.

(** A header line is cut at the colon that ends the name. *)
Lemma Cut_header (name value : string) :
  ":"%char ∉ chars name -> Cut (name +:+ ": " +:+ value) ": " = Some (name, value).
Proof.
  induction name as [|c name IH]; intros Hname.
  - rewrite str_app_nil_l. destruct (": " +:+ value) eqn:E; [discriminate|].
    cbn [Cut]. rewrite <- E, strip_prefix_app. reflexivity.
  - cbn [chars] in Hname. apply not_elem_of_cons in Hname as [Hc Hname].
    rewrite str_app_cons. cbn [Cut strip_prefix].
    destruct (decide (":"%char = c)) as [E|_]; [contradiction|].
    now rewrite IH.
Qed.

Lemma addHeaderLine_headerLine (h : Header) (name value : string) :
  ":"%char ∉ chars name ->
  addHeaderLine h (headerLine (name, value)) = <[name := default [] (h !! name) ++ [value]]> h.
Proof. intros Hname. unfold addHeaderLine, headerLine. cbn [fst snd]. now rewrite Cut_header. Qed.

(** The lines of one header append its values. *)
Lemma fold_header_values (name : string) (values : list string) (acc : Header) :
  ":"%char ∉ chars name -> values <> [] ->
  fold_left addHeaderLine (headerLine <$> ((fun value => (name, value)) <$> values)) acc
  = <[name := default [] (acc !! name) ++ values]> acc.
Proof.
  intros Hname. revert acc. induction values as [|v values IH]; intros acc Hne; [contradiction|].
  rewrite !fmap_cons. cbn [fold_left]. rewrite addHeaderLine_headerLine by exact Hname.
  destruct values as [|v' values]; [reflexivity|].
  rewrite IH by discriminate. rewrite lookup_insert_eq, insert_insert_eq.
  cbn [from_option]. unfold id. now rewrite <- app_assoc.
Qed.

(** The lines of distinct headers, read into a map without them, give each
    header its values. *)
Lemma fold_header_names (vals : string -> list string) (names : list string) (acc : Header)
    (k : string) :
  NoDup names ->
  (forall name, name ∈ names ->
     (":"%char ∉ chars name) /\ vals name <> [] /\ acc !! name = None) ->
  fold_left addHeaderLine
    (headerLine <$> (name ← names; (fun value => (name, value)) <$> vals name)) acc !! k
  = if decide (k ∈ names) then Some (vals k) else acc !! k.
Proof.
  revert acc. induction names as [|name names IH]; intros acc Hnd Hnames.
  - cbn. destruct (decide (k ∈ [])) as [Hin|_]; [|reflexivity]. now apply elem_of_nil in Hin.
  - apply NoDup_cons in Hnd as [Hfresh Hnd].
    destruct (Hnames name) as (Hcolon & Hvals & Hnone); [now left|].
    rewrite bind_cons, fmap_app, fold_left_app, fold_header_values by assumption.
    rewrite Hnone. cbn [default app]. rewrite IH; [|exact Hnd|].
    + destruct (decide (k = name)) as [->|Hk].
      * destruct (decide (name ∈ names)); [contradiction|].
        destruct (decide (name ∈ name :: names)) as [_|Hn]; [|exfalso; apply Hn; now left].
        apply lookup_insert_eq.
      * rewrite lookup_insert_ne by congruence.
        destruct (decide (k ∈ names)) as [Hin|Hin];
          destruct (decide (k ∈ name :: names)) as [Hin'|Hin']; try reflexivity.
        -- exfalso. apply Hin'. now right.
        -- apply elem_of_cons in Hin' as [?|?]; contradiction.
    + intros name' Hin'. destruct (Hnames name') as (? & ? & ?); [now right|].
      repeat split; try assumption.
      rewrite lookup_insert_ne; [assumption|]. intros ->. contradiction.
Qed.

Lemma sortedNames_spec (h : Header) (k : string) : k ∈ sortedNames h <-> is_Some (h !! k).
Proof.
  unfold sortedNames. rewrite merge_sort_Permutation, list_elem_of_fmap. split.
  - intros [[k' vs] [-> Hin]]. apply elem_of_map_to_list in Hin. cbn. eauto.
  - intros [vs Hvs]. exists (k, vs). split; [reflexivity|]. now apply elem_of_map_to_list.
Qed.

Lemma sortedNames_NoDup (h : Header) : NoDup (sortedNames h).
Proof.
  unfold sortedNames. rewrite merge_sort_Permutation. apply NoDup_fst_map_to_list.
Qed.

(** Reading the header lines of a map back gives the map. *)
Lemma header_lines_read_back (h : Header) :
  Forall (fun kv : string * list string =>
            oneLine kv.1 /\ (":"%char ∉ chars kv.1) /\ kv.2 <> [] /\ Forall oneLine kv.2)
         (map_to_list h) ->
  fold_left addHeaderLine (headerLine <$> headerPairs h) ∅ = h.
Proof.
  intros Hh. rewrite Forall_forall in Hh. apply map_eq. intros k. unfold headerPairs.
  rewrite (fold_header_names (fun name => default [] (h !! name))).
  - destruct (decide (k ∈ sortedNames h)) as [Hin|Hin].
    + apply sortedNames_spec in Hin as [vs ->]. reflexivity.
    + rewrite lookup_empty. destruct (h !! k) as [vs|] eqn:E; [|reflexivity].
      exfalso. apply Hin, sortedNames_spec. eauto.
  - apply sortedNames_NoDup.
  - intros name Hin. apply sortedNames_spec in Hin as [vs Hvs].
    destruct (Hh (name, vs)) as (_ & Hcolon & Hvals & _); [now apply elem_of_map_to_list|].
    rewrite Hvs. cbn in *. repeat split; try assumption; try apply lookup_empty.
Qed.

(** The header lines are lines, none of them blank. *)
Lemma headerPairs_lines (h : Header) (p : string * string) :
  Forall (fun kv : string * list string =>
            oneLine kv.1 /\ (":"%char ∉ chars kv.1) /\ kv.2 <> [] /\ Forall oneLine kv.2)
         (map_to_list h) ->
  p ∈ headerPairs h -> oneLine (headerLine p) /\ headerLine p <> EmptyString.
Proof.
  intros Hh Hp. rewrite Forall_forall in Hh. unfold headerPairs in Hp.
  apply list_elem_of_bind in Hp as (name & Hp & Hname).
  apply sortedNames_spec in Hname as [vs Hvs]. rewrite Hvs in Hp. cbn [default] in Hp.
  apply list_elem_of_fmap in Hp as (value & -> & Hvalue).
  destruct (Hh (name, vs)) as (Hline & _ & _ & Hvalues); [now apply elem_of_map_to_list|].
  cbn [fst snd] in *. rewrite Forall_forall in Hvalues. unfold headerLine. cbn [fst snd]. split.
  - rewrite !oneLine_app. repeat split; [assumption| |now apply Hvalues].
    apply oneLine_cons. split; [discriminate|]. apply oneLine_cons. split; [discriminate|].
    apply not_elem_of_nil.
  - destruct name; [rewrite str_app_nil_l|rewrite str_app_cons]; discriminate.
Qed.

End HeaderLines.

Section RoundTrip.

Lemma lines_field (prefix value rest : string) :
  oneLine prefix -> oneLine value ->
  lines (prefix +:+ value +:+ LF +:+ rest) = (prefix +:+ value) :: lines rest.
Proof.
  intros Hp Hv. rewrite <- str_app_assoc. apply lines_app_LF. now apply oneLine_app.
Qed.

Lemma lines_header_lines (ps : list (string * string)) (rest : string) :
  Forall (fun p => oneLine (headerLine p)) ps ->
  lines (fold_right (fun p acc => headerLine p +:+ LF +:+ acc) rest ps)
  = (headerLine <$> ps) ++ lines rest.
Proof.
  induction 1 as [|p ps Hp _ IH]; [reflexivity|].
  cbn [fold_right]. rewrite lines_app_LF by exact Hp. now rewrite IH.
Qed.

Lemma splitAtBlank_header_lines (hs rest : list string) :
  Forall (fun l => l <> EmptyString) hs ->
  splitAtBlank (hs ++ EmptyString :: rest) = (hs, EmptyString :: rest).
Proof.
  induction 1 as [|l hs Hl _ IH].
  - cbn. now destruct (decide _).
  - cbn [app splitAtBlank]. destruct (decide (l = EmptyString)); [contradiction|].
    now rewrite IH.
Qed.

Lemma literal_oneLine (s : string) : bool_decide (oneLine s) = true -> oneLine s.
Proof. apply bool_decide_eq_true_1. Qed.

(** The lines of the canonical form. *)
Lemma lines_Serialize (q : RecordedRequest) :
  canonical q ->
  lines (Serialize q)
  = [PreviousRequest q; "Server Address: " +:+ ServerAddress q;
     "Port: " +:+ Itoa (Port q); "Protocol: " +:+ Protocol q; separator; Request q]
    ++ (headerLine <$> headerPairs (Headers q))
    ++ EmptyString :: EmptyString :: lines (RawBody q).
Proof.
  intros (Hlines & _ & _ & Hheaders). unfold Serialize.
  apply Forall_cons in Hlines as [Hprev Hlines]. apply Forall_cons in Hlines as [Haddr Hlines].
  apply Forall_cons in Hlines as [Hproto Hlines]. apply Forall_cons in Hlines as [Hreq _].
  rewrite (lines_app_LF (PreviousRequest q)) by exact Hprev.
  rewrite (lines_field "Server Address: ") by (try assumption; now apply literal_oneLine).
  rewrite (lines_field "Port: ") by (try apply Itoa_oneLine; now apply literal_oneLine).
  rewrite (lines_field "Protocol: ") by (try assumption; now apply literal_oneLine).
  rewrite (lines_app_LF separator) by now apply literal_oneLine.
  rewrite (lines_app_LF (Request q)) by exact Hreq.
  rewrite lines_header_lines, !lines_LF; [reflexivity|].
  apply Forall_forall. intros p Hp. now apply (headerPairs_lines (Headers q)).
Qed.

(** C7 (amended): for every recorded request in canonical form, its
    serialisation is deserialised without error, to the request itself with
    no body segments (they are not part of the serialised form), and
    serialising the result gives the serialisation back. *)
Theorem Serialize_Deserialize_round_trip (q : RecordedRequest) :
  canonical q ->
  Deserialize (Serialize q) = Ok (setBodySegments q []) /\
  Serialize (setBodySegments q []) = Serialize q.
Proof.
  intros Hq. split; [|reflexivity].
  pose proof Hq as (_ & Hsep & Hport & Hheaders).
  unfold Deserialize. rewrite lines_Serialize by exact Hq.
  cbn [app splitAtSeparator].
  destruct (decide (PreviousRequest q = separator)); [contradiction|].
  destruct (decide ("Server Address: " +:+ ServerAddress q = separator)); [discriminate|].
  destruct (decide ("Port: " +:+ Itoa (Port q) = separator)); [discriminate|].
  destruct (decide ("Protocol: " +:+ Protocol q = separator)); [discriminate|].
  destruct (decide (separator = separator)); [|contradiction].
  cbn [hd tl parseFields].
  rewrite (strip_prefix_app "Server Address: ").
  replace (strip_prefix "Server Address: " ("Port: " +:+ Itoa (Port q))) with (@None string)
    by reflexivity.
  rewrite (strip_prefix_app "Port: "), (Atoi_Itoa _ Hport).
  replace (strip_prefix "Server Address: " ("Protocol: " +:+ Protocol q)) with (@None string)
    by reflexivity.
  replace (strip_prefix "Port: " ("Protocol: " +:+ Protocol q)) with (@None string)
    by reflexivity.
  rewrite (strip_prefix_app "Protocol: ").
  cbn [Request Headers RawBody BodySegments PreviousRequest ServerAddress Port Protocol].
  rewrite splitAtBlank_header_lines.
  - rewrite !skipn_cons, drop_0, unlines_lines, header_lines_read_back by exact Hheaders.
    destruct q; reflexivity.
  - apply Forall_fmap, Forall_forall. intros p Hp.
    now apply (headerPairs_lines (Headers q)).
Qed.

End RoundTrip.

(** C7, as stated, fails: a serialized request with the separator, the
    prefixed fields, a base-10 port, header lines, a blank line and a body, in
    which the header lines are not in ascending order of their names, is
    deserialised without error, and serialising the result writes the headers
    in ascending order: another string. *)
Lemma unsorted_headers_do_not_round_trip :
  let x := unlines [Examples.sha1to32; "Server Address: example.com"; "Port: 8080";
                    "Protocol: http"; separator; "GET / HTTP/1.1";
                    "Content-Type: application/json"; "Accept: application/xml";
                    EmptyString; EmptyString; Examples.keyValue] in
  wellFormed x /\ exists q, Deserialize x = Ok q /\ Serialize q <> x.
Proof.
  intros x. split.
  - exists Examples.sha1to32, "example.com", "8080", "http", "GET / HTTP/1.1",
      [("Content-Type", "application/json"); ("Accept", "application/xml")],
      Examples.keyValue.
    split; [repeat constructor; apply literal_oneLine; reflexivity|].
    split; [repeat constructor; apply literal_oneLine; reflexivity|].
    split; [eexists; reflexivity|]. vm_compute. reflexivity.
  - eexists. split; [vm_compute; reflexivity | vm_compute; discriminate].
Qed.

(** The same with a port written with a leading zero. *)
Example padded_port_does_not_round_trip :
  exists q, Deserialize (Examples.validInput "08080") = Ok q /\
            Serialize q = Examples.validInput "8080".
Proof. cbv zeta. eexists. split; vm_compute; reflexivity. Qed.

Lemma Serialize_Deserialize_round_trip_witness :
  let q := {| Request := "GET / HTTP/1.1";
              Headers := {[ "Accept" := ["application/xml"; "text/html"];
                            "Content-Type" := ["application/json"] ]};
              RawBody := Examples.keyValue; BodySegments := [];
              PreviousRequest := Examples.sha1to32; ServerAddress := "example.com";
              Port := 8080; Protocol := "http" |} in
  canonical q /\ Deserialize (Serialize q) = Ok q.
Proof.
  intros q.
  assert (Hq : canonical q) by (apply (bool_decide_unpack (canonical q)); vm_compute; exact I).
  split; [exact Hq|]. exact (proj1 (Serialize_Deserialize_round_trip q Hq)).
Defined.
